(** * Modbus RTU/TCP engines, serial read buffer and CAN receive queue

    A shallow embedding of the protocol and buffered-transport code of the
    gateway:

    - [ProtocolModbusRTU]   (src/protocols/modbus/ModbusRTU.cpp)
    - [ProtocolModbusTCP]   (src/protocols/modbus/ModbusTCP.cpp)
    - [ProtocolModbusSlave] (src/protocols/modbus/ModbusSlave.cpp)
    - [CANReceiveThread]    (src/drivers/can/DriverCANHighPerf.cpp)
    - [DriverSerial]        (src/drivers/serial/DriverSerial.cpp)

    Conventions.  A [QByteArray] is a [list byte]; a byte read through
    [static_cast<quint8>] is the integer [u8 b] in [0, 256).  Fixed-width
    integers are [Z] with the narrowing written out ([wrap8], [wrap16],
    [wrap64], [to_int]).  Reading a byte array through the checked const
    [operator[]] outside its bounds, indexing a [QVector] outside its size and
    dequeuing from an empty [QQueue] have no defined result in the source; they
    are the [None] of the [option] monad here.  Objects are records, member
    functions take the record and return the updated one; bytes handed to
    [QSerialPort::write]/[QTcpSocket::write] and emitted signals are appended
    to logs kept in the record. *)

From Stdlib Require Import ZArith List Lia Bool.
From Stdlib Require Import Init.Byte Strings.Byte.
From stdpp Require Import base list option.

Local Open Scope Z_scope.

(* ================================================================== *)
(** * Part I: definitions                                              *)
(* ================================================================== *)

(** ** Fixed-width integers and bytes *)

Definition wrap8 (z : Z) : Z := z mod 2 ^ 8.
Definition wrap16 (z : Z) : Z := z mod 2 ^ 16.
Definition wrap64 (z : Z) : Z := z mod 2 ^ 64.

Definition INT_MAX : Z := 2 ^ 31 - 1.

(** Narrowing to a 32-bit signed [int]. *)
Definition to_int (z : Z) : Z := (z + 2 ^ 31) mod 2 ^ 32 - 2 ^ 31.

(** [static_cast<quint8>(c)] *)
Definition u8 (b : byte) : Z := Z.of_N (Byte.to_N b).

(** The [char] an integer is narrowed to by [QByteArray::append(char)]. *)
Definition to_char (z : Z) : byte :=
  default x00 (Byte.of_N (Z.to_N (wrap8 z))).

(** A byte array written as its integer values. *)
Definition bytes (l : list Z) : list byte := map to_char l.

(** ** The parts of [QByteArray] the code uses *)

Abbreviation QByteArray := (list byte) (only parsing).

Definition size (a : QByteArray) : Z := Z.of_nat (length a).

(** [a[i]] through the const, bounds-asserting [operator[]] (and the reads of
    a local array that the code guards by a size test). *)
Definition at_ (a : QByteArray) (i : Z) : option Z :=
  if i <? 0 then None else u8 <$> a !! Z.to_nat i.

(** [a.left(len)] *)
Definition left (a : QByteArray) (len : Z) : QByteArray :=
  if len >=? size a then a
  else if len <? 0 then []
  else take (Z.to_nat len) a.

(** [a.right(len)] *)
Definition right (a : QByteArray) (len : Z) : QByteArray :=
  if len >=? size a then a
  else if len <? 0 then []
  else drop (Z.to_nat (size a - len)) a.

(** [a.mid(pos, len)] for [0 <= pos] and [0 <= len], the only way it is
    called. *)
Definition mid (a : QByteArray) (pos len : Z) : QByteArray :=
  take (Z.to_nat len) (drop (Z.to_nat pos) a).

(** ** CRC16 (ModbusRTU.cpp:537-554, and its copy ModbusSlave.cpp:472-489) *)

Module Crc.

(** One pass of the inner [for (j...)] loop. *)
Definition round (crc : Z) : Z :=
  if negb (Z.land crc 0x0001 =? 0)
  then wrap16 (Z.lxor (Z.shiftr crc 1) 0xA001)
  else wrap16 (Z.shiftr crc 1).

(** One pass of the outer loop: [crc ^= data[i]] and eight rounds. *)
Definition step (crc : Z) (b : byte) : Z :=
  Nat.iter 8 round (wrap16 (Z.lxor crc (u8 b))).

Definition calculateCRC16 (data : QByteArray) : Z :=
  fold_left step data 0xFFFF.

(** [crc & 0xFF] and [(crc >> 8) & 0xFF], as appended to a frame. *)
Definition lo (crc : Z) : byte := to_char (Z.land crc 0xFF).
Definition hi (crc : Z) : byte := to_char (Z.land (Z.shiftr crc 8) 0xFF).

(** A frame on the wire: the body followed by its CRC16, low byte first, as
    [buildRequest] (ModbusRTU.cpp:490-492) and [sendResponse]
    (ModbusSlave.cpp:440-444) append it. *)
Definition frame (body : QByteArray) : QByteArray :=
  body ++ [lo (calculateCRC16 body); hi (calculateCRC16 body)].

End Crc.

(** ** Shared helpers *)

(** [(hi << 8) | lo], stored in a [quint16]. *)
Definition u16 (hi lo : Z) : Z := wrap16 (Z.lor (Z.shiftl hi 8) lo).

(** [v[i]] and [v[i] = x] on a [QVector<quint16>]: defined inside the vector
    only. *)
Definition vec_get (v : list Z) (i : Z) : option Z :=
  if i <? 0 then None else v !! Z.to_nat i.

Definition vec_set (v : list Z) (i x : Z) : option (list Z) :=
  if (0 <=? i) && (i <? Z.of_nat (length v))
  then Some (<[Z.to_nat i := x]> v)
  else None.

(** [for (int i = i0; i < i0 + n; i++) body], threading the loop state and
    stopping at the first undefined step. *)
Fixpoint for_loop {S : Type} (n : nat) (i : Z) (body : Z → S → option S) (s : S)
  : option S :=
  match n with
  | O => Some s
  | S n' => s' ← body i s; for_loop n' (i + 1) body s'
  end.

(** ** Modbus RTU slave (ModbusSlave.cpp, ModbusSlave.h) *)

Module Slave.

Definition MODBUS_EXCEPTION_ILLEGAL_FUNCTION : Z := 0x01.
Definition MODBUS_EXCEPTION_ILLEGAL_DATA_ADDRESS : Z := 0x02.
Definition MODBUS_EXCEPTION_ILLEGAL_DATA_VALUE : Z := 0x03.
Definition MODBUS_EXCEPTION_SLAVE_DEVICE_FAILURE : Z := 0x04.

Definition MAX_REGISTERS : Z := 256.

Inductive Signal : Type :=
| readRequest (functionCode address count : Z)
| writeRequest (functionCode address value : Z).

Record t : Type := mk {
  m_slaveAddress : Z;
  m_receiveBuffer : QByteArray;
  m_holdingRegisters : list Z;
  m_inputRegisters : list Z;
  (** frames handed to [m_serialPort->write], oldest first *)
  written : list QByteArray;
  (** signals emitted, oldest first *)
  emitted : list Signal
}.

(** State left by the constructor. *)
Definition create (slaveAddress : Z) : t :=
  {| m_slaveAddress := slaveAddress;
     m_receiveBuffer := [];
     m_holdingRegisters := replicate (Z.to_nat MAX_REGISTERS) 0;
     m_inputRegisters := replicate (Z.to_nat MAX_REGISTERS) 0;
     written := [];
     emitted := [] |}.

(** The class invariant set up by the constructor: both register banks hold
    [MAX_REGISTERS] entries. *)
Definition banks_sized (s : t) : Prop :=
  Z.of_nat (length (m_holdingRegisters s)) = MAX_REGISTERS ∧
  Z.of_nat (length (m_inputRegisters s)) = MAX_REGISTERS.

Definition set_receiveBuffer (s : t) (b : QByteArray) : t :=
  mk (m_slaveAddress s) b (m_holdingRegisters s) (m_inputRegisters s)
     (written s) (emitted s).

Definition set_holdingRegisters (s : t) (regs : list Z) : t :=
  mk (m_slaveAddress s) (m_receiveBuffer s) regs (m_inputRegisters s)
     (written s) (emitted s).

Definition write (s : t) (frame : QByteArray) : t :=
  mk (m_slaveAddress s) (m_receiveBuffer s) (m_holdingRegisters s)
     (m_inputRegisters s) (written s ++ [frame]) (emitted s).

Definition emit (s : t) (sig : Signal) : t :=
  mk (m_slaveAddress s) (m_receiveBuffer s) (m_holdingRegisters s)
     (m_inputRegisters s) (written s) (emitted s ++ [sig]).

(** ModbusSlave.cpp:218-226; the flag is the function's result. *)
Definition setHoldingRegister (s : t) (address value : Z) : option (t * bool) :=
  if address >=? MAX_REGISTERS then Some (s, false)
  else
    regs ← vec_set (m_holdingRegisters s) address value;
    Some (set_holdingRegisters s regs, true).

(** ModbusSlave.cpp:231-238 *)
Definition getHoldingRegister (s : t) (address : Z) : option Z :=
  if address >=? MAX_REGISTERS then Some 0
  else vec_get (m_holdingRegisters s) address.

(** ModbusSlave.cpp:472-489 repeats ModbusRTU.cpp:537-554 line for line. *)
Definition calculateCRC16 (data : QByteArray) : Z := Crc.calculateCRC16 data.

(** ModbusSlave.cpp:437-451 *)
Definition sendResponse (s : t) (response : QByteArray) : t :=
  let crc := calculateCRC16 response in
  let frame := response ++ [to_char (Z.land crc 0xFF)] in
  let frame := frame ++ [to_char (Z.land (Z.shiftr crc 8) 0xFF)] in
  write s frame.

(** ModbusSlave.cpp:456-467 *)
Definition sendException (s : t) (functionCode exceptionCode : Z) : t :=
  let response :=
    [to_char (m_slaveAddress s);
     to_char (Z.lor functionCode 0x80);
     to_char exceptionCode] in
  sendResponse s response.

(** ModbusSlave.cpp:494-509 *)
Definition verifyCRC (data : QByteArray) : option bool :=
  if size data <? 4 then Some false
  else
    lo ← at_ data (size data - 2);
    hi ← at_ data (size data - 1);
    let receivedCRC := wrap16 (Z.lor lo (Z.shiftl hi 8)) in
    let dataWithoutCRC := left data (size data - 2) in
    let calculatedCRC := calculateCRC16 dataWithoutCRC in
    Some (receivedCRC =? calculatedCRC).

(** The register-reading loop of the two read handlers: appends the high
    and the low byte of [regs[startAddr + i]]. *)
Definition appendRegister (regs : list Z) (startAddr : Z)
    (i : Z) (response : QByteArray) : option QByteArray :=
  value ← vec_get regs (startAddr + i);
  Some (response ++ [to_char (Z.land (Z.shiftr value 8) 0xFF);
                     to_char (Z.land value 0xFF)]).

(** ModbusSlave.cpp:317-345 *)
Definition handleReadHoldingRegisters (s : t) (request : QByteArray) : option t :=
  b2 ← at_ request 2; b3 ← at_ request 3;
  b4 ← at_ request 4; b5 ← at_ request 5;
  let startAddr := u16 b2 b3 in
  let count := u16 b4 b5 in
  if (count =? 0) || (count >? 125) || (startAddr + count >? MAX_REGISTERS)
  then Some (sendException s 0x03 MODBUS_EXCEPTION_ILLEGAL_DATA_ADDRESS)
  else
    let response :=
      [to_char (m_slaveAddress s); to_char 0x03; to_char (count * 2)] in
    response ← for_loop (Z.to_nat count) 0
                 (appendRegister (m_holdingRegisters s) startAddr) response;
    Some (emit (sendResponse s response) (readRequest 0x03 startAddr count)).

(** ModbusSlave.cpp:350-374 *)
Definition handleReadInputRegisters (s : t) (request : QByteArray) : option t :=
  b2 ← at_ request 2; b3 ← at_ request 3;
  b4 ← at_ request 4; b5 ← at_ request 5;
  let startAddr := u16 b2 b3 in
  let count := u16 b4 b5 in
  if (count =? 0) || (count >? 125) || (startAddr + count >? MAX_REGISTERS)
  then Some (sendException s 0x04 MODBUS_EXCEPTION_ILLEGAL_DATA_ADDRESS)
  else
    let response :=
      [to_char (m_slaveAddress s); to_char 0x04; to_char (count * 2)] in
    response ← for_loop (Z.to_nat count) 0
                 (appendRegister (m_inputRegisters s) startAddr) response;
    Some (emit (sendResponse s response) (readRequest 0x04 startAddr count)).

(** ModbusSlave.cpp:379-397 *)
Definition handleWriteSingleRegister (s : t) (request : QByteArray) : option t :=
  b2 ← at_ request 2; b3 ← at_ request 3;
  b4 ← at_ request 4; b5 ← at_ request 5;
  let address := u16 b2 b3 in
  let value := u16 b4 b5 in
  if address >=? MAX_REGISTERS
  then Some (sendException s 0x06 MODBUS_EXCEPTION_ILLEGAL_DATA_ADDRESS)
  else
    regs ← vec_set (m_holdingRegisters s) address value;
    let s := set_holdingRegisters s regs in
    let response := left request 6 in
    Some (emit (sendResponse s response) (writeRequest 0x06 address value)).

(** The register-writing loop of [handleWriteMultipleRegisters]. *)
Definition storeRegister (request : QByteArray) (startAddr : Z)
    (i : Z) (regs : list Z) : option (list Z) :=
  hi ← at_ request (7 + i * 2);
  lo ← at_ request (7 + i * 2 + 1);
  vec_set regs (startAddr + i) (u16 hi lo).

(** ModbusSlave.cpp:402-432 *)
Definition handleWriteMultipleRegisters (s : t) (request : QByteArray) : option t :=
  b2 ← at_ request 2; b3 ← at_ request 3;
  b4 ← at_ request 4; b5 ← at_ request 5;
  let startAddr := u16 b2 b3 in
  let count := u16 b4 b5 in
  byteCount ← at_ request 6;
  if (count =? 0) || (count >? 123) || (startAddr + count >? MAX_REGISTERS)
     || negb (byteCount =? count * 2)
  then Some (sendException s 0x10 MODBUS_EXCEPTION_ILLEGAL_DATA_ADDRESS)
  else
    regs ← for_loop (Z.to_nat count) 0
             (storeRegister request startAddr) (m_holdingRegisters s);
    let s := set_holdingRegisters s regs in
    let response :=
      [to_char (m_slaveAddress s); to_char 0x10;
       to_char (Z.land (Z.shiftr startAddr 8) 0xFF);
       to_char (Z.land startAddr 0xFF);
       to_char (Z.land (Z.shiftr count 8) 0xFF);
       to_char (Z.land count 0xFF)] in
    Some (emit (sendResponse s response) (writeRequest 0x10 startAddr count)).

(** ModbusSlave.cpp:267-312 *)
Definition processRequest (s : t) (request : QByteArray) : option t :=
  if size request <? 6 then Some s
  else
    crcOk ← verifyCRC request;
    if negb crcOk then Some s
    else
      address ← at_ request 0;
      if negb (address =? m_slaveAddress s) then Some s
      else
        functionCode ← at_ request 1;
        if functionCode =? 0x03 then handleReadHoldingRegisters s request
        else if functionCode =? 0x04 then handleReadInputRegisters s request
        else if functionCode =? 0x06 then handleWriteSingleRegister s request
        else if functionCode =? 0x10 then handleWriteMultipleRegisters s request
        else Some (sendException s functionCode MODBUS_EXCEPTION_ILLEGAL_FUNCTION).

(** ModbusSlave.cpp:254-262 ([data] is what [readAll] returns). *)
Definition onSerialDataReceived (s : t) (data : QByteArray) : t :=
  set_receiveBuffer s (m_receiveBuffer s ++ data).

(** The frame-gap timer's slot, ModbusSlave.cpp:44-50. *)
Definition onFrameTimeout (s : t) : option t :=
  s' ← (if size (m_receiveBuffer s) >=? 4
        then processRequest s (m_receiveBuffer s)
        else Some s);
  Some (set_receiveBuffer s' []).

(** ModbusSlave.cpp:209-213: the holding register through
    [setHoldingRegister], the input register by direct indexing. *)
Definition setSystemStatus (s : t) (status : Z) : option t :=
  '(s, _) ← setHoldingRegister s 0x0002 status;
  regs ← vec_set (m_inputRegisters s) 0x0002 status;
  Some (mk (m_slaveAddress s) (m_receiveBuffer s) (m_holdingRegisters s) regs
           (written s) (emitted s)).

(** ModbusSlave.cpp:243-249 *)
Definition setSlaveAddress (s : t) (address : Z) : t :=
  if (address >=? 1) && (address <=? 247)
  then mk address (m_receiveBuffer s) (m_holdingRegisters s)
          (m_inputRegisters s) (written s) (emitted s)
  else s.

End Slave.

(** ** Event loop seen from a master's wait loop

    While a master waits it calls [QCoreApplication::processEvents()] once
    per pass.  A pass delivers a batch of events to the master's slots: data
    made readable by the device ([readyRead]) and the expiry of the response
    timer.  A schedule lists the batches of the successive passes; the timer
    is single-shot with a finite interval, so once the listed passes are used
    up the next pass delivers its expiry. *)

Inductive Event : Type :=
| readyRead (data : QByteArray)
| timerExpired.

Definition Schedule : Type := list (list Event).

(** An event that brings no byte: the timer's expiry, or a [readyRead] with
    nothing to read. *)
Definition silent (e : Event) : Prop := e = timerExpired ∨ e = readyRead [].

(** [parseRegisters] (ModbusRTU.cpp:579-592, ModbusTCP.cpp:547-560): big-endian
    words from consecutive byte pairs, a trailing odd byte is skipped. *)
Fixpoint parseRegisters (data : QByteArray) : list Z :=
  match data with
  | hi :: lo :: rest => u16 (u8 hi) (u8 lo) :: parseRegisters rest
  | _ => []
  end.

(** [parseBooleans] (ModbusRTU.cpp:559-574, ModbusTCP.cpp:527-542). *)
Definition parseBooleans (data : QByteArray) (count : Z) : list bool :=
  omap (λ i : nat,
          let byteIndex := Z.of_nat i / 8 in
          let bitIndex := Z.of_nat i mod 8 in
          if byteIndex <? size data then
            byte ← at_ data byteIndex;
            Some (negb (Z.land byte (Z.shiftl 1 bitIndex) =? 0))
          else None)
       (seq 0 (Z.to_nat count)).

(** The bit-packing loops of [writeMultipleCoils] (ModbusRTU.cpp:365-374,
    ModbusTCP.cpp:312-321).  [packBits] is the inner loop over the bit
    positions [js]: it stops at the first position past [count] and sets bit
    [j] when [values[i * 8 + j]] holds; [count] is [values.size()], so the
    index is inside the vector. *)
Fixpoint packBits (values : list bool) (count i : Z) (js : list Z) (byte : Z) : Z :=
  match js with
  | [] => byte
  | j :: js' =>
      if i * 8 + j <? count then
        packBits values count i js'
          (if default false (values !! Z.to_nat (i * 8 + j))
           then wrap8 (Z.lor byte (Z.shiftl 1 j))
           else byte)
      else byte
  end.

(** The outer loop: one packed byte for each [i] below [byteCount]. *)
Definition packCoils (values : list bool) (count byteCount : Z) : QByteArray :=
  map (λ i : nat, to_char (packBits values count (Z.of_nat i)
                             [0; 1; 2; 3; 4; 5; 6; 7] 0))
      (seq 0 (Z.to_nat byteCount)).

(** The loop of [writeMultipleRegisters] (ModbusRTU.cpp:400-403,
    ModbusTCP.cpp:346-349): high byte, then low byte of every value. *)
Definition appendRegisters (values : list Z) : QByteArray :=
  flat_map (λ value, [to_char (Z.land (Z.shiftr value 8) 0xFF);
                      to_char (Z.land value 0xFF)]) values.

(** ** Modbus RTU master (ModbusRTU.cpp) *)

Module Rtu.

Inductive Error : Type :=
| ResponseTimeout
| CrcCheckFailed
| ModbusException (exceptionCode : Z).

Record t : Type := mk {
  (** [m_serialPort->isOpen()] *)
  isOpen : bool;
  m_slaveAddress : Z;
  m_timeout : Z;
  m_waitingForResponse : bool;
  m_receiveBuffer : QByteArray;
  (** [m_responseTimer->isActive()] *)
  timerActive : bool;
  (** requests handed to [m_serialPort->write], oldest first *)
  written : list QByteArray;
  (** arguments of [setError], oldest first *)
  errors : list Error;
  (** arguments of the [modbusException] signal, oldest first *)
  exceptions : list Z
}.

(** State left by the constructor and a successful [connect]. *)
Definition connected (slaveAddress : Z) : t :=
  {| isOpen := true; m_slaveAddress := slaveAddress; m_timeout := 1000;
     m_waitingForResponse := false; m_receiveBuffer := [];
     timerActive := false; written := []; errors := []; exceptions := [] |}.

Definition isConnected (m : t) : bool := isOpen m.

Definition set_waiting (m : t) (w : bool) : t :=
  mk (isOpen m) (m_slaveAddress m) (m_timeout m) w (m_receiveBuffer m)
     (timerActive m) (written m) (errors m) (exceptions m).

Definition set_receiveBuffer (m : t) (b : QByteArray) : t :=
  mk (isOpen m) (m_slaveAddress m) (m_timeout m) (m_waitingForResponse m) b
     (timerActive m) (written m) (errors m) (exceptions m).

Definition set_timerActive (m : t) (a : bool) : t :=
  mk (isOpen m) (m_slaveAddress m) (m_timeout m) (m_waitingForResponse m)
     (m_receiveBuffer m) a (written m) (errors m) (exceptions m).

Definition write (m : t) (request : QByteArray) : t :=
  mk (isOpen m) (m_slaveAddress m) (m_timeout m) (m_waitingForResponse m)
     (m_receiveBuffer m) (timerActive m) (written m ++ [request]) (errors m)
     (exceptions m).

Definition setError (m : t) (e : Error) : t :=
  mk (isOpen m) (m_slaveAddress m) (m_timeout m) (m_waitingForResponse m)
     (m_receiveBuffer m) (timerActive m) (written m) (errors m ++ [e])
     (exceptions m).

Definition emit_modbusException (m : t) (code : Z) : t :=
  mk (isOpen m) (m_slaveAddress m) (m_timeout m) (m_waitingForResponse m)
     (m_receiveBuffer m) (timerActive m) (written m) (errors m)
     (exceptions m ++ [code]).

(** What waiting for a response leaves alone: the port, the configured
    address, the bytes already sent and the bytes already received (the
    receive buffer only grows). *)
Definition wire_kept (m m' : t) : Prop :=
  written m' = written m ∧ isOpen m' = isOpen m ∧
  m_slaveAddress m' = m_slaveAddress m ∧
  ∃ more, m_receiveBuffer m' = m_receiveBuffer m ++ more.

Definition calculateCRC16 (data : QByteArray) : Z := Crc.calculateCRC16 data.

(** ModbusRTU.cpp:482-495 *)
Definition buildRequest (m : t) (functionCode : Z) (data : QByteArray)
  : QByteArray :=
  let request := [to_char (m_slaveAddress m)] in
  let request := request ++ [to_char functionCode] in
  let request := request ++ data in
  let crc := calculateCRC16 request in
  let request := request ++ [to_char (Z.land crc 0xFF)] in
  let request := request ++ [to_char (Z.land (Z.shiftr crc 8) 0xFF)] in
  request.

(** ModbusRTU.cpp:500-532; the flag is the function's result. *)
Definition validateResponse (m : t) (response : QByteArray) : option (bool * t) :=
  if size response <? 5 then Some (false, m)
  else
    b0 ← at_ response 0;
    if negb (b0 =? m_slaveAddress m) then Some (false, m)
    else
      let dataWithoutCRC := left response (size response - 2) in
      lo ← at_ response (size response - 2);
      hi ← at_ response (size response - 1);
      let receivedCRC := wrap16 (Z.lor lo (Z.shiftl hi 8)) in
      let calculatedCRC := calculateCRC16 dataWithoutCRC in
      if negb (receivedCRC =? calculatedCRC)
      then Some (false, setError m CrcCheckFailed)
      else
        functionCode ← at_ response 1;
        if negb (Z.land functionCode 0x80 =? 0) then
          exceptionCode ← at_ response 2;
          let m := emit_modbusException m exceptionCode in
          Some (false, setError m (ModbusException exceptionCode))
        else Some (true, m).

(** ModbusRTU.cpp:414-422 *)
Definition onSerialDataReceived (m : t) (data : QByteArray) : t :=
  if negb (m_waitingForResponse m) then m
  else set_receiveBuffer m (m_receiveBuffer m ++ data).

(** ModbusRTU.cpp:427-433 *)
Definition onResponseTimeout (m : t) : t :=
  if m_waitingForResponse m
  then set_waiting (setError m ResponseTimeout) false
  else m.

Definition deliver (m : t) (e : Event) : t :=
  match e with
  | readyRead data => onSerialDataReceived m data
  | timerExpired =>
      if timerActive m then onResponseTimeout (set_timerActive m false) else m
  end.

(** [QCoreApplication::processEvents()] *)
Definition processEvents (m : t) (batch : list Event) : t :=
  fold_left deliver batch m.

(** One pass of the [while] of [sendRequest] (ModbusRTU.cpp:459-471); the
    flag tells whether the pass left through [break]. *)
Definition waitPass (m : t) (batch : list Event) : option (t * bool) :=
  let m := processEvents m batch in
  if size (m_receiveBuffer m) >=? 5 then
    '(ok, m) ← validateResponse m (m_receiveBuffer m);
    if ok : bool
    then Some (set_timerActive (set_waiting m false) false, true)
    else Some (m, false)
  else Some (m, false).

Fixpoint waitLoop (m : t) (sched : Schedule) : option t :=
  if m_waitingForResponse m && timerActive m then
    match sched with
    | [] => '(m, _) ← waitPass m [timerExpired]; Some m
    | batch :: sched =>
        '(m, left_by_break) ← waitPass m batch;
        if left_by_break : bool then Some m else waitLoop m sched
    end
  else Some m.

(** ModbusRTU.cpp:438-477 *)
Definition sendRequest (m : t) (request : QByteArray) (sched : Schedule)
  : option (t * QByteArray) :=
  if negb (isConnected m) then Some (m, [])
  else
    let m := set_receiveBuffer m [] in
    let m := set_waiting m true in
    let m := write m request in
    let m := set_timerActive m true in
    m ← waitLoop m sched;
    let m := set_waiting m false in
    let m := set_timerActive m false in
    Some (m, m_receiveBuffer m).

(** The four-byte [start, quantity] payload of the read requests and of
    [writeSingleRegister]. *)
Definition twoWords (a b : Z) : QByteArray :=
  [to_char (Z.land (Z.shiftr a 8) 0xFF); to_char (Z.land a 0xFF);
   to_char (Z.land (Z.shiftr b 8) 0xFF); to_char (Z.land b 0xFF)].

(** ModbusRTU.cpp:198-223 *)
Definition readCoils (m : t) (startAddress count : Z) (sched : Schedule)
  : option (t * list bool) :=
  if negb (isConnected m) || (count =? 0) || (count >? 2000) then Some (m, [])
  else
    let data := twoWords startAddress count in
    '(m, response) ← sendRequest m (buildRequest m 0x01 data) sched;
    if (size response =? 0) || (size response <? 3) then Some (m, [])
    else
      byteCount ← at_ response 2;
      let coilData := mid response 3 byteCount in
      Some (m, parseBooleans coilData count).

(** ModbusRTU.cpp:255-277 *)
Definition readHoldingRegisters (m : t) (startAddress count : Z)
    (sched : Schedule) : option (t * list Z) :=
  if negb (isConnected m) || (count =? 0) || (count >? 125) then Some (m, [])
  else
    let data := twoWords startAddress count in
    '(m, response) ← sendRequest m (buildRequest m 0x03 data) sched;
    if (size response =? 0) || (size response <? 3) then Some (m, [])
    else
      byteCount ← at_ response 2;
      let registerData := mid response 3 byteCount in
      Some (m, parseRegisters registerData).

(** ModbusRTU.cpp:329-344 *)
Definition writeSingleRegister (m : t) (address value : Z) (sched : Schedule)
  : option (t * bool) :=
  if negb (isConnected m) then Some (m, false)
  else
    let data := twoWords address value in
    '(m, response) ← sendRequest m (buildRequest m 0x06 data) sched;
    Some (m, negb (size response =? 0)).

(** State left by the constructor (ModbusRTU.cpp:19-43): the port is not
    open yet. *)
Definition create : t :=
  {| isOpen := false; m_slaveAddress := 1; m_timeout := 1000;
     m_waitingForResponse := false; m_receiveBuffer := [];
     timerActive := false; written := []; errors := []; exceptions := [] |}.

(** ModbusRTU.cpp:178-185 *)
Definition setSlaveAddress (m : t) (address : Z) : t :=
  if (address >=? 1) && (address <=? 247)
  then mk (isOpen m) address (m_timeout m) (m_waitingForResponse m)
          (m_receiveBuffer m) (timerActive m) (written m) (errors m)
          (exceptions m)
  else m.

(** ModbusRTU.cpp:190-193 *)
Definition setTimeout (m : t) (timeout : Z) : t :=
  mk (isOpen m) (m_slaveAddress m) timeout (m_waitingForResponse m)
     (m_receiveBuffer m) (timerActive m) (written m) (errors m) (exceptions m).

(** ModbusRTU.cpp:228-250 *)
Definition readDiscreteInputs (m : t) (startAddress count : Z) (sched : Schedule)
  : option (t * list bool) :=
  if negb (isConnected m) || (count =? 0) || (count >? 2000) then Some (m, [])
  else
    let data := twoWords startAddress count in
    '(m, response) ← sendRequest m (buildRequest m 0x02 data) sched;
    if (size response =? 0) || (size response <? 3) then Some (m, [])
    else
      byteCount ← at_ response 2;
      let inputData := mid response 3 byteCount in
      Some (m, parseBooleans inputData count).

(** ModbusRTU.cpp:282-304 *)
Definition readInputRegisters (m : t) (startAddress count : Z)
    (sched : Schedule) : option (t * list Z) :=
  if negb (isConnected m) || (count =? 0) || (count >? 125) then Some (m, [])
  else
    let data := twoWords startAddress count in
    '(m, response) ← sendRequest m (buildRequest m 0x04 data) sched;
    if (size response =? 0) || (size response <? 3) then Some (m, [])
    else
      byteCount ← at_ response 2;
      let registerData := mid response 3 byteCount in
      Some (m, parseRegisters registerData).

(** ModbusRTU.cpp:309-324 *)
Definition writeSingleCoil (m : t) (address : Z) (value : bool) (sched : Schedule)
  : option (t * bool) :=
  if negb (isConnected m) then Some (m, false)
  else
    let data :=
      [to_char (Z.land (Z.shiftr address 8) 0xFF); to_char (Z.land address 0xFF);
       to_char (if value then 0xFF else 0x00); to_char 0x00] in
    '(m, response) ← sendRequest m (buildRequest m 0x05 data) sched;
    Some (m, negb (size response =? 0)).

(** The payload of [writeMultipleCoils], ModbusRTU.cpp:355-374. *)
Definition multipleCoilsData (startAddress : Z) (values : list bool) : QByteArray :=
  let count := wrap16 (Z.of_nat (length values)) in
  let byteCount := wrap8 ((count + 7) / 8) in
  twoWords startAddress count ++ [to_char byteCount] ++
  packCoils values count byteCount.

(** ModbusRTU.cpp:349-379 *)
Definition writeMultipleCoils (m : t) (startAddress : Z) (values : list bool)
    (sched : Schedule) : option (t * bool) :=
  if negb (isConnected m) || (Z.of_nat (length values) =? 0)
     || (Z.of_nat (length values) >? 1968)
  then Some (m, false)
  else
    let data := multipleCoilsData startAddress values in
    '(m, response) ← sendRequest m (buildRequest m 0x0F data) sched;
    Some (m, negb (size response =? 0)).

(** The payload of [writeMultipleRegisters], ModbusRTU.cpp:390-404. *)
Definition multipleRegistersData (startAddress : Z) (values : list Z) : QByteArray :=
  let count := wrap16 (Z.of_nat (length values)) in
  let byteCount := wrap8 (count * 2) in
  twoWords startAddress count ++ [to_char byteCount] ++ appendRegisters values.

(** ModbusRTU.cpp:384-409 *)
Definition writeMultipleRegisters (m : t) (startAddress : Z) (values : list Z)
    (sched : Schedule) : option (t * bool) :=
  if negb (isConnected m) || (Z.of_nat (length values) =? 0)
     || (Z.of_nat (length values) >? 123)
  then Some (m, false)
  else
    let data := multipleRegistersData startAddress values in
    '(m, response) ← sendRequest m (buildRequest m 0x10 data) sched;
    Some (m, negb (size response =? 0)).

End Rtu.

(** ** Modbus TCP master (ModbusTCP.cpp) *)

Module Tcp.

Inductive Error : Type :=
| ResponseTimeout
| ModbusException (exceptionCode : Z).

Record t : Type := mk {
  (** [m_tcpSocket->state() == QAbstractSocket::ConnectedState] *)
  socketConnected : bool;
  m_unitId : Z;
  m_timeout : Z;
  m_waitingForResponse : bool;
  m_transactionId : Z;
  m_receiveBuffer : QByteArray;
  (** [m_responseTimer->isActive()] *)
  timerActive : bool;
  (** requests handed to [m_tcpSocket->write], oldest first *)
  written : list QByteArray;
  (** arguments of [setError], oldest first *)
  errors : list Error;
  (** arguments of the [modbusException] signal, oldest first *)
  exceptions : list Z
}.

(** State left by the constructor and a successful [connect]. *)
Definition connected : t :=
  {| socketConnected := true; m_unitId := 1; m_timeout := 3000;
     m_waitingForResponse := false; m_transactionId := 0;
     m_receiveBuffer := []; timerActive := false; written := [];
     errors := []; exceptions := [] |}.

Definition isConnected (m : t) : bool := socketConnected m.

Definition set_waiting (m : t) (w : bool) : t :=
  mk (socketConnected m) (m_unitId m) (m_timeout m) w (m_transactionId m)
     (m_receiveBuffer m) (timerActive m) (written m) (errors m) (exceptions m).

Definition set_transactionId (m : t) (id : Z) : t :=
  mk (socketConnected m) (m_unitId m) (m_timeout m) (m_waitingForResponse m)
     id (m_receiveBuffer m) (timerActive m) (written m) (errors m)
     (exceptions m).

Definition set_receiveBuffer (m : t) (b : QByteArray) : t :=
  mk (socketConnected m) (m_unitId m) (m_timeout m) (m_waitingForResponse m)
     (m_transactionId m) b (timerActive m) (written m) (errors m)
     (exceptions m).

Definition set_timerActive (m : t) (a : bool) : t :=
  mk (socketConnected m) (m_unitId m) (m_timeout m) (m_waitingForResponse m)
     (m_transactionId m) (m_receiveBuffer m) a (written m) (errors m)
     (exceptions m).

Definition write (m : t) (request : QByteArray) : t :=
  mk (socketConnected m) (m_unitId m) (m_timeout m) (m_waitingForResponse m)
     (m_transactionId m) (m_receiveBuffer m) (timerActive m)
     (written m ++ [request]) (errors m) (exceptions m).

Definition setError (m : t) (e : Error) : t :=
  mk (socketConnected m) (m_unitId m) (m_timeout m) (m_waitingForResponse m)
     (m_transactionId m) (m_receiveBuffer m) (timerActive m) (written m)
     (errors m ++ [e]) (exceptions m).

Definition emit_modbusException (m : t) (code : Z) : t :=
  mk (socketConnected m) (m_unitId m) (m_timeout m) (m_waitingForResponse m)
     (m_transactionId m) (m_receiveBuffer m) (timerActive m) (written m)
     (errors m) (exceptions m ++ [code]).

(** ModbusTCP.cpp:462-484; returns the frame and the master with its
    transaction id advanced. *)
Definition buildRequest (m : t) (functionCode : Z) (data : QByteArray)
  : t * QByteArray :=
  let request :=
    [to_char (Z.land (Z.shiftr (m_transactionId m) 8) 0xFF);
     to_char (Z.land (m_transactionId m) 0xFF);
     to_char 0x00; to_char 0x00] in
  let length := wrap16 (size data + 2) in
  let request :=
    request ++ [to_char (Z.land (Z.shiftr length 8) 0xFF);
                to_char (Z.land length 0xFF);
                to_char (m_unitId m)] in
  let request := request ++ [to_char functionCode] in
  let request := request ++ data in
  (set_transactionId m (wrap16 (m_transactionId m + 1)), request).

(** ModbusTCP.cpp:489-522; the flag is the function's result. *)
Definition validateResponse (m : t) (response : QByteArray)
    (expectedTransactionId : Z) : option (bool * t) :=
  if size response <? 8 then Some (false, m)
  else
    b0 ← at_ response 0; b1 ← at_ response 1;
    let transactionId := u16 b0 b1 in
    if negb (transactionId =? expectedTransactionId) then Some (false, m)
    else
      b2 ← at_ response 2;
      protocolOk ← (if negb (b2 =? 0x00) then Some false
                    else b3 ← at_ response 3; Some (b3 =? 0x00));
      if negb protocolOk then Some (false, m)
      else
        b6 ← at_ response 6;
        if negb (b6 =? m_unitId m) then Some (false, m)
        else
          functionCode ← at_ response 7;
          if negb (Z.land functionCode 0x80 =? 0) then
            exceptionCode ← at_ response 8;
            let m := emit_modbusException m exceptionCode in
            Some (false, setError m (ModbusException exceptionCode))
          else Some (true, m).

(** ModbusTCP.cpp:380-387 *)
Definition onTcpDataReceived (m : t) (data : QByteArray) : t :=
  if negb (m_waitingForResponse m) then m
  else set_receiveBuffer m (m_receiveBuffer m ++ data).

(** ModbusTCP.cpp:403-409 *)
Definition onResponseTimeout (m : t) : t :=
  if m_waitingForResponse m
  then set_waiting (setError m ResponseTimeout) false
  else m.

Definition deliver (m : t) (e : Event) : t :=
  match e with
  | readyRead data => onTcpDataReceived m data
  | timerExpired =>
      if timerActive m then onResponseTimeout (set_timerActive m false) else m
  end.

Definition processEvents (m : t) (batch : list Event) : t :=
  fold_left deliver batch m.

(** One pass of the [while] of [sendRequest] (ModbusTCP.cpp:434-451); the
    flag tells whether the pass left through [break]. *)
Definition waitPass (m : t) (currentTransactionId : Z) (batch : list Event)
  : option (t * bool) :=
  let m := processEvents m batch in
  if size (m_receiveBuffer m) >=? 8 then
    b4 ← at_ (m_receiveBuffer m) 4;
    b5 ← at_ (m_receiveBuffer m) 5;
    let length := u16 b4 b5 in
    if size (m_receiveBuffer m) >=? 6 + length then
      '(ok, m) ← validateResponse m (m_receiveBuffer m) currentTransactionId;
      if ok : bool
      then Some (set_timerActive (set_waiting m false) false, true)
      else Some (m, false)
    else Some (m, false)
  else Some (m, false).

Fixpoint waitLoop (m : t) (currentTransactionId : Z) (sched : Schedule)
  : option t :=
  if m_waitingForResponse m && timerActive m then
    match sched with
    | [] => '(m, _) ← waitPass m currentTransactionId [timerExpired]; Some m
    | batch :: sched =>
        '(m, left_by_break) ← waitPass m currentTransactionId batch;
        if left_by_break : bool then Some m
        else waitLoop m currentTransactionId sched
    end
  else Some m.

(** ModbusTCP.cpp:414-457 *)
Definition sendRequest (m : t) (request : QByteArray) (sched : Schedule)
  : option (t * QByteArray) :=
  if negb (isConnected m) then Some (m, [])
  else
    let m := set_receiveBuffer m [] in
    let m := set_waiting m true in
    let currentTransactionId := wrap16 (m_transactionId m - 1) in
    let m := write m request in
    let m := set_timerActive m true in
    m ← waitLoop m currentTransactionId sched;
    let m := set_waiting m false in
    let m := set_timerActive m false in
    Some (m, m_receiveBuffer m).

Definition twoWords (a b : Z) : QByteArray :=
  [to_char (Z.land (Z.shiftr a 8) 0xFF); to_char (Z.land a 0xFF);
   to_char (Z.land (Z.shiftr b 8) 0xFF); to_char (Z.land b 0xFF)].

(** ModbusTCP.cpp:203-225 *)
Definition readHoldingRegisters (m : t) (startAddress count : Z)
    (sched : Schedule) : option (t * list Z) :=
  if negb (isConnected m) || (count =? 0) || (count >? 125) then Some (m, [])
  else
    let data := twoWords startAddress count in
    let '(m, request) := buildRequest m 0x03 data in
    '(m, response) ← sendRequest m request sched;
    if (size response =? 0) || (size response <? 10) then Some (m, [])
    else
      byteCount ← at_ response 8;
      let registerData := mid response 9 byteCount in
      Some (m, parseRegisters registerData).

(** ModbusTCP.cpp:277-292 *)
Definition writeSingleRegister (m : t) (address value : Z) (sched : Schedule)
  : option (t * bool) :=
  if negb (isConnected m) then Some (m, false)
  else
    let data := twoWords address value in
    let '(m, request) := buildRequest m 0x06 data in
    '(m, response) ← sendRequest m request sched;
    Some (m, negb (size response =? 0)).

End Tcp.

(** ** CAN receive thread (DriverCANHighPerf.cpp)

    [QCanBusFrame] and its [isValid] belong to the Qt serial-bus library; the
    queue code is parametric in them. *)

Module CanRx.
Section Queue.

Context {QCanBusFrame : Type} (isValid : QCanBusFrame → bool).

Inductive Signal : Type :=
| frameReceived (frame : QCanBusFrame)
| bufferOverflow (droppedCount : Z).

Record t : Type := mk {
  m_buffer : list QCanBusFrame;   (** [QQueue]: head is the oldest frame *)
  m_maxBufferSize : Z;
  m_receivedCount : Z;
  m_droppedCount : Z;
  emitted : list Signal
}.

(** State left by the constructor. *)
Definition create : t :=
  {| m_buffer := []; m_maxBufferSize := 1000; m_receivedCount := 0;
     m_droppedCount := 0; emitted := [] |}.

(** DriverCANHighPerf.cpp:229-234 *)
Definition setMaxBufferSize (s : t) (maxFrames : Z) : t :=
  mk (m_buffer s) maxFrames (m_receivedCount s) (m_droppedCount s) (emitted s).

Definition set_buffer (s : t) (q : list QCanBusFrame) : t :=
  mk q (m_maxBufferSize s) (m_receivedCount s) (m_droppedCount s) (emitted s).

Definition emit (s : t) (sig : Signal) : t :=
  mk (m_buffer s) (m_maxBufferSize s) (m_receivedCount s) (m_droppedCount s)
     (emitted s ++ [sig]).

(** [QQueue::dequeue]: defined on a non-empty queue only. *)
Definition dequeue (q : list QCanBusFrame)
  : option (QCanBusFrame * list QCanBusFrame) :=
  match q with
  | [] => None
  | f :: q' => Some (f, q')
  end.

(** The overflow branch of [run], DriverCANHighPerf.cpp:126-139. *)
Definition dropOldest (s : t) : option t :=
  '(_, q) ← dequeue (m_buffer s);
  let dropped := wrap64 (m_droppedCount s + 1) in
  let s := mk q (m_maxBufferSize s) (m_receivedCount s) dropped (emitted s) in
  if dropped mod 100 =? 0
  then Some (emit s (bufferOverflow (to_int dropped)))
  else Some s.

(** What [run] does with one frame returned by [m_device->readFrame()],
    DriverCANHighPerf.cpp:118-159 (the error branch only counts
    consecutive errors and sleeps). *)
Definition onFrame (s : t) (frame : QCanBusFrame) : option t :=
  if isValid frame then
    let s := mk (m_buffer s) (m_maxBufferSize s)
                (wrap64 (m_receivedCount s + 1)) (m_droppedCount s)
                (emitted s) in
    s ← (if Z.of_nat (length (m_buffer s)) >=? m_maxBufferSize s
         then dropOldest s else Some s);
    let s := set_buffer s (m_buffer s ++ [frame]) in
    Some (emit s (frameReceived frame))
  else Some s.

(** The frames the device delivers, one [readFrame] after the other. *)
Fixpoint onFrames (s : t) (frames : list QCanBusFrame) : option t :=
  match frames with
  | [] => Some s
  | f :: rest => s' ← onFrame s f; onFrames s' rest
  end.

(** The [while (!m_buffer.isEmpty())] of [readAllFrames]. *)
Fixpoint drain (buffer frames : list QCanBusFrame) : list QCanBusFrame :=
  match buffer with
  | [] => frames
  | f :: buffer' => drain buffer' (frames ++ [f])
  end.

(** DriverCANHighPerf.cpp:192-205 *)
Definition readAllFrames (s : t) : t * list QCanBusFrame :=
  (set_buffer s [], drain (m_buffer s) []).

(** DriverCANHighPerf.cpp:210-214 *)
Definition getBufferedFrameCount (s : t) : Z := Z.of_nat (length (m_buffer s)).

Definition getReceivedCount (s : t) : Z := m_receivedCount s.
Definition getDroppedCount (s : t) : Z := m_droppedCount s.

(** DriverCANHighPerf.cpp:219-224 *)
Definition clearBuffer (s : t) : t := set_buffer s [].

(** DriverCANHighPerf.cpp:177-187; [invalidFrame] is the default-constructed
    [QCanBusFrame()] returned for an empty buffer. *)
Definition readFrame (invalidFrame : QCanBusFrame) (s : t) : t * QCanBusFrame :=
  match m_buffer s with
  | [] => (s, invalidFrame)
  | f :: q => (set_buffer s q, f)
  end.

End Queue.
End CanRx.

(** ** Serial driver read buffer (DriverSerial.cpp) *)

Module Serial.

Inductive Warning : Type :=
| ReadBufferOverflow (currentSize maxSize : Z).

Inductive Signal : Type :=
| dataReceived (data : QByteArray).

Record t : Type := mk {
  (** the port object, if any, with the bytes [readAll] would return *)
  m_pSerialPort : option QByteArray;
  m_readBuffer : QByteArray;
  m_readBufferMaxSize : Z;
  warnings : list Warning;
  emitted : list Signal
}.

(** State left by the constructor once a port object exists. *)
Definition create : t :=
  {| m_pSerialPort := Some []; m_readBuffer := [];
     m_readBufferMaxSize := 65536; warnings := []; emitted := [] |}.

(** DriverSerial.cpp:425-429 *)
Definition setReadBufferSize (s : t) (sz : Z) : t :=
  mk (m_pSerialPort s) (m_readBuffer s) sz (warnings s) (emitted s).

(** The device makes [data] readable. *)
Definition arrive (s : t) (data : QByteArray) : t :=
  mk ((λ pending, pending ++ data) <$> m_pSerialPort s) (m_readBuffer s)
     (m_readBufferMaxSize s) (warnings s) (emitted s).

(** DriverSerial.cpp:596-627.  [m_readBufferMaxSize / 2] is a [qint64]
    division truncating toward zero, narrowed to the [int] that
    [QByteArray::right] takes. *)
Definition onReadyRead (s : t) : t :=
  match m_pSerialPort s with
  | None => s
  | Some data =>
      let port := Some [] in
      if negb (size data =? 0) then
        let buffer := m_readBuffer s ++ data in
        let '(buffer, warns) :=
          if size buffer >? m_readBufferMaxSize s
          then (right buffer (to_int (Z.quot (m_readBufferMaxSize s) 2)),
                warnings s ++
                  [ReadBufferOverflow (size buffer) (m_readBufferMaxSize s)])
          else (buffer, warnings s) in
        mk port buffer (m_readBufferMaxSize s) warns
           (emitted s ++ [dataReceived data])
      else mk port (m_readBuffer s) (m_readBufferMaxSize s) (warnings s)
              (emitted s)
  end.

(** DriverSerial.cpp:301-309 *)
Definition readAll (s : t) : t * QByteArray :=
  (mk (m_pSerialPort s) [] (m_readBufferMaxSize s) (warnings s) (emitted s),
   m_readBuffer s).

(** [a.remove(0, len)]: nothing for [len <= 0], everything for [len] not
    below the size. *)
Definition remove0 (a : QByteArray) (len : Z) : QByteArray :=
  if (len <=? 0) || (size a <=? 0) then a
  else if len >=? size a then []
  else drop (Z.to_nat len) a.

Definition set_readBuffer (s : t) (b : QByteArray) : t :=
  mk (m_pSerialPort s) b (m_readBufferMaxSize s) (warnings s) (emitted s).

(** DriverSerial.cpp:316-331; [maxSize] is a [qint64], [left] and [remove]
    take [int]s. *)
Definition read (s : t) (maxSize : Z) : t * QByteArray :=
  let readSize := Z.min maxSize (size (m_readBuffer s)) in
  if readSize <=? 0 then (s, [])
  else
    let data := left (m_readBuffer s) (to_int readSize) in
    (set_readBuffer s (remove0 (m_readBuffer s) (to_int readSize)), data).

(** [a.indexOf(c)]: position of the first [c], or -1. *)
Fixpoint indexOf (a : QByteArray) (c : byte) : Z :=
  match a with
  | [] => -1
  | b :: a' =>
      if Byte.eqb b c then 0
      else let i := indexOf a' c in if i <? 0 then -1 else i + 1
  end.

(** DriverSerial.cpp:337-355; 10 is the line feed. *)
Definition readLine (s : t) : t * QByteArray :=
  let newlineIndex := indexOf (m_readBuffer s) x0a in
  if newlineIndex <? 0 then (s, [])
  else
    let line := left (m_readBuffer s) (newlineIndex + 1) in
    (set_readBuffer s (remove0 (m_readBuffer s) (newlineIndex + 1)), line).

(** DriverSerial.cpp:361-364 *)
Definition bytesAvailable (s : t) : Z := size (m_readBuffer s).

(** DriverSerial.cpp:452-456 *)
Definition clearReadBuffer (s : t) : t := set_readBuffer s [].

End Serial.

(** ** Serial driver write queue (DriverSerial.cpp)

    The sending half of [DriverSerial]: it shares no member with the
    receiving half above.  [QSerialPort::write] is given a chunk and answers
    with the number of bytes it took, or -1; [room] is what the device can
    take at that moment (negative: it fails). *)

Module SerialTx.

Record t : Type := mk {
  (** [m_pSerialPort && m_pSerialPort->isOpen()] *)
  portOpen : bool;
  m_writeBuffer : QByteArray;
  m_isWriting : bool;
  (** the bytes the port has taken, in order *)
  sent : QByteArray
}.

(** State left by the constructor and a successful [open]. *)
Definition opened : t :=
  {| portOpen := true; m_writeBuffer := []; m_isWriting := false; sent := [] |}.

(** [m_pSerialPort->write(chunk)] *)
Definition portWrite (room : Z) (chunk : QByteArray) : Z :=
  if room <? 0 then -1 else Z.min room (size chunk).

(** DriverSerial.cpp:688-729 *)
Definition processWriteBuffer (s : t) (room : Z) : t :=
  if negb (portOpen s) then mk (portOpen s) (m_writeBuffer s) false (sent s)
  else if size (m_writeBuffer s) =? 0
  then mk (portOpen s) (m_writeBuffer s) false (sent s)
  else
    let chunkSize := 4096 in
    let sendSize := Z.min (size (m_writeBuffer s)) chunkSize in
    let chunk := left (m_writeBuffer s) (to_int sendSize) in
    let bytesWritten := portWrite room chunk in
    if bytesWritten >? 0
    then mk (portOpen s)
            (Serial.remove0 (m_writeBuffer s) (to_int bytesWritten)) true
            (sent s ++ left chunk bytesWritten)
    else mk (portOpen s) (m_writeBuffer s) false (sent s).

(** DriverSerial.cpp:260-285; the number is the function's result. *)
Definition write (s : t) (data : QByteArray) (room : Z) : t * Z :=
  if negb (portOpen s) then (s, -1)
  else if size data =? 0 then (s, 0)
  else
    let s := mk (portOpen s) (m_writeBuffer s ++ data) (m_isWriting s) (sent s) in
    let s := if negb (m_isWriting s) then processWriteBuffer s room else s in
    (s, size data).

(** The [while] of [flush] (DriverSerial.cpp:401-414), one device answer per
    pass; when the listed answers are used up the device takes nothing
    more. *)
Fixpoint flush (s : t) (rooms : list Z) : t :=
  if negb (size (m_writeBuffer s) =? 0) && portOpen s then
    match rooms with
    | [] => s
    | room :: rooms' =>
        let bytesWritten := portWrite room (m_writeBuffer s) in
        if bytesWritten >? 0
        then flush (mk (portOpen s)
                       (Serial.remove0 (m_writeBuffer s) (to_int bytesWritten))
                       (m_isWriting s)
                       (sent s ++ left (m_writeBuffer s) bytesWritten))
                   rooms'
        else s
    end
  else s.

(** DriverSerial.cpp:444-447 *)
Definition getWriteBufferSize (s : t) : Z := size (m_writeBuffer s).

(** DriverSerial.cpp:461-466 *)
Definition clearWriteBuffer (s : t) : t := mk (portOpen s) [] false (sent s).

(** What a user and the port do to the queue. *)
Inductive Op : Type :=
| opWrite (data : QByteArray) (room : Z)
| opBytesWritten (room : Z)
| opFlush (rooms : list Z).

Definition step (s : t) (op : Op) : t :=
  match op with
  | opWrite data room => fst (write s data room)
  | opBytesWritten room => processWriteBuffer s room
  | opFlush rooms => flush s rooms
  end.

(** The data accepted by the [write] calls of a history, in order. *)
Fixpoint queued (s : t) (ops : list Op) : QByteArray :=
  match ops with
  | [] => []
  | op :: ops' =>
      (match op with
       | opWrite data _ => if portOpen s then data else []
       | _ => []
       end) ++ queued (step s op) ops'
  end.

End SerialTx.

(** ** CAN driver, event-driven receive buffer (DriverCAN.cpp) *)

Module CanBuf.
Section Buffer.

Context {QCanBusFrame : Type} (isValid : QCanBusFrame → bool).

Record t : Type := mk {
  m_receiveBuffer : list QCanBusFrame;   (** [QVector]: head is the oldest *)
  m_receiveBufferMaxSize : Z;
  m_receivedFrameCount : Z;
  (** arguments of the [frameReceived] signal, oldest first *)
  emitted : list QCanBusFrame
}.

(** State left by the constructor, DriverCAN.cpp:16-27. *)
Definition create : t :=
  {| m_receiveBuffer := []; m_receiveBufferMaxSize := 1000;
     m_receivedFrameCount := 0; emitted := [] |}.

(** DriverCAN.cpp:627-631 *)
Definition setReceiveBufferMaxSize (s : t) (maxFrames : Z) : t :=
  mk (m_receiveBuffer s) maxFrames (m_receivedFrameCount s) (emitted s).

(** [v.remove(0, n)] on a [QVector]: defined for [0 <= n <= v.size()]. *)
Definition removeFirst (v : list QCanBusFrame) (n : Z)
  : option (list QCanBusFrame) :=
  if (0 <=? n) && (n <=? Z.of_nat (length v))
  then Some (drop (Z.to_nat n) v)
  else None.

(** What [onFramesReceived] does with one frame read from the device,
    DriverCAN.cpp:501-523. *)
Definition onFrame (s : t) (frame : QCanBusFrame) : option t :=
  if isValid frame then
    let count := wrap64 (m_receivedFrameCount s + 1) in
    let buffer := m_receiveBuffer s ++ [frame] in
    if Z.of_nat (length buffer) >? m_receiveBufferMaxSize s then
      buffer ← removeFirst buffer
                  (Z.of_nat (length buffer) - m_receiveBufferMaxSize s);
      Some (mk buffer (m_receiveBufferMaxSize s) count (emitted s ++ [frame]))
    else Some (mk buffer (m_receiveBufferMaxSize s) count (emitted s ++ [frame]))
  else Some s.

(** DriverCAN.cpp:496-525: the frames available on the device, in order. *)
Fixpoint onFramesReceived (s : t) (frames : list QCanBusFrame) : option t :=
  match frames with
  | [] => Some s
  | f :: rest => s' ← onFrame s f; onFramesReceived s' rest
  end.

(** DriverCAN.cpp:593-601 *)
Definition readAllFrames (s : t) : t * list QCanBusFrame :=
  (mk [] (m_receiveBufferMaxSize s) (m_receivedFrameCount s) (emitted s),
   m_receiveBuffer s).

(** DriverCAN.cpp:575-587 *)
Definition readFrame (invalidFrame : QCanBusFrame) (s : t) : t * QCanBusFrame :=
  match m_receiveBuffer s with
  | [] => (s, invalidFrame)
  | f :: rest =>
      (mk rest (m_receiveBufferMaxSize s) (m_receivedFrameCount s) (emitted s), f)
  end.

End Buffer.
End CanBuf.

(* ================================================================== *)
(** * Part II: properties                                              *)
(* ================================================================== *)

(** [lia] is asked to reason about division and remainder by constants. *)
Ltac Zify.zify_post_hook ::= Z.to_euclidean_division_equations.

(** Simplification leaves the primitives folded; the lemmas below describe
    them. *)
#[local] Arguments at_ : simpl never.
#[local] Arguments vec_get : simpl never.
#[local] Arguments vec_set : simpl never.
#[local] Arguments left : simpl never.
#[local] Arguments right : simpl never.
#[local] Arguments mid : simpl never.
#[local] Arguments u16 : simpl never.
#[local] Arguments to_char : simpl never.
#[local] Arguments size : simpl never.
#[local] Arguments Crc.calculateCRC16 : simpl never.

(** ** Bytes *)

Lemma u8_range (b : byte) : 0 <= u8 b < 256.
Proof.
  unfold u8. pose proof (Byte.to_N_bounded b). lia.
Qed.

Lemma u8_to_char (z : Z) : u8 (to_char z) = wrap8 z.
Proof.
  unfold to_char, u8, wrap8.
  assert (Hr : 0 <= z mod 2 ^ 8 < 256) by (apply Z.mod_pos_bound; lia).
  destruct (Byte.of_N (Z.to_N (z mod 2 ^ 8))) as [b|] eqn:E.
  - cbn. apply Byte.to_of_N in E. rewrite E. lia.
  - apply Byte.of_N_None_iff in E. lia.
Qed.

Lemma wrap16_range (z : Z) : 0 <= wrap16 z < 65536.
Proof. unfold wrap16. apply Z.mod_pos_bound. lia. Qed.

Lemma wrap16_small (z : Z) : 0 <= z < 65536 → wrap16 z = z.
Proof. intros. unfold wrap16. apply Z.mod_small. lia. Qed.

(** ** CRC16 *)

Lemma crc_round_range (c : Z) : 0 <= Crc.round c < 65536.
Proof. unfold Crc.round. destruct (negb _); apply wrap16_range. Qed.

Lemma crc_step_range (c : Z) (b : byte) : 0 <= Crc.step c b < 65536.
Proof. unfold Crc.step, Nat.iter. cbn [nat_rect]. apply crc_round_range. Qed.

Lemma calculateCRC16_range (data : QByteArray) :
  0 <= Crc.calculateCRC16 data < 65536.
Proof.
  unfold Crc.calculateCRC16.
  induction data as [|b data IH] using rev_ind.
  - cbn. lia.
  - rewrite fold_left_app. cbn [fold_left]. apply crc_step_range.
Qed.

(** A round on an even register value only shifts. *)
Lemma crc_round_even (k : Z) : 0 <= k < 32768 → Crc.round (2 * k) = k.
Proof.
  intros Hk. unfold Crc.round.
  change (Z.land (2 * k) 1) with (Z.land (2 * k) (Z.ones 1)).
  rewrite Z.land_ones by lia.
  replace ((2 * k) mod 2 ^ 1) with 0 by (change (2 ^ 1) with 2; lia).
  cbn [Z.eqb negb].
  rewrite Z.shiftr_div_pow2 by lia. change (2 ^ 1) with 2.
  replace (2 * k / 2) with k by lia.
  apply wrap16_small. lia.
Qed.

(** Eight rounds on a register whose low byte is clear shift it out. *)
Lemma crc_rounds_low_clear (h : Z) :
  0 <= h < 256 → Nat.iter 8 Crc.round (256 * h) = h.
Proof.
  intros Hh. unfold Nat.iter. cbn [nat_rect].
  replace (256 * h) with (2 * (128 * h)) by lia. rewrite crc_round_even by lia.
  replace (128 * h) with (2 * (64 * h)) by lia. rewrite crc_round_even by lia.
  replace (64 * h) with (2 * (32 * h)) by lia. rewrite crc_round_even by lia.
  replace (32 * h) with (2 * (16 * h)) by lia. rewrite crc_round_even by lia.
  replace (16 * h) with (2 * (8 * h)) by lia. rewrite crc_round_even by lia.
  replace (8 * h) with (2 * (4 * h)) by lia. rewrite crc_round_even by lia.
  replace (4 * h) with (2 * (2 * h)) by lia. rewrite crc_round_even by lia.
  rewrite crc_round_even by lia. reflexivity.
Qed.

Lemma land_255 (c : Z) : Z.land c 0xFF = c mod 256.
Proof. change 0xFF with (Z.ones 8). rewrite Z.land_ones by lia. reflexivity. Qed.

(** Xoring the register with its own low byte clears that byte. *)
Lemma lxor_low_byte (c : Z) : Z.lxor c (c mod 256) = 256 * (c / 256).
Proof.
  replace (256 * (c / 256)) with (Z.shiftl (Z.shiftr c 8) 8)
    by (rewrite Z.shiftl_mul_pow2, Z.shiftr_div_pow2 by lia; change (2 ^ 8) with 256; lia).
  change 256 with (2 ^ 8).
  apply Z.bits_inj'. intros n Hn.
  rewrite Z.lxor_spec, Z.shiftl_spec by lia.
  destruct (Z.ltb_spec n 8) as [Hlt|Hge].
  - rewrite Z.mod_pow2_bits_low by lia.
    rewrite (Z.testbit_neg_r _ (n - 8)) by lia. apply xorb_nilpotent.
  - rewrite Z.mod_pow2_bits_high by lia.
    rewrite Z.shiftr_spec by lia. rewrite xorb_false_r. f_equal. lia.
Qed.

Lemma crc_step_lo (c : Z) :
  0 <= c < 65536 → Crc.step c (Crc.lo c) = c / 256.
Proof.
  intros Hc. unfold Crc.step, Crc.lo.
  rewrite u8_to_char, land_255. unfold wrap8. change (2 ^ 8) with 256.
  rewrite Z.mod_mod by lia. rewrite lxor_low_byte.
  rewrite wrap16_small by lia.
  apply crc_rounds_low_clear. lia.
Qed.

Lemma crc_step_hi (c : Z) :
  0 <= c < 65536 → Crc.step (c / 256) (Crc.hi c) = 0.
Proof.
  intros Hc. unfold Crc.step, Crc.hi.
  rewrite u8_to_char, land_255. unfold wrap8. change (2 ^ 8) with 256.
  rewrite Z.mod_mod by lia.
  rewrite Z.shiftr_div_pow2 by lia. change (2 ^ 8) with 256.
  rewrite (Z.mod_small (c / 256)) by lia.
  rewrite Z.lxor_nilpotent. reflexivity.
Qed.

(** C1.  For every byte sequence [b], the CRC16 of [b] followed by its own
    CRC16 (low byte, then high byte) is 0: the Modbus residue property of
    [calculateCRC16] (initial value 0xFFFF, polynomial 0xA001). *)
Theorem crc16_residue (b : QByteArray) :
  let crc := Crc.calculateCRC16 b in
  Crc.calculateCRC16 (b ++ [Crc.lo crc; Crc.hi crc]) = 0.
Proof.
  intros crc. pose proof (calculateCRC16_range b) as Hr. fold crc in Hr.
  unfold Crc.calculateCRC16. rewrite fold_left_app. cbn [fold_left].
  fold (Crc.calculateCRC16 b). fold crc.
  rewrite crc_step_lo by exact Hr. apply crc_step_hi. exact Hr.
Qed.

(** ** Byte arrays *)

Lemma at_in_range (a : QByteArray) (i : Z) :
  0 <= i < size a → ∃ b, a !! Z.to_nat i = Some b ∧ at_ a i = Some (u8 b).
Proof.
  intros Hi. unfold at_, size in *.
  destruct (Z.ltb_spec i 0) as [?|_]; [lia|].
  destruct (lookup_lt_is_Some_2 a (Z.to_nat i)) as [b Hb]; [lia|].
  exists b. rewrite Hb. done.
Qed.

Lemma at_is_Some (a : QByteArray) (i : Z) :
  0 <= i < size a → ∃ z, at_ a i = Some z.
Proof. intros Hi. destruct (at_in_range a i Hi) as (b & _ & ->). eauto. Qed.

Lemma at_out_of_range (a : QByteArray) (i : Z) : size a <= i → at_ a i = None.
Proof.
  intros Hi. unfold at_, size in *.
  destruct (Z.ltb_spec i 0) as [?|_]; [done|].
  rewrite lookup_ge_None_2 by lia. done.
Qed.

Lemma at_range (a : QByteArray) (i z : Z) : at_ a i = Some z → 0 <= z < 256.
Proof.
  unfold at_. destruct (i <? 0); [done|].
  destruct (a !! Z.to_nat i) as [b|]; [|done].
  cbn. intros [= <-]. apply u8_range.
Qed.

(** ** Register vectors *)

Lemma vec_set_Some (v : list Z) (i x : Z) :
  0 <= i < Z.of_nat (length v) → vec_set v i x = Some (<[Z.to_nat i := x]> v).
Proof.
  intros Hi. unfold vec_set.
  destruct (Z.leb_spec 0 i); [|lia].
  destruct (Z.ltb_spec i (Z.of_nat (length v))); [done|lia].
Qed.

Lemma vec_set_length (v v' : list Z) (i x : Z) :
  vec_set v i x = Some v' → length v' = length v.
Proof.
  unfold vec_set. destruct (_ && _); [|done].
  intros [= <-]. apply length_insert.
Qed.

Lemma vec_get_insert_eq (v : list Z) (i x : Z) :
  0 <= i < Z.of_nat (length v) → vec_get (<[Z.to_nat i := x]> v) i = Some x.
Proof.
  intros Hi. unfold vec_get.
  destruct (Z.ltb_spec i 0); [lia|].
  apply list_lookup_insert_eq. lia.
Qed.

Lemma vec_get_insert_ne (v : list Z) (i j x : Z) :
  0 <= i → i ≠ j → vec_get (<[Z.to_nat i := x]> v) j = vec_get v j.
Proof.
  intros Hi Hij. unfold vec_get.
  destruct (Z.ltb_spec j 0); [done|].
  apply list_lookup_insert_ne. lia.
Qed.

(** ** Modbus RTU slave *)

Lemma create_banks_sized (address : Z) : Slave.banks_sized (Slave.create address).
Proof. split; reflexivity. Qed.

(** C9.  For every address [a] inside the register bank ([a < 256]) and
    every value [v], [setHoldingRegister(a, v)] returns true, a following
    [getHoldingRegister(a)] returns [v], and the holding register at every
    other address reads as before. *)
Theorem setHoldingRegister_roundtrip (s : Slave.t) (a v : Z) :
  Slave.banks_sized s →
  0 <= a < Slave.MAX_REGISTERS →
  ∃ s', Slave.setHoldingRegister s a v = Some (s', true) ∧
        Slave.getHoldingRegister s' a = Some v ∧
        (∀ a', a' ≠ a →
           Slave.getHoldingRegister s' a' = Slave.getHoldingRegister s a') ∧
        Slave.banks_sized s'.
Proof.
  intros [Hh Hi] Ha.
  exists (Slave.set_holdingRegisters s
            (<[Z.to_nat a := v]> (Slave.m_holdingRegisters s))).
  unfold Slave.setHoldingRegister, Slave.getHoldingRegister.
  destruct (Z.geb_spec a Slave.MAX_REGISTERS) as [?|_]; [lia|].
  rewrite vec_set_Some by lia. cbn.
  repeat split.
  - apply vec_get_insert_eq. lia.
  - intros a' Hne. destruct (a' >=? Slave.MAX_REGISTERS); [done|].
    apply vec_get_insert_ne; lia.
  - cbn. rewrite length_insert. exact Hh.
  - exact Hi.
Qed.

Lemma setHoldingRegister_roundtrip_witness :
  ∃ s', Slave.setHoldingRegister (Slave.create 1) 3 1234 = Some (s', true) ∧
        Slave.getHoldingRegister s' 3 = Some 1234 ∧
        (∀ a', a' ≠ 3 →
           Slave.getHoldingRegister s' a' =
           Slave.getHoldingRegister (Slave.create 1) a') ∧
        Slave.banks_sized s'.
Proof.
  apply (setHoldingRegister_roundtrip (Slave.create 1) 3 1234).
  - split; reflexivity.
  - unfold Slave.MAX_REGISTERS. lia.
Defined.

(** A property of the loop state that every pass keeps holds when the loop
    is left. *)
Lemma for_loop_invariant {S : Type} (P : S → Prop) (body : Z → S → option S)
    (n : nat) :
  (∀ i s s', body i s = Some s' → P s → P s') →
  ∀ i s s', for_loop n i body s = Some s' → P s → P s'.
Proof.
  intros Hbody. induction n as [|n IH]; intros i s s'; cbn [for_loop].
  - intros [= <-]. done.
  - destruct (body i s) as [s1|] eqn:Hs1; [|done]. cbn [mbind option_bind].
    intros Hrest HP. eapply IH; [exact Hrest|]. eapply Hbody; eauto.
Qed.

(** Case analysis on the byte reads at the head of a handler. *)
Ltac read_bytes H :=
  repeat match type of H with
         | context [at_ ?a ?i ≫= _] =>
             destruct (at_ a i); [cbn [mbind option_bind] in H|done]
         end.

(** Serving a request keeps both banks at their size. *)
Lemma processRequest_banks_sized (s s' : Slave.t) (request : QByteArray) :
  Slave.processRequest s request = Some s' →
  Slave.banks_sized s → Slave.banks_sized s'.
Proof.
  unfold Slave.processRequest. intros Hp Hs.
  destruct (size request <? 6); [by injection Hp as <-|].
  destruct (Slave.verifyCRC request) as [[|]|]; cbn in Hp;
    [|by injection Hp as <-|done].
  destruct (at_ request 0) as [address|]; [|done]. cbn in Hp.
  destruct (negb (address =? _)); [by injection Hp as <-|].
  destruct (at_ request 1) as [functionCode|]; [|done]. cbn in Hp.
  destruct (functionCode =? 3).
  { unfold Slave.handleReadHoldingRegisters in Hp.
    read_bytes Hp.
    destruct (_ || _); [by injection Hp as <-|].
    destruct (for_loop _ _ _ _); [|done]. by injection Hp as <-. }
  destruct (functionCode =? 4).
  { unfold Slave.handleReadInputRegisters in Hp.
    read_bytes Hp.
    destruct (_ || _); [by injection Hp as <-|].
    destruct (for_loop _ _ _ _); [|done]. by injection Hp as <-. }
  destruct (functionCode =? 6).
  { unfold Slave.handleWriteSingleRegister in Hp.
    read_bytes Hp.
    destruct (_ >=? _); [by injection Hp as <-|].
    destruct (vec_set _ _ _) as [regs|] eqn:Hset; [|done].
    injection Hp as <-. destruct Hs as [Hh Hi]. split; [|exact Hi].
    cbn. by rewrite (vec_set_length _ _ _ _ Hset). }
  destruct (functionCode =? 16); [|by injection Hp as <-].
  unfold Slave.handleWriteMultipleRegisters in Hp.
  read_bytes Hp.
  destruct (_ || _); [by injection Hp as <-|].
  destruct (for_loop _ _ _ _) as [regs|] eqn:Hloop; [|done].
  injection Hp as <-. destruct Hs as [Hh Hi]. split; [|exact Hi]. cbn.
  apply (for_loop_invariant
           (λ r : list Z, Z.of_nat (length r) = Slave.MAX_REGISTERS)) in Hloop;
    [exact Hloop| |exact Hh].
  intros i r r' Hstore Hr. unfold Slave.storeRegister in Hstore.
  read_bytes Hstore.
  by rewrite (vec_set_length _ _ _ _ Hstore).
Qed.

Lemma verifyCRC_total (data : QByteArray) : ∃ ok, Slave.verifyCRC data = Some ok.
Proof.
  unfold Slave.verifyCRC.
  destruct (Z.ltb_spec (size data) 4) as [?|Hsz]; [eauto|].
  destruct (at_is_Some data (size data - 2)) as [lo ->]; [lia|].
  destruct (at_is_Some data (size data - 1)) as [hi ->]; [lia|].
  cbn. eauto.
Qed.

(** C4.  A frame whose CRC check fails, and a frame whose unit-address byte
    differs from the slave's configured address (CRC-valid or not), is
    discarded by [processRequest]: the slave is left exactly as it was, so
    nothing is transmitted and no register changes.  The frame-gap timer's
    slot then only clears the receive buffer.  The witness below is the
    instance of a slave at address 5 receiving a well-formed frame for
    unit 1. *)
Theorem slave_discards_bad_crc_and_foreign_frames
    (s : Slave.t) (request : QByteArray) :
  Slave.verifyCRC request = Some false ∨
  (∃ a, at_ request 0 = Some a ∧ a ≠ Slave.m_slaveAddress s) →
  Slave.processRequest s request = Some s ∧
  (Slave.m_receiveBuffer s = request →
   ∃ s', Slave.onFrameTimeout s = Some s' ∧
         Slave.written s' = Slave.written s ∧
         Slave.emitted s' = Slave.emitted s ∧
         Slave.m_holdingRegisters s' = Slave.m_holdingRegisters s ∧
         Slave.m_inputRegisters s' = Slave.m_inputRegisters s ∧
         Slave.m_receiveBuffer s' = []).
Proof.
  intros H.
  assert (Hp : Slave.processRequest s request = Some s).
  { unfold Slave.processRequest.
    destruct (size request <? 6); [done|].
    destruct H as [-> | (a & Ha & Hne)]; [done|].
    destruct (verifyCRC_total request) as [ok ->]. cbn.
    destruct ok; [|done]. cbn. rewrite Ha. cbn.
    destruct (Z.eqb_spec a (Slave.m_slaveAddress s)); [done|]. done. }
  split; [exact Hp|].
  intros Hbuf. unfold Slave.onFrameTimeout. rewrite Hbuf, Hp.
  destruct (size request >=? 4); cbn; eauto 10.
Qed.

Lemma slave_discards_bad_crc_and_foreign_frames_witness :
  let s := Slave.create 5 in
  let request := bytes [0x01; 0x06; 0x00; 0x00; 0x04; 0xD2; 0x0B; 0x57] in
  Slave.verifyCRC request = Some true ∧
  Slave.processRequest s request = Some s ∧
  (Slave.m_receiveBuffer s = request →
   ∃ s', Slave.onFrameTimeout s = Some s' ∧
         Slave.written s' = Slave.written s ∧
         Slave.emitted s' = Slave.emitted s ∧
         Slave.m_holdingRegisters s' = Slave.m_holdingRegisters s ∧
         Slave.m_inputRegisters s' = Slave.m_inputRegisters s ∧
         Slave.m_receiveBuffer s' = []).
Proof.
  intros s request. split; [vm_compute; reflexivity|].
  apply (slave_discards_bad_crc_and_foreign_frames s request).
  right. exists 1. split; [vm_compute; reflexivity|].
  unfold s. cbn. lia.
Defined.

(** Every rejection by [handleWriteMultipleRegisters] goes through the one
    [sendException] call of the function, which carries
    [MODBUS_EXCEPTION_ILLEGAL_DATA_ADDRESS]; the byte-count test is one of the
    four disjuncts guarding it. *)
Lemma handleWriteMultipleRegisters_byte_count_mismatch
    (s : Slave.t) (request : QByteArray) (b2 b3 b4 b5 byteCount : Z) :
  at_ request 2 = Some b2 → at_ request 3 = Some b3 →
  at_ request 4 = Some b4 → at_ request 5 = Some b5 →
  at_ request 6 = Some byteCount →
  byteCount ≠ u16 b4 b5 * 2 →
  Slave.handleWriteMultipleRegisters s request =
    Some (Slave.sendException s 0x10 Slave.MODBUS_EXCEPTION_ILLEGAL_DATA_ADDRESS).
Proof.
  intros H2 H3 H4 H5 H6 Hne. unfold Slave.handleWriteMultipleRegisters.
  rewrite H2, H3, H4, H5, H6. cbn.
  destruct (Z.eqb_spec byteCount (u16 b4 b5 * 2)) as [?|_]; [done|].
  cbn. rewrite !orb_true_r. reflexivity.
Qed.

(** C3.  The code at a CRC-valid write-multiple-registers request for
    unit 1 with start 0, register count 1 and byte-count field 3 (not 2): the
    slave answers [01 90 02 crc crc], an exception frame whose code is 0x02
    (illegal data address) where the claim asks for 0x03 (illegal data
    value); no register is modified. *)
Theorem write_multiple_byte_count_mismatch_sends_0x02 :
  let s := Slave.create 1 in
  let request :=
    bytes [0x01; 0x10; 0x00; 0x00; 0x00; 0x01; 0x03; 0x00; 0x2A; 0x76; 0x4F] in
  Slave.verifyCRC request = Some true ∧
  ∃ s', Slave.processRequest s request = Some s' ∧
        Slave.written s' = [bytes [0x01; 0x90; 0x02; 0xCD; 0xC1]] ∧
        Slave.m_holdingRegisters s' = Slave.m_holdingRegisters s.
Proof.
  cbv zeta. split; [vm_compute; reflexivity|].
  eexists. split; [vm_compute; reflexivity|].
  split; vm_compute; reflexivity.
Qed.

Lemma vec_get_is_Some (v : list Z) (i : Z) :
  0 <= i < Z.of_nat (length v) → ∃ x, vec_get v i = Some x.
Proof.
  intros Hi. unfold vec_get. destruct (Z.ltb_spec i 0); [lia|].
  destruct (lookup_lt_is_Some_2 v (Z.to_nat i)) as [x Hx]; [lia|]. eauto.
Qed.

Lemma appendRegister_loop_total (regs : list Z) (startAddr : Z) (n : nat) :
  ∀ (i : Z) (response : QByteArray),
    0 <= startAddr + i →
    startAddr + i + Z.of_nat n <= Z.of_nat (length regs) →
    ∃ r, for_loop n i (Slave.appendRegister regs startAddr) response = Some r.
Proof.
  induction n as [|n IH]; intros i response Hlo Hhi; cbn [for_loop]; [eauto|].
  destruct (vec_get_is_Some regs (startAddr + i)) as [x Hx]; [lia|].
  assert (Slave.appendRegister regs startAddr i response =
          Some (response ++ [to_char (Z.land (Z.shiftr x 8) 0xFF);
                             to_char (Z.land x 0xFF)])) as ->
    by (unfold Slave.appendRegister; rewrite Hx; reflexivity).
  cbn [mbind option_bind]. apply IH; lia.
Qed.

Lemma u16_range (hi lo : Z) : 0 <= u16 hi lo < 65536.
Proof. apply wrap16_range. Qed.

(** The handlers of function codes 0x03, 0x04 and 0x06 read the request at
    indices 2 to 5 only, which the length check of [processRequest] covers,
    and the register banks at checked addresses only. *)
Lemma slave_fixed_length_handlers_in_range (s : Slave.t) (request : QByteArray) :
  Slave.banks_sized s →
  6 <= size request →
  is_Some (Slave.handleReadHoldingRegisters s request) ∧
  is_Some (Slave.handleReadInputRegisters s request) ∧
  is_Some (Slave.handleWriteSingleRegister s request).
Proof.
  intros [Hh Hi] Hsz. unfold Slave.MAX_REGISTERS in *.
  destruct (at_is_Some request 2) as [b2 H2]; [lia|].
  destruct (at_is_Some request 3) as [b3 H3]; [lia|].
  destruct (at_is_Some request 4) as [b4 H4]; [lia|].
  destruct (at_is_Some request 5) as [b5 H5]; [lia|].
  pose proof (u16_range b2 b3) as Ha. pose proof (u16_range b4 b5) as Hc.
  unfold Slave.handleReadHoldingRegisters, Slave.handleReadInputRegisters,
    Slave.handleWriteSingleRegister, Slave.MAX_REGISTERS.
  rewrite H2, H3, H4, H5. cbn [mbind option_bind].
  split; [|split].
  - destruct (_ || _) eqn:Hg; [done|].
    apply orb_false_iff in Hg as [Hg Hg3]. apply orb_false_iff in Hg as [Hg1 Hg2].
    rewrite Z.gtb_ltb in Hg3. apply Z.ltb_ge in Hg3.
    destruct (appendRegister_loop_total (Slave.m_holdingRegisters s)
                (u16 b2 b3) (Z.to_nat (u16 b4 b5)) 0
                [to_char (Slave.m_slaveAddress s); to_char 3;
                 to_char (u16 b4 b5 * 2)]) as [r ->]; [lia|lia|done].
  - destruct (_ || _) eqn:Hg; [done|].
    apply orb_false_iff in Hg as [Hg Hg3]. apply orb_false_iff in Hg as [Hg1 Hg2].
    rewrite Z.gtb_ltb in Hg3. apply Z.ltb_ge in Hg3.
    destruct (appendRegister_loop_total (Slave.m_inputRegisters s)
                (u16 b2 b3) (Z.to_nat (u16 b4 b5)) 0
                [to_char (Slave.m_slaveAddress s); to_char 4;
                 to_char (u16 b4 b5 * 2)]) as [r ->]; [lia|lia|done].
  - destruct (Z.geb_spec (u16 b2 b3) 256); [done|].
    rewrite vec_set_Some by lia. done.
Qed.

(** C10.  The code at a CRC-valid 6-byte frame for unit 1 carrying function
    code 0x10: the frame passes the length, CRC and address checks, is
    dispatched to [handleWriteMultipleRegisters], and that handler reads the
    byte-count field at index 6, which is not below the frame's length. *)
Theorem write_multiple_reads_past_six_byte_frame :
  let s := Slave.create 1 in
  let request := bytes [0x01; 0x10; 0x00; 0x00; 0x00; 0x1D] in
  size request = 6 ∧
  Slave.verifyCRC request = Some true ∧
  at_ request 0 = Some (Slave.m_slaveAddress s) ∧
  at_ request 1 = Some 0x10 ∧
  at_ request 6 = None ∧
  Slave.handleWriteMultipleRegisters s request = None ∧
  Slave.processRequest s request = None.
Proof.
  cbv zeta. repeat split; vm_compute; reflexivity.
Qed.

(** ** Modbus RTU master *)

(** Closes [Rtu.wire_kept] goals between states with the same buffer. *)
Ltac same_wire :=
  repeat split; cbn; try done; try (by exists []; rewrite app_nil_r).

Lemma rtu_wire_kept_refl (m : Rtu.t) : Rtu.wire_kept m m.
Proof. same_wire. Qed.

Lemma rtu_wire_kept_trans (m1 m2 m3 : Rtu.t) :
  Rtu.wire_kept m1 m2 → Rtu.wire_kept m2 m3 → Rtu.wire_kept m1 m3.
Proof.
  unfold Rtu.wire_kept. intros (?&?&?&more1&?) (?&?&?&more2&?).
  repeat split; try congruence.
  exists (more1 ++ more2). rewrite app_assoc. congruence.
Qed.

Lemma rtu_deliver_kept (m : Rtu.t) (e : Event) : Rtu.wire_kept m (Rtu.deliver m e).
Proof.
  destruct e as [data|]; cbn.
  - unfold Rtu.onSerialDataReceived. destruct (negb _); [same_wire|].
    repeat split. by exists data.
  - destruct (Rtu.timerActive m); [|same_wire].
    unfold Rtu.onResponseTimeout. cbn.
    destruct (Rtu.m_waitingForResponse m); same_wire.
Qed.

Lemma rtu_processEvents_kept (batch : list Event) (m : Rtu.t) :
  Rtu.wire_kept m (Rtu.processEvents m batch).
Proof.
  unfold Rtu.processEvents. revert m.
  induction batch as [|e batch IH]; intros m; cbn; [apply rtu_wire_kept_refl|].
  eapply rtu_wire_kept_trans; [apply rtu_deliver_kept|apply IH].
Qed.

Lemma rtu_validateResponse_total (m : Rtu.t) (response : QByteArray) :
  ∃ ok m', Rtu.validateResponse m response = Some (ok, m') ∧
           Rtu.wire_kept m m'.
Proof.
  unfold Rtu.validateResponse.
  destruct (Z.ltb_spec (size response) 5) as [?|Hsz];
    [eexists _, _; split; [reflexivity|same_wire]|].
  destruct (at_is_Some response 0) as [b0 ->]; [lia|]. cbn.
  destruct (negb (b0 =? _)); [eexists _, _; split; [reflexivity|same_wire]|].
  destruct (at_is_Some response (size response - 2)) as [lo ->]; [lia|].
  destruct (at_is_Some response (size response - 1)) as [hi ->]; [lia|].
  cbn. destruct (negb (_ =? _)); [eexists _, _; split; [reflexivity|same_wire]|].
  destruct (at_is_Some response 1) as [fc ->]; [lia|]. cbn.
  destruct (negb (Z.land fc 128 =? 0));
    [|eexists _, _; split; [reflexivity|same_wire]].
  destruct (at_is_Some response 2) as [ec ->]; [lia|]. cbn.
  eexists _, _; split; [reflexivity|same_wire].
Qed.

Lemma rtu_waitPass_total (m : Rtu.t) (batch : list Event) :
  ∃ m' brk, Rtu.waitPass m batch = Some (m', brk) ∧ Rtu.wire_kept m m'.
Proof.
  unfold Rtu.waitPass.
  pose proof (rtu_processEvents_kept batch m) as Hk.
  destruct (size _ >=? 5); [|eauto].
  destruct (rtu_validateResponse_total (Rtu.processEvents m batch)
              (Rtu.m_receiveBuffer (Rtu.processEvents m batch)))
    as (ok & m' & -> & Hk').
  cbn. destruct ok; eexists _, _; (split; [reflexivity|]).
  - eapply rtu_wire_kept_trans; [exact Hk|].
    eapply rtu_wire_kept_trans; [exact Hk'|same_wire].
  - eapply rtu_wire_kept_trans; [exact Hk|exact Hk'].
Qed.

Lemma rtu_waitLoop_total (sched : Schedule) (m : Rtu.t) :
  ∃ m', Rtu.waitLoop m sched = Some m' ∧ Rtu.wire_kept m m'.
Proof.
  revert m. induction sched as [|batch sched IH]; intros m; cbn.
  - destruct (_ && _); [|eauto using rtu_wire_kept_refl].
    destruct (rtu_waitPass_total m [timerExpired]) as (m' & brk & -> & Hk).
    cbn. eauto.
  - destruct (_ && _); [|eauto using rtu_wire_kept_refl].
    destruct (rtu_waitPass_total m batch) as (m' & brk & -> & Hk).
    cbn. destruct brk; [eauto|].
    destruct (IH m') as (m'' & -> & Hk'). eauto using rtu_wire_kept_trans.
Qed.

(** [sendRequest] on an open port always returns, has handed exactly the
    request to the port, and returns whatever the receive buffer holds. *)
Lemma rtu_sendRequest_total (m : Rtu.t) (request : QByteArray) (sched : Schedule) :
  Rtu.isConnected m = true →
  ∃ m', Rtu.sendRequest m request sched = Some (m', Rtu.m_receiveBuffer m') ∧
        Rtu.written m' = Rtu.written m ++ [request] ∧
        Rtu.isOpen m' = true ∧
        Rtu.m_slaveAddress m' = Rtu.m_slaveAddress m.
Proof.
  intros Hc. unfold Rtu.sendRequest. rewrite Hc. cbn [negb].
  match goal with |- context [Rtu.waitLoop ?m0 sched] =>
    destruct (rtu_waitLoop_total sched m0) as (m' & -> & Hw & Ho & Ha & _) end.
  exists (Rtu.set_timerActive (Rtu.set_waiting m' false) false).
  split; [reflexivity|]. cbn in *.
  unfold Rtu.isConnected in Hc. rewrite Hw, Ho, Ha, Hc. done.
Qed.

(** Whatever the bytes are: once a byte has arrived during the wait,
    [writeSingleRegister] reports success, validated response or not. *)
Lemma rtu_write_reports_any_received_byte
    (m : Rtu.t) (address value : Z) (data : QByteArray)
    (batch : list Event) (sched : Schedule) :
  Rtu.isConnected m = true →
  data ≠ [] →
  ∃ m', Rtu.writeSingleRegister m address value
          ((readyRead data :: batch) :: sched) = Some (m', true).
Proof.
  intros Hc Hdata. unfold Rtu.writeSingleRegister, Rtu.sendRequest.
  rewrite Hc. cbn [negb].
  set (request := Rtu.buildRequest m 6 (Rtu.twoWords address value)).
  set (m0 := Rtu.set_timerActive
               (Rtu.write (Rtu.set_waiting (Rtu.set_receiveBuffer m []) true)
                  request) true).
  set (m1 := Rtu.set_receiveBuffer m0 data).
  assert (Hloop : ∃ m2, Rtu.waitLoop m0 ((readyRead data :: batch) :: sched)
                        = Some m2 ∧ Rtu.wire_kept m1 m2).
  { cbn [Rtu.waitLoop]. change (Rtu.m_waitingForResponse m0) with true.
    change (Rtu.timerActive m0) with true. cbn [andb].
    change (Rtu.waitPass m0 (readyRead data :: batch))
      with (Rtu.waitPass m1 batch).
    destruct (rtu_waitPass_total m1 batch) as (m2 & brk & -> & Hk).
    cbn [mbind option_bind]. destruct brk; [eauto|].
    destruct (rtu_waitLoop_total sched m2) as (m3 & -> & Hk').
    eauto using rtu_wire_kept_trans. }
  destruct Hloop as (m2 & -> & _ & _ & _ & more & Hbuf).
  cbn [mbind option_bind]. eexists. f_equal. f_equal.
  cbn [Rtu.m_receiveBuffer Rtu.set_timerActive Rtu.set_waiting].
  rewrite Hbuf. cbn [Rtu.m_receiveBuffer m1 Rtu.set_receiveBuffer].
  destruct data as [|b data]; [done|]. reflexivity.
Qed.

Lemma rtu_buildRequest_frame (m : Rtu.t) (functionCode : Z) (data : QByteArray) :
  let body := to_char (Rtu.m_slaveAddress m) :: to_char functionCode :: data in
  Rtu.buildRequest m functionCode data =
    body ++ [Crc.lo (Crc.calculateCRC16 body); Crc.hi (Crc.calculateCRC16 body)].
Proof.
  cbv zeta. unfold Rtu.buildRequest, Rtu.calculateCRC16, Crc.lo, Crc.hi.
  cbn [app]. rewrite <- app_assoc. reflexivity.
Qed.

(** C7.  [buildRequest] yields the unit address, the function code, the
    payload and the CRC16 of those bytes, low byte first; and
    [readHoldingRegisters(0x0000, 10)] on a connected master whose slave
    address is 1 always returns and has transmitted exactly
    01 03 00 00 00 0A followed by the CRC16 of these six bytes, low byte
    first (C5 CD). *)
Theorem rtu_request_frame
    (m : Rtu.t) (functionCode : Z) (data : QByteArray) (sched : Schedule) :
  (let body := to_char (Rtu.m_slaveAddress m) :: to_char functionCode :: data in
   Rtu.buildRequest m functionCode data =
     body ++ [Crc.lo (Crc.calculateCRC16 body); Crc.hi (Crc.calculateCRC16 body)]) ∧
  (Rtu.isConnected m = true → Rtu.m_slaveAddress m = 1 →
   let six := bytes [0x01; 0x03; 0x00; 0x00; 0x00; 0x0A] in
   ∃ m' registers,
     Rtu.readHoldingRegisters m 0x0000 10 sched = Some (m', registers) ∧
     Rtu.written m' =
       Rtu.written m ++
         [six ++ [Crc.lo (Crc.calculateCRC16 six); Crc.hi (Crc.calculateCRC16 six)]] ∧
     six ++ [Crc.lo (Crc.calculateCRC16 six); Crc.hi (Crc.calculateCRC16 six)] =
       bytes [0x01; 0x03; 0x00; 0x00; 0x00; 0x0A; 0xC5; 0xCD]).
Proof.
  split; [apply rtu_buildRequest_frame|].
  intros Hc Ha six. unfold Rtu.readHoldingRegisters. rewrite Hc. cbn [negb orb Z.eqb Z.gtb Z.compare Pos.compare Pos.compare_cont].
  destruct (rtu_sendRequest_total m
              (Rtu.buildRequest m 3 (Rtu.twoWords 0 10)) sched Hc)
    as (m' & -> & Hw & _ & _).
  assert (Hreq : Rtu.buildRequest m 3 (Rtu.twoWords 0 10) =
                 six ++ [Crc.lo (Crc.calculateCRC16 six);
                         Crc.hi (Crc.calculateCRC16 six)]).
  { rewrite rtu_buildRequest_frame, Ha. reflexivity. }
  rewrite Hreq in Hw. cbn.
  destruct ((size (Rtu.m_receiveBuffer m') =? 0) ||
            (size (Rtu.m_receiveBuffer m') <? 3)) eqn:Hsz.
  - eexists _, _. split; [reflexivity|]. split; [exact Hw|]. vm_compute. reflexivity.
  - apply orb_false_iff in Hsz as [_ Hsz]. apply Z.ltb_ge in Hsz.
    destruct (at_is_Some (Rtu.m_receiveBuffer m') 2) as [bc ->]; [lia|].
    cbn. eexists _, _. split; [reflexivity|]. split; [exact Hw|].
    vm_compute. reflexivity.
Qed.

Lemma rtu_request_frame_witness :
  let m := Rtu.connected 1 in
  (let body := to_char (Rtu.m_slaveAddress m) :: to_char 0x03 :: Rtu.twoWords 0 10 in
   Rtu.buildRequest m 0x03 (Rtu.twoWords 0 10) =
     body ++ [Crc.lo (Crc.calculateCRC16 body); Crc.hi (Crc.calculateCRC16 body)]) ∧
  (let six := bytes [0x01; 0x03; 0x00; 0x00; 0x00; 0x0A] in
   ∃ m' registers,
     Rtu.readHoldingRegisters m 0x0000 10 [] = Some (m', registers) ∧
     Rtu.written m' =
       Rtu.written m ++
         [six ++ [Crc.lo (Crc.calculateCRC16 six); Crc.hi (Crc.calculateCRC16 six)]] ∧
     six ++ [Crc.lo (Crc.calculateCRC16 six); Crc.hi (Crc.calculateCRC16 six)] =
       bytes [0x01; 0x03; 0x00; 0x00; 0x00; 0x0A; 0xC5; 0xCD]).
Proof.
  intros m.
  destruct (rtu_request_frame m 0x03 (Rtu.twoWords 0 10) []) as [H1 H2].
  split; [exact H1|]. apply H2; reflexivity.
Defined.

(** C2.  The code at three exchanges in which no response ever passes
    [validateResponse] and the response timer expires: [sendRequest] returns
    the receive buffer as it stands, so
    - [readHoldingRegisters] returns the register 0x1234 decoded from a
      response cut off before its CRC (01 03 02 12 34),
    - [writeSingleRegister] returns true after a single stray byte FF,
    - [writeSingleRegister] returns true after a CRC-valid exception
      response (01 86 02 C3 A1),
    where the claim asks for an empty result and for false. *)
Theorem rtu_timeout_returns_unvalidated_buffer :
  let m := Rtu.connected 1 in
  let cut := bytes [0x01; 0x03; 0x02; 0x12; 0x34] in
  let stray := bytes [0xFF] in
  let exception := bytes [0x01; 0x86; 0x02; 0xC3; 0xA1] in
  (∃ m', Rtu.validateResponse m cut = Some (false, m')) ∧
  (∃ m', Rtu.validateResponse m stray = Some (false, m')) ∧
  (∃ m', Rtu.validateResponse m exception = Some (false, m')) ∧
  (∃ m', Rtu.readHoldingRegisters m 0 1 [[readyRead cut]] = Some (m', [0x1234]) ∧
         Rtu.errors m' =
           [Rtu.CrcCheckFailed; Rtu.ResponseTimeout; Rtu.CrcCheckFailed]) ∧
  (∃ m', Rtu.writeSingleRegister m 0 1 [[readyRead stray]] = Some (m', true) ∧
         Rtu.errors m' = [Rtu.ResponseTimeout]) ∧
  (∃ m', Rtu.writeSingleRegister m 0 1 [[readyRead exception]] = Some (m', true) ∧
         Rtu.errors m' =
           [Rtu.ModbusException 2; Rtu.ResponseTimeout; Rtu.ModbusException 2]).
Proof.
  cbv zeta.
  split; [eexists; vm_compute; reflexivity|].
  split; [eexists; vm_compute; reflexivity|].
  split; [eexists; vm_compute; reflexivity|].
  split; [eexists; vm_compute; split; reflexivity|].
  split; eexists; vm_compute; split; reflexivity.
Qed.

(** ** Modbus TCP master *)

Lemma size_cons (b : byte) (a : QByteArray) : size (b :: a) = 1 + size a.
Proof. unfold size. cbn [length]. lia. Qed.

Lemma size_nonneg (a : QByteArray) : 0 <= size a.
Proof. unfold size. lia. Qed.

Lemma at_cons_0 (b : byte) (a : QByteArray) : at_ (b :: a) 0 = Some (u8 b).
Proof. reflexivity. Qed.

Lemma at_cons_pos (b : byte) (a : QByteArray) (i : Z) :
  0 < i → at_ (b :: a) i = at_ a (i - 1).
Proof.
  intros Hi. unfold at_.
  destruct (Z.ltb_spec i 0); [lia|]. destruct (Z.ltb_spec (i - 1) 0); [lia|].
  replace (Z.to_nat i) with (S (Z.to_nat (i - 1))) by lia. reflexivity.
Qed.

(** The header fields of a buffer that holds at least an MBAP header and a
    function code. *)
Lemma tcp_header_fields
    (t_hi t_lo p_hi p_lo l_hi l_lo unit fc : byte) (payload : QByteArray) :
  let response :=
    t_hi :: t_lo :: p_hi :: p_lo :: l_hi :: l_lo :: unit :: fc :: payload in
  at_ response 0 = Some (u8 t_hi) ∧ at_ response 1 = Some (u8 t_lo) ∧
  at_ response 2 = Some (u8 p_hi) ∧ at_ response 3 = Some (u8 p_lo) ∧
  at_ response 4 = Some (u8 l_hi) ∧ at_ response 5 = Some (u8 l_lo) ∧
  at_ response 6 = Some (u8 unit) ∧ at_ response 7 = Some (u8 fc) ∧
  (size response <? 8) = false.
Proof.
  cbv zeta. do 8 (split; [reflexivity|]).
  rewrite !size_cons. pose proof (size_nonneg payload).
  apply Z.ltb_ge. lia.
Qed.

Lemma tcp_validateResponse_mismatch
    (m : Tcp.t) (expected : Z)
    (t_hi t_lo p_hi p_lo l_hi l_lo unit fc : byte) (payload : QByteArray) :
  u16 (u8 t_hi) (u8 t_lo) ≠ expected →
  Tcp.validateResponse m
    (t_hi :: t_lo :: p_hi :: p_lo :: l_hi :: l_lo :: unit :: fc :: payload)
    expected = Some (false, m).
Proof.
  intros Hne. unfold Tcp.validateResponse.
  destruct (tcp_header_fields t_hi t_lo p_hi p_lo l_hi l_lo unit fc payload)
    as (H0 & H1 & _ & _ & _ & _ & _ & _ & Hsz).
  cbv zeta in *. rewrite Hsz, H0, H1. cbn.
  destruct (Z.eqb_spec (u16 (u8 t_hi) (u8 t_lo)) expected); done.
Qed.

Lemma tcp_validateResponse_match
    (m : Tcp.t) (expected : Z)
    (t_hi t_lo p_hi p_lo l_hi l_lo unit fc : byte) (payload : QByteArray) :
  u16 (u8 t_hi) (u8 t_lo) = expected →
  u8 p_hi = 0 → u8 p_lo = 0 →
  u8 unit = Tcp.m_unitId m →
  Z.land (u8 fc) 0x80 = 0 →
  Tcp.validateResponse m
    (t_hi :: t_lo :: p_hi :: p_lo :: l_hi :: l_lo :: unit :: fc :: payload)
    expected = Some (true, m).
Proof.
  intros Ht Hp2 Hp3 Hu Hfc. unfold Tcp.validateResponse.
  destruct (tcp_header_fields t_hi t_lo p_hi p_lo l_hi l_lo unit fc payload)
    as (H0 & H1 & H2 & H3 & _ & _ & H6 & H7 & Hsz).
  cbv zeta in *. rewrite Hsz, H0, H1. cbn.
  rewrite Ht, Z.eqb_refl. cbn.
  rewrite H2. cbn. rewrite Hp2. cbn.
  rewrite H3. cbn. rewrite Hp3. cbn.
  rewrite H6. cbn. rewrite Hu, Z.eqb_refl. cbn.
  rewrite H7. cbn. rewrite Hfc. reflexivity.
Qed.

Lemma tcp_waitPass_accepts
    (m : Tcp.t) (expected : Z)
    (t_hi t_lo p_hi p_lo l_hi l_lo unit fc : byte) (payload : QByteArray) :
  let response :=
    t_hi :: t_lo :: p_hi :: p_lo :: l_hi :: l_lo :: unit :: fc :: payload in
  Tcp.m_waitingForResponse m = true →
  Tcp.m_receiveBuffer m = [] →
  u16 (u8 t_hi) (u8 t_lo) = expected →
  u8 p_hi = 0 → u8 p_lo = 0 →
  u8 unit = Tcp.m_unitId m →
  Z.land (u8 fc) 0x80 = 0 →
  size response >= 6 + u16 (u8 l_hi) (u8 l_lo) →
  Tcp.waitPass m expected [readyRead response] =
    Some (Tcp.set_timerActive
            (Tcp.set_waiting (Tcp.set_receiveBuffer m response) false) false,
          true).
Proof.
  intros response Hw Hb Ht Hp2 Hp3 Hu Hfc Hlen.
  destruct (tcp_header_fields t_hi t_lo p_hi p_lo l_hi l_lo unit fc payload)
    as (_ & _ & _ & _ & H4 & H5 & _ & _ & Hsz).
  fold response in H4, H5, Hsz. apply Z.ltb_ge in Hsz.
  unfold Tcp.waitPass, Tcp.processEvents. cbn [fold_left Tcp.deliver].
  unfold Tcp.onTcpDataReceived. rewrite Hw, Hb. cbn [negb app].
  cbn [Tcp.m_receiveBuffer Tcp.set_receiveBuffer].
  destruct (Z.geb_spec (size response) 8); [|lia].
  rewrite H4, H5. cbn [mbind option_bind].
  destruct (Z.geb_spec (size response) (6 + u16 (u8 l_hi) (u8 l_lo))); [|lia].
  unfold response.
  rewrite tcp_validateResponse_match by (cbn; assumption).
  reflexivity.
Qed.

(** Decoding the two bytes a 16-bit value was split into gives it back. *)
Lemma u16_split (t : Z) :
  0 <= t < 65536 →
  u16 (u8 (to_char (Z.land (Z.shiftr t 8) 0xFF))) (u8 (to_char (Z.land t 0xFF))) = t.
Proof.
  intros Ht. rewrite !u8_to_char, !land_255. unfold wrap8. change (2 ^ 8) with 256.
  rewrite !Z.mod_mod by lia.
  rewrite Z.shiftr_div_pow2 by lia. change (2 ^ 8) with 256.
  rewrite (Z.mod_small (t / 256)) by lia.
  unfold u16.
  assert (Hdisj : Z.land (Z.shiftl (t / 256) 8) (t mod 256) = 0).
  { apply Z.bits_inj'. intros n Hn. rewrite Z.land_spec, Z.bits_0.
    destruct (Z.ltb_spec n 8).
    - rewrite Z.shiftl_spec_low by lia. reflexivity.
    - change 256 with (2 ^ 8). rewrite Z.mod_pow2_bits_high by lia.
      apply andb_false_r. }
  rewrite <- Z.lxor_lor, <- Z.add_nocarry_lxor by exact Hdisj.
  rewrite Z.shiftl_mul_pow2 by lia. change (2 ^ 8) with 256.
  rewrite wrap16_small by lia. lia.
Qed.

(** The id [sendRequest] expects is the id [buildRequest] has just put into
    the first two bytes of the request, also across the wrap from 0xFFFF. *)
Lemma tcp_expected_id_is_sent_id (m : Tcp.t) (functionCode : Z) (data : QByteArray) :
  0 <= Tcp.m_transactionId m < 65536 →
  let '(m', request) := Tcp.buildRequest m functionCode data in
  wrap16 (Tcp.m_transactionId m' - 1) = Tcp.m_transactionId m ∧
  ∃ b0 b1, at_ request 0 = Some b0 ∧ at_ request 1 = Some b1 ∧
           u16 b0 b1 = Tcp.m_transactionId m.
Proof.
  intros Ht. unfold Tcp.buildRequest. cbn [Tcp.m_transactionId Tcp.set_transactionId].
  split.
  - unfold wrap16. lia.
  - eexists _, _. split; [reflexivity|]. split; [reflexivity|].
    apply u16_split. exact Ht.
Qed.

(** What [validateResponse] decides on the buffer it is given.  A buffered
    response whose transaction id differs from the expected
    one is not accepted by [validateResponse], and the pass of the wait loop
    that sees it does not leave the loop: waiting goes on with the next pass.
    A response whose transaction id matches, whose protocol id is 0, whose
    unit id is the master's and whose function code has the high bit clear is
    accepted; once the buffer holds it in full (the length the header
    announces), [sendRequest] leaves the wait loop in that pass and returns
    it, no timeout being recorded. *)
Theorem tcp_response_validation
    (m : Tcp.t) (expected : Z)
    (t_hi t_lo p_hi p_lo l_hi l_lo unit fc : byte) (payload : QByteArray) :
  let response :=
    t_hi :: t_lo :: p_hi :: p_lo :: l_hi :: l_lo :: unit :: fc :: payload in
  (u16 (u8 t_hi) (u8 t_lo) ≠ expected →
   Tcp.validateResponse m response expected = Some (false, m) ∧
   ∀ batch sched,
     Tcp.m_receiveBuffer (Tcp.processEvents m batch) = response →
     Tcp.waitPass m expected batch = Some (Tcp.processEvents m batch, false) ∧
     (Tcp.m_waitingForResponse m = true → Tcp.timerActive m = true →
      Tcp.waitLoop m expected (batch :: sched) =
        Tcp.waitLoop (Tcp.processEvents m batch) expected sched)) ∧
  (u16 (u8 t_hi) (u8 t_lo) = expected →
   u8 p_hi = 0 → u8 p_lo = 0 →
   u8 unit = Tcp.m_unitId m →
   Z.land (u8 fc) 0x80 = 0 →
   Tcp.validateResponse m response expected = Some (true, m) ∧
   ∀ request sched,
     Tcp.isConnected m = true →
     expected = wrap16 (Tcp.m_transactionId m - 1) →
     size response >= 6 + u16 (u8 l_hi) (u8 l_lo) →
     ∃ m', Tcp.sendRequest m request ([readyRead response] :: sched) =
             Some (m', response) ∧
           Tcp.errors m' = Tcp.errors m ∧
           Tcp.m_waitingForResponse m' = false ∧
           Tcp.timerActive m' = false).
Proof.
  intros response.
  destruct (tcp_header_fields t_hi t_lo p_hi p_lo l_hi l_lo unit fc payload)
    as (_ & _ & _ & _ & H4 & H5 & _ & _ & Hsz).
  fold response in H4, H5, Hsz. apply Z.ltb_ge in Hsz.
  split.
  - intros Hne.
    pose proof (tcp_validateResponse_mismatch m expected
                  t_hi t_lo p_hi p_lo l_hi l_lo unit fc payload Hne) as Hv.
    fold response in Hv. split; [exact Hv|].
    intros batch sched Hbuf.
    assert (Hpass : Tcp.waitPass m expected batch =
                    Some (Tcp.processEvents m batch, false)).
    { unfold Tcp.waitPass. rewrite Hbuf.
      destruct (Z.geb_spec (size response) 8); [|lia].
      rewrite H4, H5. cbn.
      destruct (size response >=? 6 + u16 (u8 l_hi) (u8 l_lo)); [|done].
      pose proof (tcp_validateResponse_mismatch (Tcp.processEvents m batch)
                    expected t_hi t_lo p_hi p_lo l_hi l_lo unit fc payload Hne)
        as Hv'.
      fold response in Hv'. rewrite Hv'. reflexivity. }
    split; [exact Hpass|].
    intros Hw Ha. cbn [Tcp.waitLoop]. rewrite Hw, Ha, Hpass. reflexivity.
  - intros Ht Hp2 Hp3 Hu Hfc.
    split; [apply tcp_validateResponse_match; assumption|].
    intros request sched Hc Hexp Hlen.
    unfold Tcp.sendRequest. rewrite Hc. cbn [negb].
    cbn [Tcp.m_transactionId Tcp.set_waiting Tcp.set_receiveBuffer].
    rewrite <- Hexp. cbn [Tcp.waitLoop].
    cbn [Tcp.m_waitingForResponse Tcp.timerActive Tcp.set_timerActive Tcp.write
         Tcp.set_waiting andb].
    pose proof (tcp_waitPass_accepts
                  (Tcp.set_timerActive
                     (Tcp.write
                        (Tcp.set_waiting (Tcp.set_receiveBuffer m []) true)
                        request) true)
                  expected t_hi t_lo p_hi p_lo l_hi l_lo unit fc payload) as Hpass.
    cbv zeta in Hpass. fold response in Hpass.
    rewrite Hpass by (try assumption; reflexivity).
    cbn. eexists. split; [reflexivity|]. done.
Qed.

Lemma tcp_response_validation_witness :
  let m := Tcp.set_transactionId Tcp.connected 6 in
  let request := bytes [0x00; 0x05; 0x00; 0x00; 0x00; 0x06; 0x01; 0x06;
                        0x00; 0x00; 0x00; 0x01] in
  let other := bytes [0x00; 0x06; 0x00; 0x00; 0x00; 0x06; 0x01; 0x06;
                      0x00; 0x00; 0x00; 0x01] in
  let echo := bytes [0x00; 0x05; 0x00; 0x00; 0x00; 0x06; 0x01; 0x06;
                     0x00; 0x00; 0x00; 0x01] in
  Tcp.buildRequest (Tcp.set_transactionId Tcp.connected 5) 0x06
    (Tcp.twoWords 0 1) = (m, request) ∧
  Tcp.validateResponse m other 5 = Some (false, m) ∧
  Tcp.validateResponse m echo 5 = Some (true, m) ∧
  ∃ m', Tcp.sendRequest m request [[readyRead echo]] = Some (m', echo) ∧
        Tcp.errors m' = Tcp.errors m ∧
        Tcp.m_waitingForResponse m' = false ∧
        Tcp.timerActive m' = false.
Proof.
  intros m request other echo.
  split; [vm_compute; reflexivity|].
  destruct (tcp_response_validation m 5
              x00 x06 x00 x00 x00 x06 x01 x06 [x00; x00; x00; x01])
    as [Hother _].
  destruct (tcp_response_validation m 5
              x00 x05 x00 x00 x00 x06 x01 x06 [x00; x00; x00; x01])
    as [_ Hecho].
  split.
  - apply Hother. vm_compute. discriminate.
  - destruct Hecho as [Hv Hs]; try (vm_compute; reflexivity).
    split; [exact Hv|].
    apply (Hs request []); vm_compute; try reflexivity. discriminate.
Defined.

(** Bytes of a response that was not accepted stay in the receive buffer, in
    front of whatever arrives next: here the response with transaction id 5,
    arriving after one with id 6, is not recognised before the timer expires. *)
Example tcp_rejected_response_stays_buffered :
  let m := Tcp.set_transactionId Tcp.connected 6 in
  let other := bytes [0x00; 0x06; 0x00; 0x00; 0x00; 0x06; 0x01; 0x06;
                      0x00; 0x00; 0x00; 0x01] in
  let echo := bytes [0x00; 0x05; 0x00; 0x00; 0x00; 0x06; 0x01; 0x06;
                     0x00; 0x00; 0x00; 0x01] in
  ∃ m', Tcp.sendRequest m echo [[readyRead other]; [readyRead echo]] =
          Some (m', other ++ echo) ∧
        Tcp.errors m' = [Tcp.ResponseTimeout].
Proof. cbv zeta. eexists. vm_compute. split; reflexivity. Qed.

(** A response that is not accepted is never taken out of the buffer. *)

Section TcpMismatch.

Variables (unitId timeout txid expected : Z) (sent : list QByteArray)
          (errs : list Tcp.Error) (excs : list Z).
Variables (t_hi t_lo p_hi p_lo l_hi l_lo unit fc : byte) (payload : QByteArray).

Let other : QByteArray :=
  t_hi :: t_lo :: p_hi :: p_lo :: l_hi :: l_lo :: unit :: fc :: payload.

Hypothesis Hne : u16 (u8 t_hi) (u8 t_lo) ≠ expected.

(** The master with the response [other] at the front of its buffer, while
    it waits and after the response timer has fired. *)
Let holding (more : QByteArray) : Tcp.t :=
  Tcp.mk true unitId timeout true txid (other ++ more) true sent errs excs.
Let expired (more : QByteArray) : Tcp.t :=
  Tcp.mk true unitId timeout false txid (other ++ more) false sent
         (errs ++ [Tcp.ResponseTimeout]) excs.

Lemma tcp_mismatch_batch (batch : list Event) :
  ∀ more,
    (∃ more', Tcp.processEvents (holding more) batch = holding more' ∨
              Tcp.processEvents (holding more) batch = expired more') ∧
    Tcp.processEvents (expired more) batch = expired more.
Proof.
  unfold Tcp.processEvents.
  induction batch as [|e batch IH]; intros more; cbn [fold_left].
  - split; [exists more; by left|reflexivity].
  - destruct e as [data|].
    + change (Tcp.deliver (expired more) (readyRead data)) with (expired more).
      assert (Hd : Tcp.deliver (holding more) (readyRead data)
                   = holding (more ++ data)).
      { unfold holding. cbn [Tcp.deliver]. unfold Tcp.onTcpDataReceived.
        cbn [Tcp.m_waitingForResponse negb Tcp.set_receiveBuffer
             Tcp.socketConnected Tcp.m_unitId Tcp.m_timeout Tcp.m_transactionId
             Tcp.m_receiveBuffer Tcp.timerActive Tcp.written Tcp.errors
             Tcp.exceptions].
        by rewrite <- app_assoc. }
      rewrite Hd. destruct (IH (more ++ data)) as [Hh _].
      destruct (IH more) as [_ He]. by split.
    + change (Tcp.deliver (expired more) timerExpired) with (expired more).
      change (Tcp.deliver (holding more) timerExpired) with (expired more).
      destruct (IH more) as [_ He]. split; [|exact He].
      exists more. right. exact He.
Qed.

(** A pass that ends with [other] at the front of the buffer does not leave
    the loop. *)
Lemma tcp_mismatch_waitPass (m m1 : Tcp.t) (batch : list Event)
    (more : QByteArray) :
  Tcp.processEvents m batch = m1 →
  Tcp.m_receiveBuffer m1 = other ++ more →
  Tcp.waitPass m expected batch = Some (m1, false).
Proof.
  intros Hev Hbuf. unfold Tcp.waitPass. rewrite Hev, Hbuf.
  unfold other. cbn [app].
  destruct (tcp_header_fields t_hi t_lo p_hi p_lo l_hi l_lo unit fc
              (payload ++ more)) as (_ & _ & _ & _ & H4 & H5 & _ & _ & Hsz).
  cbv zeta in H4, H5, Hsz. apply Z.ltb_ge in Hsz.
  destruct (Z.geb_spec
              (size (t_hi :: t_lo :: p_hi :: p_lo :: l_hi :: l_lo :: unit :: fc
                       :: payload ++ more)) 8); [|lia].
  rewrite H4, H5. cbn [mbind option_bind].
  destruct (_ >=? _); [|reflexivity].
  by rewrite tcp_validateResponse_mismatch.
Qed.

Lemma tcp_mismatch_waitLoop (sched : Schedule) :
  ∀ more, ∃ more',
    Tcp.waitLoop (holding more) expected sched = Some (expired more').
Proof.
  induction sched as [|batch sched IH]; intros more.
  - exists more. cbn [Tcp.waitLoop].
    change (Tcp.m_waitingForResponse (holding more)) with true.
    change (Tcp.timerActive (holding more)) with true. cbn [andb].
    by rewrite (tcp_mismatch_waitPass (holding more) (expired more)
                  [timerExpired] more).
  - cbn [Tcp.waitLoop].
    change (Tcp.m_waitingForResponse (holding more)) with true.
    change (Tcp.timerActive (holding more)) with true. cbn [andb].
    destruct (tcp_mismatch_batch batch more) as [(more' & [Hh|He]) _].
    + rewrite (tcp_mismatch_waitPass (holding more) (holding more') batch more')
        by done.
      cbn [mbind option_bind]. apply IH.
    + rewrite (tcp_mismatch_waitPass (holding more) (expired more') batch more')
        by done.
      cbn [mbind option_bind]. exists more'. by destruct sched.
Qed.

End TcpMismatch.

(** C6.  The claim's scenario fails on the code: a response whose
    transaction id differs from the one sent is not accepted, but it is not
    taken out of the receive buffer either, and [validateResponse] reads the
    header at the front of the buffer in every pass.  Once such a response
    (eight bytes or more) has arrived first, whatever arrives afterwards,
    the matching response included, is appended behind it and never looked
    at: [sendRequest] always ends by the response timer, records "Response
    timeout" once, and returns the buffer that begins with the mismatched
    response. *)
Theorem tcp_mismatched_response_blocks_the_call
    (m : Tcp.t) (request : QByteArray) (batch : list Event) (sched : Schedule)
    (t_hi t_lo p_hi p_lo l_hi l_lo unit fc : byte) (payload : QByteArray) :
  let other :=
    t_hi :: t_lo :: p_hi :: p_lo :: l_hi :: l_lo :: unit :: fc :: payload in
  Tcp.isConnected m = true →
  u16 (u8 t_hi) (u8 t_lo) ≠ wrap16 (Tcp.m_transactionId m - 1) →
  ∃ m' more,
    Tcp.sendRequest m request ((readyRead other :: batch) :: sched) =
      Some (m', other ++ more) ∧
    Tcp.m_receiveBuffer m' = other ++ more ∧
    Tcp.errors m' = Tcp.errors m ++ [Tcp.ResponseTimeout] ∧
    Tcp.exceptions m' = Tcp.exceptions m ∧
    Tcp.written m' = Tcp.written m ++ [request].
Proof.
  intros other Hc Hne.
  destruct m as [sock unitId timeout w txid buffer ta sent errs excs].
  cbn [Tcp.isConnected Tcp.socketConnected Tcp.m_transactionId Tcp.written
       Tcp.errors Tcp.exceptions] in *.
  subst sock. unfold Tcp.sendRequest.
  cbv [Tcp.isConnected Tcp.socketConnected negb Tcp.set_receiveBuffer
       Tcp.set_waiting Tcp.write Tcp.set_timerActive Tcp.m_unitId Tcp.m_timeout
       Tcp.m_waitingForResponse Tcp.m_transactionId Tcp.m_receiveBuffer
       Tcp.timerActive Tcp.written Tcp.errors Tcp.exceptions].
  set (start := Tcp.mk true unitId timeout true txid [] true
                       (sent ++ [request]) errs excs).
  set (holding more := Tcp.mk true unitId timeout true txid (other ++ more) true
                              (sent ++ [request]) errs excs).
  set (expired more := Tcp.mk true unitId timeout false txid (other ++ more)
                              false (sent ++ [request])
                              (errs ++ [Tcp.ResponseTimeout]) excs).
  assert (Hfirst : Tcp.processEvents start (readyRead other :: batch)
                   = Tcp.processEvents (holding []) batch).
  { unfold Tcp.processEvents. cbn [fold_left]. f_equal.
    unfold start, holding. by rewrite app_nil_r. }
  assert (Hloop : ∃ more, Tcp.waitLoop start (wrap16 (txid - 1))
                            ((readyRead other :: batch) :: sched)
                          = Some (expired more)).
  { cbn [Tcp.waitLoop]. change (Tcp.m_waitingForResponse start) with true.
    change (Tcp.timerActive start) with true. cbn [andb].
    destruct (tcp_mismatch_batch unitId timeout txid (sent ++ [request]) errs
                excs t_hi t_lo p_hi p_lo l_hi l_lo unit fc payload batch [])
      as [(more' & [Hh|He]) _]; cbv zeta in *.
    - rewrite (tcp_mismatch_waitPass unitId timeout txid (wrap16 (txid - 1))
                 (sent ++ [request]) errs excs
                 t_hi t_lo p_hi p_lo l_hi l_lo unit fc payload Hne
                 start (holding more') (readyRead other :: batch) more');
        [|by rewrite Hfirst|reflexivity].
      cbn [mbind option_bind].
      apply (tcp_mismatch_waitLoop unitId timeout txid (wrap16 (txid - 1))
               (sent ++ [request]) errs excs
               t_hi t_lo p_hi p_lo l_hi l_lo unit fc payload Hne sched more').
    - rewrite (tcp_mismatch_waitPass unitId timeout txid (wrap16 (txid - 1))
                 (sent ++ [request]) errs excs
                 t_hi t_lo p_hi p_lo l_hi l_lo unit fc payload Hne
                 start (expired more') (readyRead other :: batch) more');
        [|by rewrite Hfirst|reflexivity].
      cbn [mbind option_bind]. exists more'. by destruct sched. }
  destruct Hloop as [more Hloop]. fold start. rewrite Hloop.
  cbn [mbind option_bind]. exists (expired more), more.
  split; [reflexivity|]. done.
Qed.

Lemma tcp_mismatched_response_blocks_the_call_witness :
  let m := Tcp.set_transactionId Tcp.connected 6 in
  let request := bytes [0x00; 0x05; 0x00; 0x00; 0x00; 0x06; 0x01; 0x06;
                        0x00; 0x00; 0x00; 0x01] in
  let other := bytes [0x00; 0x06; 0x00; 0x00; 0x00; 0x06; 0x01; 0x06;
                      0x00; 0x00; 0x00; 0x01] in
  let echo := bytes [0x00; 0x05; 0x00; 0x00; 0x00; 0x06; 0x01; 0x06;
                     0x00; 0x00; 0x00; 0x01] in
  ∃ m' more,
    Tcp.sendRequest m request [[readyRead other]; [readyRead echo]] =
      Some (m', other ++ more) ∧
    Tcp.m_receiveBuffer m' = other ++ more ∧
    Tcp.errors m' = Tcp.errors m ++ [Tcp.ResponseTimeout] ∧
    Tcp.exceptions m' = Tcp.exceptions m ∧
    Tcp.written m' = Tcp.written m ++ [request].
Proof.
  intros m request other echo.
  apply (tcp_mismatched_response_blocks_the_call m request [] [[readyRead echo]]
           x00 x06 x00 x00 x00 x06 x01 x06 [x00; x00; x00; x01]).
  - reflexivity.
  - vm_compute. discriminate.
Defined.

(** The same scenario through the callers: the write reports success and
    the read returns the register of the response with the wrong id, both
    with the timeout recorded. *)
Example tcp_mismatched_response_reaches_the_caller :
  let other6 := bytes [0x00; 0x06; 0x00; 0x00; 0x00; 0x05; 0x01; 0x03;
                       0x02; 0xDE; 0xAD] in
  let answer5 := bytes [0x00; 0x05; 0x00; 0x00; 0x00; 0x05; 0x01; 0x03;
                        0x02; 0x12; 0x34] in
  let m := Tcp.set_transactionId Tcp.connected 5 in
  (∃ m', Tcp.readHoldingRegisters m 0 1
           [[readyRead other6]; [readyRead answer5]] = Some (m', [0xDEAD]) ∧
         Tcp.errors m' = [Tcp.ResponseTimeout]) ∧
  (∃ m', Tcp.writeSingleRegister m 0 1
           [[readyRead other6]; [readyRead answer5]] = Some (m', true) ∧
         Tcp.errors m' = [Tcp.ResponseTimeout]).
Proof.
  cbv zeta. split; eexists; (split; [vm_compute; reflexivity|reflexivity]).
Qed.

(** ** CAN receive queue *)

Section CanQueue.

Context {QCanBusFrame : Type} (isValid : QCanBusFrame → bool).

Local Abbreviation state := (@CanRx.t QCanBusFrame).

Lemma can_drain_app (buffer frames : list QCanBusFrame) :
  CanRx.drain buffer frames = frames ++ buffer.
Proof.
  revert frames. induction buffer as [|f buffer IH]; intros frames; cbn.
  - by rewrite app_nil_r.
  - rewrite IH, <- app_assoc. reflexivity.
Qed.

Lemma wrap64_add_l (a b : Z) : wrap64 (wrap64 a + b) = wrap64 (a + b).
Proof. unfold wrap64. apply Zplus_mod_idemp_l. Qed.

Lemma wrap64_range (a : Z) : 0 <= wrap64 a < 2 ^ 64.
Proof. unfold wrap64. apply Z.mod_pos_bound. lia. Qed.

Lemma wrap64_small (a : Z) : 0 <= a < 2 ^ 64 → wrap64 a = a.
Proof. intros. unfold wrap64. apply Z.mod_small. lia. Qed.

(** One valid frame: it is appended, after the oldest frame was dropped
    and counted if the buffer had reached the capacity. *)
Lemma can_onFrame_spec (s : state) (f : QCanBusFrame) :
  isValid f = true →
  0 < CanRx.m_maxBufferSize s →
  Z.of_nat (length (CanRx.m_buffer s)) <= CanRx.m_maxBufferSize s →
  ∃ s', CanRx.onFrame isValid s f = Some s' ∧
        CanRx.m_maxBufferSize s' = CanRx.m_maxBufferSize s ∧
        CanRx.m_receivedCount s' = wrap64 (CanRx.m_receivedCount s + 1) ∧
        ((Z.of_nat (length (CanRx.m_buffer s)) < CanRx.m_maxBufferSize s ∧
          CanRx.m_buffer s' = CanRx.m_buffer s ++ [f] ∧
          CanRx.m_droppedCount s' = CanRx.m_droppedCount s) ∨
         (Z.of_nat (length (CanRx.m_buffer s)) = CanRx.m_maxBufferSize s ∧
          CanRx.m_buffer s' = tail (CanRx.m_buffer s) ++ [f] ∧
          CanRx.m_droppedCount s' = wrap64 (CanRx.m_droppedCount s + 1))).
Proof.
  intros Hv Hcap Hlen. unfold CanRx.onFrame. rewrite Hv.
  cbn [CanRx.m_buffer CanRx.m_maxBufferSize].
  destruct (Z.geb_spec (Z.of_nat (length (CanRx.m_buffer s)))
              (CanRx.m_maxBufferSize s)) as [Hfull|Hroom].
  - destruct (CanRx.m_buffer s) as [|b t] eqn:Hbuf; [cbn in Hfull; lia|].
    unfold CanRx.dropOldest. cbn [CanRx.m_buffer CanRx.dequeue mbind option_bind].
    cbn. destruct (_ =? 0); cbn; eexists; (split; [reflexivity|]); cbn;
      (split; [reflexivity|]); (split; [reflexivity|]); right;
      (split; [cbn [length] in *; lia|done]).
  - cbn. eexists. split; [reflexivity|]. cbn.
    split; [reflexivity|]. split; [reflexivity|]. left. done.
Qed.

(** The queue after a run of valid frames, from any state whose buffer is
    within a positive capacity: the buffer is the tail of everything that
    was queued, cut to the capacity, and every frame cut off was counted
    as dropped. *)
Lemma can_onFrames_spec (frames : list QCanBusFrame) (s : state) :
  Forall (λ f, isValid f = true) frames →
  0 < CanRx.m_maxBufferSize s →
  Z.of_nat (length (CanRx.m_buffer s)) <= CanRx.m_maxBufferSize s →
  0 <= CanRx.m_droppedCount s < 2 ^ 64 →
  0 <= CanRx.m_receivedCount s < 2 ^ 64 →
  let all := CanRx.m_buffer s ++ frames in
  let excess := (length all - Z.to_nat (CanRx.m_maxBufferSize s))%nat in
  ∃ s', CanRx.onFrames isValid s frames = Some s' ∧
        CanRx.m_buffer s' = drop excess all ∧
        CanRx.m_droppedCount s' =
          wrap64 (CanRx.m_droppedCount s + Z.of_nat excess) ∧
        CanRx.m_receivedCount s' =
          wrap64 (CanRx.m_receivedCount s + Z.of_nat (length frames)) ∧
        CanRx.m_maxBufferSize s' = CanRx.m_maxBufferSize s.
Proof.
  revert s. induction frames as [|f rest IH]; intros s Hvalid Hcap Hlen Hd Hr.
  - cbn zeta. exists s. rewrite app_nil_r.
    replace (length (CanRx.m_buffer s) - Z.to_nat (CanRx.m_maxBufferSize s))%nat
      with 0%nat by lia.
    rewrite !Z.add_0_r, !wrap64_small by assumption. done.
  - apply Forall_cons_1 in Hvalid as [Hv Hvalid].
    destruct (can_onFrame_spec s f Hv Hcap Hlen)
      as (s1 & Hstep & Hmax & Hrc & Hcase).
    assert (Hlen1 : Z.of_nat (length (CanRx.m_buffer s1)) <=
                    CanRx.m_maxBufferSize s1).
    { rewrite Hmax. destruct Hcase as [(? & -> & _)|(? & -> & _)];
        rewrite length_app; cbn [length].
      - lia.
      - destruct (CanRx.m_buffer s); cbn [tail length] in *; lia. }
    assert (Hd1 : 0 <= CanRx.m_droppedCount s1 < 2 ^ 64).
    { destruct Hcase as [(_ & _ & ->)|(_ & _ & ->)];
        [exact Hd|apply wrap64_range]. }
    assert (Hr1 : 0 <= CanRx.m_receivedCount s1 < 2 ^ 64)
      by (rewrite Hrc; apply wrap64_range).
    destruct (IH s1 Hvalid ltac:(lia) Hlen1 Hd1 Hr1)
      as (s' & Hrun & Hbuf & Hdc & Hrcv & Hmax').
    exists s'. cbn [CanRx.onFrames]. rewrite Hstep. cbn [mbind option_bind].
    split; [exact Hrun|]. rewrite Hmax in *.
    split; [|split; [|split]].
    + rewrite Hbuf.
      destruct Hcase as [(_ & -> & _)|(Hfull & -> & _)].
      * rewrite <- app_assoc. reflexivity.
      * destruct (CanRx.m_buffer s) as [|b t]; [cbn in Hfull; lia|].
        cbn [tail]. rewrite <- app_assoc. cbn [app length] in *.
        rewrite !length_app in *. cbn [length] in *.
        replace (S (length t + S (length rest)) -
                 Z.to_nat (CanRx.m_maxBufferSize s))%nat
          with (S (length t + S (length rest) -
                   Z.to_nat (CanRx.m_maxBufferSize s)))%nat by lia.
        reflexivity.
    + rewrite Hdc.
      destruct Hcase as [(_ & -> & ->)|(Hfull & -> & ->)].
      * rewrite <- app_assoc. reflexivity.
      * rewrite wrap64_add_l. f_equal.
        destruct (CanRx.m_buffer s) as [|b t]; [cbn in Hfull; lia|].
        cbn [tail]. rewrite ?length_app in *. cbn [length] in *.
        rewrite ?length_app. cbn [length]. lia.
    + rewrite Hrcv, Hrc, wrap64_add_l. f_equal. cbn [length]. lia.
    + exact Hmax'.
Qed.

(** X22.  Queueing [N] valid frames one at a time into an initially empty
    receive queue of positive capacity [C], [0 < C < N], always succeeds and
    leaves exactly [C] frames buffered and a dropped counter of [N - C] (as a
    [quint64], hence exactly [N - C] for every [N] below 2^64); the buffer
    holds the last [C] frames in their arrival order, and [readAllFrames]
    returns them in that order and empties the buffer. *)
Theorem can_queue_keeps_newest (C : Z) (frames : list QCanBusFrame) :
  let N := Z.of_nat (length frames) in
  0 < C → C < N →
  Forall (λ f, isValid f = true) frames →
  ∃ s, CanRx.onFrames isValid (CanRx.setMaxBufferSize CanRx.create C) frames
         = Some s ∧
       CanRx.getBufferedFrameCount s = C ∧
       CanRx.getDroppedCount s = wrap64 (N - C) ∧
       (N < 2 ^ 64 → CanRx.getDroppedCount s = N - C) ∧
       CanRx.m_buffer s = drop (Z.to_nat (N - C)) frames ∧
       CanRx.readAllFrames s =
         (CanRx.set_buffer s [], drop (Z.to_nat (N - C)) frames).
Proof.
  intros N HC HN Hvalid.
  destruct (can_onFrames_spec frames (CanRx.setMaxBufferSize CanRx.create C))
    as (s & Hrun & Hbuf & Hdc & _ & _); cbn; try lia; [exact Hvalid|].
  cbn in Hbuf, Hdc.
  replace (length frames - Z.to_nat C)%nat with (Z.to_nat (N - C)) in Hbuf, Hdc
    by lia.
  rewrite Z2Nat.id in Hdc by lia.
  exists s. split; [exact Hrun|].
  unfold CanRx.getBufferedFrameCount, CanRx.getDroppedCount, CanRx.readAllFrames.
  rewrite can_drain_app, Hbuf, Hdc. cbn [app].
  split; [rewrite length_drop; lia|].
  split; [reflexivity|].
  split; [intros HN64; apply wrap64_small; lia|].
  split; reflexivity.
Qed.

(** C5.  With a capacity that is not positive the queue is full while it is
    empty: the first valid frame makes [run] take the overflow branch and
    call [m_buffer.dequeue()] on the empty queue, which [QQueue] does not
    define.  No frame is buffered and nothing is counted as the claim says
    for [C = 0 < N]: the run has no defined result, whatever frames
    follow. *)
Theorem can_queue_capacity_zero_dequeues_empty
    (C : Z) (f : QCanBusFrame) (frames : list QCanBusFrame) :
  C <= 0 →
  isValid f = true →
  CanRx.dequeue (CanRx.m_buffer (CanRx.setMaxBufferSize CanRx.create C))
    = (None : option (QCanBusFrame * list QCanBusFrame)) ∧
  CanRx.onFrames isValid (CanRx.setMaxBufferSize CanRx.create C) (f :: frames)
    = None.
Proof.
  intros HC Hv. split; [reflexivity|].
  cbn [CanRx.onFrames]. unfold CanRx.onFrame. rewrite Hv.
  cbn [CanRx.m_buffer CanRx.m_maxBufferSize CanRx.setMaxBufferSize
       CanRx.create length].
  destruct (Z.geb_spec (Z.of_nat 0) C); [|lia]. reflexivity.
Qed.

End CanQueue.

Lemma can_queue_keeps_newest_witness :
  ∃ s, CanRx.onFrames (λ _ : nat, true) (CanRx.setMaxBufferSize CanRx.create 2)
         [1; 2; 3]%nat = Some s ∧
       CanRx.getBufferedFrameCount s = 2 ∧
       CanRx.getDroppedCount s = wrap64 (3 - 2) ∧
       (3 < 2 ^ 64 → CanRx.getDroppedCount s = 3 - 2) ∧
       CanRx.m_buffer s = [2; 3]%nat ∧
       CanRx.readAllFrames s = (CanRx.set_buffer s [], [2; 3]%nat).
Proof.
  apply (can_queue_keeps_newest (λ _ : nat, true) 2 [1; 2; 3]%nat).
  - lia.
  - cbn. lia.
  - repeat constructor.
Defined.

(** With a capacity of 0 the overflow branch is entered on the empty queue,
    whose [dequeue] is not defined: the capacity has to be positive. *)
Lemma can_queue_capacity_zero :
  CanRx.onFrames (λ _ : nat, true) (CanRx.setMaxBufferSize CanRx.create 0)
    [7%nat] = None.
Proof.
  apply (can_queue_capacity_zero_dequeues_empty (λ _ : nat, true) 0 7%nat []).
  - lia.
  - reflexivity.
Defined.

(** ** Serial read buffer *)

Lemma to_int_small (z : Z) : 0 <= z <= INT_MAX → to_int z = z.
Proof. unfold to_int, INT_MAX. intros. lia. Qed.

Lemma right_tail (a : QByteArray) (len : Z) :
  0 <= len < size a →
  right a len = drop (length a - Z.to_nat len) a ∧ size (right a len) = len.
Proof.
  intros Hlen. unfold right, size in *.
  destruct (Z.geb_spec len (Z.of_nat (length a))); [lia|].
  destruct (Z.ltb_spec len 0); [lia|].
  replace (Z.to_nat (Z.of_nat (length a) - len))
    with (length a - Z.to_nat len)%nat by lia.
  split; [reflexivity|]. rewrite length_drop. lia.
Qed.

(** C8.  When the port has made [data] (not empty) readable and the cap [M]
    is not negative: [onReadyRead] appends [data] to the read buffer; if the
    size then exceeds [M] the buffer becomes exactly the last [M / 2] bytes of
    the concatenation and a warning is logged, otherwise the buffer is the
    concatenation and nothing is logged.  Sizes are [int]s. *)
Theorem onReadyRead_read_buffer (s : Serial.t) (data : QByteArray) :
  let M := Serial.m_readBufferMaxSize s in
  let all := Serial.m_readBuffer s ++ data in
  Serial.m_pSerialPort s = Some data →
  data ≠ [] →
  0 <= M →
  size all <= INT_MAX →
  let s' := Serial.onReadyRead s in
  (size all > M →
   Serial.m_readBuffer s' = drop (length all - Z.to_nat (M / 2)) all ∧
   size (Serial.m_readBuffer s') = M / 2 ∧
   Serial.warnings s' =
     Serial.warnings s ++ [Serial.ReadBufferOverflow (size all) M]) ∧
  (size all <= M →
   Serial.m_readBuffer s' = all ∧
   Serial.warnings s' = Serial.warnings s).
Proof.
  intros M all Hport Hdata HM Hint s'.
  assert (Hs' : s' =
    if size all >? M
    then Serial.mk (Some []) (right all (to_int (Z.quot M 2))) M
           (Serial.warnings s ++ [Serial.ReadBufferOverflow (size all) M])
           (Serial.emitted s ++ [Serial.dataReceived data])
    else Serial.mk (Some []) all M (Serial.warnings s)
           (Serial.emitted s ++ [Serial.dataReceived data])).
  { unfold s', Serial.onReadyRead. rewrite Hport.
    destruct (Z.eqb_spec (size data) 0) as [H0|_].
    - destruct data; [done|]. unfold size in H0. cbn [length] in H0. lia.
    - cbn [negb]. fold all. fold M. destruct (size all >? M); reflexivity. }
  rewrite Hs'. clear Hs'.
  destruct (Z.gtb_spec (size all) M) as [Hgt|Hle]; split; intros H; try lia.
  - rewrite Z.quot_div_nonneg by lia.
    rewrite to_int_small by (unfold INT_MAX in *; lia).
    destruct (right_tail all (M / 2)) as [Hr Hsz]; [lia|].
    cbn. rewrite Hr, <- Hr. done.
  - done.
Qed.

Lemma onReadyRead_read_buffer_witness :
  let s := Serial.arrive
             (Serial.setReadBufferSize
                (Serial.mk (Some []) (bytes [1; 2; 3]) 65536 [] []) 4)
             (bytes [4; 5]) in
  let all := bytes [1; 2; 3; 4; 5] in
  let s' := Serial.onReadyRead s in
  (size all > 4 →
   Serial.m_readBuffer s' = bytes [4; 5] ∧
   size (Serial.m_readBuffer s') = 2 ∧
   Serial.warnings s' = [Serial.ReadBufferOverflow 5 4]) ∧
  (size all <= 4 →
   Serial.m_readBuffer s' = all ∧
   Serial.warnings s' = Serial.warnings s).
Proof.
  intros s all s'.
  apply (onReadyRead_read_buffer s (bytes [4; 5])).
  - reflexivity.
  - discriminate.
  - cbn. lia.
  - vm_compute. discriminate.
Defined.

(* ================================================================== *)
(** * Part III: further properties of the same code                    *)
(* ================================================================== *)

(** ** Frames with a CRC trailer *)

Lemma to_char_u8 (b : byte) : to_char (u8 b) = b.
Proof.
  unfold to_char, u8, wrap8. pose proof (Byte.to_N_bounded b) as Hb.
  rewrite Z.mod_small by lia. rewrite N2Z.id, Byte.of_to_N. reflexivity.
Qed.

Lemma u8_inj (a b : byte) : u8 a = u8 b → a = b.
Proof. intros H. rewrite <- (to_char_u8 a), <- (to_char_u8 b), H. reflexivity. Qed.

Lemma u8_to_char_small (z : Z) : 0 <= z < 256 → u8 (to_char z) = z.
Proof. intros Hz. rewrite u8_to_char. unfold wrap8. apply Z.mod_small. lia. Qed.

(** The CRC low and high bytes put back together. *)
Lemma crc_bytes_decode (c : Z) :
  0 <= c < 65536 →
  wrap16 (Z.lor (u8 (Crc.lo c)) (Z.shiftl (u8 (Crc.hi c)) 8)) = c.
Proof.
  intros Hc. rewrite Z.lor_comm. apply (u16_split c Hc).
Qed.

Lemma size_app (a b : QByteArray) : size (a ++ b) = size a + size b.
Proof. unfold size. rewrite length_app. lia. Qed.

Lemma at_app_l (a b : QByteArray) (i : Z) :
  0 <= i < size a → at_ (a ++ b) i = at_ a i.
Proof.
  intros Hi. unfold at_, size in *. destruct (i <? 0); [done|].
  rewrite lookup_app_l by lia. reflexivity.
Qed.

Lemma at_app_r (a b : QByteArray) (i : Z) :
  size a <= i → at_ (a ++ b) i = at_ b (i - size a).
Proof.
  intros Hi. unfold at_, size in *.
  destruct (Z.ltb_spec i 0); [lia|].
  destruct (Z.ltb_spec (i - Z.of_nat (length a)) 0); [lia|].
  rewrite lookup_app_r by lia. do 2 f_equal. lia.
Qed.

Lemma left_app_exact (a b : QByteArray) : b ≠ [] → left (a ++ b) (size a) = a.
Proof.
  intros Hb. unfold left. rewrite size_app.
  assert (0 < size b) by (destruct b; [done|]; unfold size; cbn [length]; lia).
  pose proof (size_nonneg a).
  destruct (Z.geb_spec (size a) (size a + size b)); [lia|].
  destruct (Z.ltb_spec (size a) 0); [lia|].
  unfold size. rewrite Nat2Z.id. apply take_app_length.
Qed.

(** [verifyCRC] accepts a body of at least two bytes followed by its CRC. *)
Lemma verifyCRC_trailer (body : QByteArray) :
  2 <= size body →
  let crc := Crc.calculateCRC16 body in
  Slave.verifyCRC (body ++ [Crc.lo crc; Crc.hi crc]) = Some true.
Proof.
  intros Hsz crc. unfold Slave.verifyCRC.
  rewrite size_app. change (size [Crc.lo crc; Crc.hi crc]) with 2.
  destruct (Z.ltb_spec (size body + 2) 4); [lia|].
  rewrite !at_app_r by lia.
  replace (size body + 2 - 2 - size body) with 0 by lia.
  replace (size body + 2 - 1 - size body) with 1 by lia.
  change (at_ [Crc.lo crc; Crc.hi crc] 0) with (Some (u8 (Crc.lo crc))).
  change (at_ [Crc.lo crc; Crc.hi crc] 1) with (Some (u8 (Crc.hi crc))).
  cbn [mbind option_bind].
  replace (size body + 2 - 2) with (size body) by lia.
  rewrite left_app_exact by done.
  rewrite crc_bytes_decode by apply calculateCRC16_range.
  unfold Slave.calculateCRC16. fold crc. by rewrite Z.eqb_refl.
Qed.

Lemma lor_shiftl8 (h l : Z) :
  0 <= l < 256 → Z.lor (Z.shiftl h 8) l = 256 * h + l.
Proof.
  intros Hl.
  assert (Hdisj : Z.land (Z.shiftl h 8) l = 0).
  { apply Z.bits_inj'. intros n Hn. rewrite Z.land_spec, Z.bits_0.
    destruct (Z.ltb_spec n 8).
    - rewrite Z.shiftl_spec_low by lia. reflexivity.
    - rewrite <- (Z.mod_small l (2 ^ 8)) by lia.
      rewrite Z.mod_pow2_bits_high by lia. apply andb_false_r. }
  rewrite <- Z.lxor_lor, <- Z.add_nocarry_lxor by exact Hdisj.
  rewrite Z.shiftl_mul_pow2 by lia. lia.
Qed.

Lemma u16_value (hi lo : Z) :
  0 <= hi < 256 → 0 <= lo < 256 → u16 hi lo = 256 * hi + lo.
Proof.
  intros Hh Hl. unfold u16. rewrite lor_shiftl8 by lia.
  apply wrap16_small. lia.
Qed.

Lemma list_split_last_two (a : QByteArray) :
  4 <= size a →
  ∃ body x y, a = body ++ [x; y] ∧ size body = size a - 2.
Proof.
  intros Hsz. unfold size in *.
  destruct (lookup_lt_is_Some_2 a (length a - 2)) as [x Hx]; [lia|].
  destruct (lookup_lt_is_Some_2 a (length a - 1)) as [y Hy]; [lia|].
  exists (take (length a - 2) a), x, y. split.
  - rewrite <- (take_drop (length a - 2) a) at 1. f_equal.
    apply list_eq. intros i. rewrite lookup_drop.
    destruct i as [|[|i]]; cbn.
    + rewrite Nat.add_0_r. exact Hx.
    + replace (length a - 2 + 1)%nat with (length a - 1)%nat by lia. exact Hy.
    + apply lookup_ge_None_2. lia.
  - rewrite length_take. lia.
Qed.

(** X1.  [verifyCRC] accepts exactly the frames made of at least two bytes
    followed by the CRC16 of those bytes, low byte first; anything shorter
    than four bytes, or with another trailer, is refused. *)
Theorem verifyCRC_iff_trailer (data : QByteArray) :
  Slave.verifyCRC data = Some true ↔
  ∃ body, 2 <= size body ∧
          data = body ++ [Crc.lo (Crc.calculateCRC16 body);
                          Crc.hi (Crc.calculateCRC16 body)].
Proof.
  split.
  - intros Hv.
    destruct (Z.ltb_spec (size data) 4) as [Hlt|Hge].
    { unfold Slave.verifyCRC in Hv.
      destruct (Z.ltb_spec (size data) 4); [done|lia]. }
    destruct (list_split_last_two data Hge) as (body & x & y & -> & Hbody).
    exists body. split; [lia|].
    unfold Slave.verifyCRC in Hv. rewrite size_app in *.
    change (size [x; y]) with 2 in *.
    destruct (Z.ltb_spec (size body + 2) 4); [lia|].
    rewrite !at_app_r in Hv by lia.
    replace (size body + 2 - 2 - size body) with 0 in Hv by lia.
    replace (size body + 2 - 1 - size body) with 1 in Hv by lia.
    change (at_ [x; y] 0) with (Some (u8 x)) in Hv.
    change (at_ [x; y] 1) with (Some (u8 y)) in Hv.
    cbn [mbind option_bind] in Hv.
    replace (size body + 2 - 2) with (size body) in Hv by lia.
    rewrite left_app_exact in Hv by done.
    injection Hv as Hv. apply Z.eqb_eq in Hv.
    unfold Slave.calculateCRC16 in Hv.
    pose proof (calculateCRC16_range body) as Hr.
    pose proof (u8_range x) as Hx. pose proof (u8_range y) as Hy.
    rewrite Z.lor_comm in Hv. fold (u16 (u8 y) (u8 x)) in Hv.
    rewrite u16_value in Hv by lia.
    unfold Crc.lo, Crc.hi. rewrite land_255.
    rewrite Z.shiftr_div_pow2, land_255 by lia. change (2 ^ 8) with 256.
    rewrite <- Hv.
    replace ((256 * u8 y + u8 x) mod 256) with (u8 x) by lia.
    replace (((256 * u8 y + u8 x) / 256) mod 256) with (u8 y) by lia.
    by rewrite !to_char_u8.
  - intros (body & Hsz & ->). by apply verifyCRC_trailer.
Qed.

(** ** What the slave answers *)

Lemma rtu_buildRequest_is_frame (m : Rtu.t) (functionCode : Z) (data : QByteArray) :
  Rtu.buildRequest m functionCode data =
    Crc.frame (to_char (Rtu.m_slaveAddress m) :: to_char functionCode :: data).
Proof. apply rtu_buildRequest_frame. Qed.

Lemma slave_sendResponse_is_frame (s : Slave.t) (response : QByteArray) :
  Slave.sendResponse s response = Slave.write s (Crc.frame response).
Proof.
  unfold Slave.sendResponse, Crc.frame, Slave.calculateCRC16, Crc.lo, Crc.hi.
  by rewrite <- app_assoc.
Qed.

Lemma size_frame (body : QByteArray) : size (Crc.frame body) = size body + 2.
Proof. unfold Crc.frame. rewrite size_app. reflexivity. Qed.

Lemma at_frame (body : QByteArray) (i : Z) :
  0 <= i < size body → at_ (Crc.frame body) i = at_ body i.
Proof. intros Hi. unfold Crc.frame. by apply at_app_l. Qed.

Lemma twoWords_fields (a b : Z) :
  0 <= a < 65536 → 0 <= b < 65536 →
  ∃ a1 a0 b1 b0,
    Rtu.twoWords a b = [a1; a0; b1; b0] ∧
    u16 (u8 a1) (u8 a0) = a ∧ u16 (u8 b1) (u8 b0) = b.
Proof.
  intros Ha Hb. eexists _, _, _, _. split; [reflexivity|].
  split; by apply u16_split.
Qed.

Lemma left_take (a : QByteArray) (n : Z) :
  0 <= n < size a → left a n = take (Z.to_nat n) a.
Proof.
  intros Hn. unfold left.
  destruct (Z.geb_spec n (size a)); [lia|].
  destruct (Z.ltb_spec n 0); [lia|]. reflexivity.
Qed.

(** The header fields of a frame that carries an address, a function code
    and two 16-bit words, as the slave reads them. *)
Lemma slave_request_fields (s : Slave.t) (address functionCode a b : Z)
    (rest : QByteArray) :
  0 <= address < 256 → 0 <= functionCode < 256 →
  0 <= a < 65536 → 0 <= b < 65536 →
  let request :=
    Crc.frame (to_char address :: to_char functionCode ::
               Rtu.twoWords a b ++ rest) in
  (size request <? 6) = false ∧
  Slave.verifyCRC request = Some true ∧
  at_ request 0 = Some address ∧
  at_ request 1 = Some functionCode ∧
  ∃ a1 a0 b1 b0,
    at_ request 2 = Some a1 ∧ at_ request 3 = Some a0 ∧
    at_ request 4 = Some b1 ∧ at_ request 5 = Some b0 ∧
    u16 a1 a0 = a ∧ u16 b1 b0 = b ∧
    left request 6 =
      to_char address :: to_char functionCode :: Rtu.twoWords a b.
Proof.
  intros Haddr Hfc Ha Hb request.
  destruct (twoWords_fields a b Ha Hb) as (a1 & a0 & b1 & b0 & Htw & Hau & Hbu).
  unfold request. rewrite Htw. cbn [app].
  set (body := to_char address :: to_char functionCode ::
               a1 :: a0 :: b1 :: b0 :: rest).
  assert (Hsz : 6 <= size body).
  { unfold body. rewrite !size_cons. pose proof (size_nonneg rest). lia. }
  split; [rewrite size_frame; apply Z.ltb_ge; lia|].
  split; [apply verifyCRC_trailer; lia|].
  rewrite !at_frame by lia. unfold body.
  split; [rewrite at_cons_0, u8_to_char_small by lia; reflexivity|].
  split; [rewrite at_cons_pos, at_cons_0, u8_to_char_small by lia; reflexivity|].
  exists (u8 a1), (u8 a0), (u8 b1), (u8 b0).
  repeat (split; [reflexivity|]). split; [exact Hau|]. split; [exact Hbu|].
  fold body. rewrite left_take by (rewrite size_frame; lia).
  unfold Crc.frame, body. cbn [app]. reflexivity.
Qed.

Lemma slave_processRequest_dispatch
    (s : Slave.t) (request : QByteArray) (functionCode : Z) :
  (size request <? 6) = false →
  Slave.verifyCRC request = Some true →
  at_ request 0 = Some (Slave.m_slaveAddress s) →
  at_ request 1 = Some functionCode →
  Slave.processRequest s request =
    if functionCode =? 0x03 then Slave.handleReadHoldingRegisters s request
    else if functionCode =? 0x04 then Slave.handleReadInputRegisters s request
    else if functionCode =? 0x06 then Slave.handleWriteSingleRegister s request
    else if functionCode =? 0x10 then Slave.handleWriteMultipleRegisters s request
    else Some (Slave.sendException s functionCode
                 Slave.MODBUS_EXCEPTION_ILLEGAL_FUNCTION).
Proof.
  intros Hsz Hcrc H0 H1. unfold Slave.processRequest.
  rewrite Hsz, Hcrc. cbn [mbind option_bind negb]. rewrite H0.
  cbn [mbind option_bind]. rewrite Z.eqb_refl. cbn [negb]. rewrite H1.
  reflexivity.
Qed.

Lemma appendRegisters_cons (v : Z) (values : list Z) :
  appendRegisters (v :: values) =
    [to_char (Z.land (Z.shiftr v 8) 0xFF); to_char (Z.land v 0xFF)] ++
    appendRegisters values.
Proof. reflexivity. Qed.

Lemma size_appendRegisters (values : list Z) :
  size (appendRegisters values) = 2 * Z.of_nat (length values).
Proof.
  induction values as [|v values IH]; [reflexivity|].
  rewrite appendRegisters_cons, size_app, IH. cbn [length].
  change (size [_; _]) with 2. lia.
Qed.

(** The read loop appends the registers [startAddr + i ..] in the byte
    layout of [appendRegisters]. *)
Lemma appendRegister_loop (regs : list Z) (startAddr : Z) (n : nat) :
  ∀ (i : Z) (response : QByteArray),
    0 <= startAddr + i →
    startAddr + i + Z.of_nat n <= Z.of_nat (length regs) →
    for_loop n i (Slave.appendRegister regs startAddr) response =
      Some (response ++
            appendRegisters (take n (drop (Z.to_nat (startAddr + i)) regs))).
Proof.
  induction n as [|n IH]; intros i response Hlo Hhi; cbn [for_loop].
  - cbn. by rewrite app_nil_r.
  - destruct (lookup_lt_is_Some_2 regs (Z.to_nat (startAddr + i))) as [x Hx];
      [lia|].
    assert (Slave.appendRegister regs startAddr i response =
            Some (response ++ [to_char (Z.land (Z.shiftr x 8) 0xFF);
                               to_char (Z.land x 0xFF)])) as ->.
    { unfold Slave.appendRegister, vec_get.
      destruct (Z.ltb_spec (startAddr + i) 0); [lia|]. by rewrite Hx. }
    cbn [mbind option_bind]. rewrite IH by lia.
    rewrite (drop_S _ _ _ Hx). cbn [take]. rewrite appendRegisters_cons.
    rewrite <- app_assoc.
    replace (Z.to_nat (startAddr + (i + 1)))
      with (S (Z.to_nat (startAddr + i))) by lia.
    reflexivity.
Qed.

(** The slave serving a well-formed read of holding registers. *)
Lemma slave_serves_holding_read
    (s : Slave.t) (start count : Z) (rest : QByteArray) :
  Slave.banks_sized s →
  0 <= Slave.m_slaveAddress s < 256 →
  0 <= start →
  1 <= count <= 125 →
  start + count <= Slave.MAX_REGISTERS →
  Slave.processRequest s
    (Crc.frame (to_char (Slave.m_slaveAddress s) :: to_char 0x03 ::
                Rtu.twoWords start count ++ rest)) =
    Some (Slave.emit
            (Slave.write s
               (Crc.frame
                  ([to_char (Slave.m_slaveAddress s); to_char 0x03;
                    to_char (count * 2)] ++
                   appendRegisters
                     (take (Z.to_nat count)
                        (drop (Z.to_nat start) (Slave.m_holdingRegisters s))))))
            (Slave.readRequest 0x03 start count)).
Proof.
  intros [Hh Hi] Haddr Hstart Hcount Hfit.
  unfold Slave.MAX_REGISTERS in *.
  assert (Hguard : (count =? 0) || (count >? 125) || (start + count >? 256)
                   = false).
  { destruct (Z.eqb_spec count 0); [lia|].
    rewrite !Z.gtb_ltb.
    destruct (Z.ltb_spec 125 count); [lia|].
    destruct (Z.ltb_spec 256 (start + count)); [lia|]. reflexivity. }
  destruct (slave_request_fields s (Slave.m_slaveAddress s) 3 start count rest)
    as (Hsz & Hcrc & H0 & H1 & a1 & a0 & b1 & b0 & H2 & H3 & H4 & H5 & Ha & Hb & _);
    try lia.
  rewrite (slave_processRequest_dispatch s _ 3 Hsz Hcrc H0 H1).
  cbn [Z.eqb Pos.eqb]. unfold Slave.handleReadHoldingRegisters.
  rewrite H2, H3, H4, H5. cbn [mbind option_bind]. rewrite Ha, Hb.
  unfold Slave.MAX_REGISTERS. rewrite Hguard.
  rewrite appendRegister_loop by lia. cbn [mbind option_bind].
  rewrite slave_sendResponse_is_frame, Z.add_0_r. reflexivity.
Qed.

(** The slave serving a well-formed read of input registers. *)
Lemma slave_serves_input_read
    (s : Slave.t) (start count : Z) (rest : QByteArray) :
  Slave.banks_sized s →
  0 <= Slave.m_slaveAddress s < 256 →
  0 <= start →
  1 <= count <= 125 →
  start + count <= Slave.MAX_REGISTERS →
  Slave.processRequest s
    (Crc.frame (to_char (Slave.m_slaveAddress s) :: to_char 0x04 ::
                Rtu.twoWords start count ++ rest)) =
    Some (Slave.emit
            (Slave.write s
               (Crc.frame
                  ([to_char (Slave.m_slaveAddress s); to_char 0x04;
                    to_char (count * 2)] ++
                   appendRegisters
                     (take (Z.to_nat count)
                        (drop (Z.to_nat start) (Slave.m_inputRegisters s))))))
            (Slave.readRequest 0x04 start count)).
Proof.
  intros [Hh Hi] Haddr Hstart Hcount Hfit.
  unfold Slave.MAX_REGISTERS in *.
  assert (Hguard : (count =? 0) || (count >? 125) || (start + count >? 256)
                   = false).
  { destruct (Z.eqb_spec count 0); [lia|].
    rewrite !Z.gtb_ltb.
    destruct (Z.ltb_spec 125 count); [lia|].
    destruct (Z.ltb_spec 256 (start + count)); [lia|]. reflexivity. }
  destruct (slave_request_fields s (Slave.m_slaveAddress s) 4 start count rest)
    as (Hsz & Hcrc & H0 & H1 & a1 & a0 & b1 & b0 & H2 & H3 & H4 & H5 & Ha & Hb & _);
    try lia.
  rewrite (slave_processRequest_dispatch s _ 4 Hsz Hcrc H0 H1).
  cbn [Z.eqb Pos.eqb]. unfold Slave.handleReadInputRegisters.
  rewrite H2, H3, H4, H5. cbn [mbind option_bind]. rewrite Ha, Hb.
  unfold Slave.MAX_REGISTERS. rewrite Hguard.
  rewrite appendRegister_loop by lia. cbn [mbind option_bind].
  rewrite slave_sendResponse_is_frame, Z.add_0_r. reflexivity.
Qed.

(** X2.  A read request (function code 0x03 or 0x04) addressed to the slave
    with [1 <= count <= 125] and [start + count <= 256] is answered by one
    frame: address, function code, the byte count [2 * count], the
    registers [start .. start + count - 1] of the bank (holding for 0x03,
    input for 0x04) high byte first, and the CRC.  The banks are not touched
    and [readRequest] is emitted.  Bytes after the count field are ignored. *)
Theorem slave_read_registers_response
    (s : Slave.t) (start count : Z) (rest : QByteArray) :
  Slave.banks_sized s →
  0 <= Slave.m_slaveAddress s < 256 →
  0 <= start →
  1 <= count <= 125 →
  start + count <= Slave.MAX_REGISTERS →
  let request fc :=
    Crc.frame (to_char (Slave.m_slaveAddress s) :: to_char fc ::
               Rtu.twoWords start count ++ rest) in
  let values bank := take (Z.to_nat count) (drop (Z.to_nat start) bank) in
  let response fc bank :=
    Crc.frame ([to_char (Slave.m_slaveAddress s); to_char fc;
                to_char (count * 2)] ++ appendRegisters (values bank)) in
  Slave.processRequest s (request 0x03) =
    Some (Slave.emit
            (Slave.write s (response 0x03 (Slave.m_holdingRegisters s)))
            (Slave.readRequest 0x03 start count)) ∧
  Slave.processRequest s (request 0x04) =
    Some (Slave.emit
            (Slave.write s (response 0x04 (Slave.m_inputRegisters s)))
            (Slave.readRequest 0x04 start count)) ∧
  size (appendRegisters (values (Slave.m_holdingRegisters s))) = count * 2 ∧
  size (appendRegisters (values (Slave.m_inputRegisters s))) = count * 2.
Proof.
  intros Hsized Haddr Hstart Hcount Hfit request values response.
  pose proof Hsized as [Hh Hi]. unfold Slave.MAX_REGISTERS in Hh, Hi.
  split; [by apply slave_serves_holding_read|].
  split; [by apply slave_serves_input_read|].
  unfold Slave.MAX_REGISTERS in Hfit.
  split; rewrite size_appendRegisters; unfold values;
    rewrite length_take, length_drop; lia.
Qed.

Lemma slave_read_registers_response_witness :
  let s := Slave.create 1 in
  Slave.processRequest s
    (Crc.frame (to_char 1 :: to_char 3 :: Rtu.twoWords 0 2 ++ [])) =
    Some (Slave.emit
            (Slave.write s
               (Crc.frame ([to_char 1; to_char 3; to_char (2 * 2)] ++
                           appendRegisters [0; 0])))
            (Slave.readRequest 3 0 2)).
Proof.
  intros s.
  refine (proj1 (slave_read_registers_response s 0 2 [] _ _ _ _ _)).
  - split; reflexivity.
  - cbn. lia.
  - lia.
  - lia.
  - unfold Slave.MAX_REGISTERS. lia.
Defined.

(** The slave serving a write of one holding register inside the bank. *)
Lemma slave_serves_write_single
    (s : Slave.t) (address value : Z) (rest : QByteArray) :
  Slave.banks_sized s →
  0 <= Slave.m_slaveAddress s < 256 →
  0 <= address < Slave.MAX_REGISTERS →
  0 <= value < 65536 →
  Slave.processRequest s
    (Crc.frame (to_char (Slave.m_slaveAddress s) :: to_char 0x06 ::
                Rtu.twoWords address value ++ rest)) =
    Some (Slave.emit
            (Slave.write
               (Slave.set_holdingRegisters s
                  (<[Z.to_nat address := value]> (Slave.m_holdingRegisters s)))
               (Crc.frame (to_char (Slave.m_slaveAddress s) :: to_char 0x06 ::
                           Rtu.twoWords address value)))
            (Slave.writeRequest 0x06 address value)).
Proof.
  intros [Hh Hi] Haddr Ha Hv. unfold Slave.MAX_REGISTERS in *.
  destruct (slave_request_fields s (Slave.m_slaveAddress s) 6 address value rest)
    as (Hsz & Hcrc & H0 & H1 & a1 & a0 & b1 & b0 & H2 & H3 & H4 & H5 & Hau & Hbu
        & Hleft); try lia.
  rewrite (slave_processRequest_dispatch s _ 6 Hsz Hcrc H0 H1).
  cbn [Z.eqb Pos.eqb]. unfold Slave.handleWriteSingleRegister.
  rewrite H2, H3, H4, H5. cbn [mbind option_bind]. rewrite Hau, Hbu.
  unfold Slave.MAX_REGISTERS. destruct (Z.geb_spec address 256); [lia|].
  rewrite vec_set_Some by lia. cbn [mbind option_bind].
  rewrite slave_sendResponse_is_frame, Hleft. reflexivity.
Qed.

(** X3.  A write-single-register request (0x06) addressed to the slave: for
    an address below 256 the holding register takes the value, every other
    register keeps its value, the answer is the frame of the first six
    request bytes (the request itself when it has no further bytes) and
    [writeRequest] is emitted; for an address of 256 or more nothing is
    stored and the answer is the exception frame with code 0x02. *)
Theorem slave_write_single_register
    (s : Slave.t) (address value : Z) (rest : QByteArray) :
  Slave.banks_sized s →
  0 <= Slave.m_slaveAddress s < 256 →
  0 <= address < 65536 →
  0 <= value < 65536 →
  let request :=
    Crc.frame (to_char (Slave.m_slaveAddress s) :: to_char 0x06 ::
               Rtu.twoWords address value ++ rest) in
  let echo :=
    Crc.frame (to_char (Slave.m_slaveAddress s) :: to_char 0x06 ::
               Rtu.twoWords address value) in
  (address < Slave.MAX_REGISTERS →
   Slave.processRequest s request =
     Some (Slave.emit
             (Slave.write
                (Slave.set_holdingRegisters s
                   (<[Z.to_nat address := value]> (Slave.m_holdingRegisters s)))
                echo)
             (Slave.writeRequest 0x06 address value)) ∧
   (rest = [] → echo = request)) ∧
  (Slave.MAX_REGISTERS <= address →
   Slave.processRequest s request =
     Some (Slave.write s
             (Crc.frame [to_char (Slave.m_slaveAddress s); to_char 0x86;
                         to_char 0x02]))).
Proof.
  intros Hsized Haddr Ha Hv request echo. split.
  - intros Hlt. split.
    + apply slave_serves_write_single; try assumption. lia.
    + intros ->. unfold echo, request. by rewrite app_nil_r.
  - intros Hge. destruct Hsized as [Hh Hi]. unfold Slave.MAX_REGISTERS in *.
    destruct (slave_request_fields s (Slave.m_slaveAddress s) 6 address value
                rest)
      as (Hsz & Hcrc & H0 & H1 & a1 & a0 & b1 & b0 & H2 & H3 & H4 & H5 & Hau
          & Hbu & _); try lia.
    fold request in Hsz, Hcrc, H0, H1, H2, H3, H4, H5.
    rewrite (slave_processRequest_dispatch s request 6 Hsz Hcrc H0 H1).
    cbn [Z.eqb Pos.eqb]. unfold Slave.handleWriteSingleRegister.
    rewrite H2, H3, H4, H5. cbn [mbind option_bind]. rewrite Hau, Hbu.
    unfold Slave.MAX_REGISTERS. destruct (Z.geb_spec address 256); [|lia].
    unfold Slave.sendException. rewrite slave_sendResponse_is_frame.
    reflexivity.
Qed.

Lemma slave_write_single_register_witness :
  let s := Slave.create 1 in
  let request :=
    Crc.frame (to_char 1 :: to_char 0x06 :: Rtu.twoWords 0 1234 ++ []) in
  request = bytes [0x01; 0x06; 0x00; 0x00; 0x04; 0xD2; 0x0B; 0x57] ∧
  Slave.processRequest s request =
    Some (Slave.emit
            (Slave.write
               (Slave.set_holdingRegisters s
                  (<[0%nat := 1234]> (Slave.m_holdingRegisters s)))
               (Crc.frame (to_char 1 :: to_char 0x06 :: Rtu.twoWords 0 1234)))
            (Slave.writeRequest 0x06 0 1234)).
Proof.
  intros s request. split; [vm_compute; reflexivity|].
  refine (proj1 (proj1 (slave_write_single_register s 0 1234 [] _ _ _ _) _)).
  - split; reflexivity.
  - cbn. lia.
  - lia.
  - lia.
  - unfold Slave.MAX_REGISTERS. lia.
Defined.

(** X4.  A frame that passes [verifyCRC], whose first byte is the slave's
    address and whose function code is none of 0x03, 0x04, 0x06, 0x10: when
    it has at least six bytes it is answered by the exception frame
    [address, code | 0x80, 0x01] and nothing else changes; when it has four
    or five bytes it is dropped by the length test of [processRequest]
    without any answer. *)
Theorem slave_illegal_function
    (s : Slave.t) (request : QByteArray) (functionCode : Z) :
  Slave.verifyCRC request = Some true →
  at_ request 0 = Some (Slave.m_slaveAddress s) →
  at_ request 1 = Some functionCode →
  functionCode ≠ 0x03 → functionCode ≠ 0x04 →
  functionCode ≠ 0x06 → functionCode ≠ 0x10 →
  (6 <= size request →
   Slave.processRequest s request =
     Some (Slave.write s
             (Crc.frame [to_char (Slave.m_slaveAddress s);
                         to_char (Z.lor functionCode 0x80);
                         to_char Slave.MODBUS_EXCEPTION_ILLEGAL_FUNCTION]))) ∧
  (size request < 6 → Slave.processRequest s request = Some s).
Proof.
  intros Hcrc H0 H1 H3 H4 H6 H16. split.
  - intros Hsz.
    rewrite (slave_processRequest_dispatch s request functionCode);
      [|by apply Z.ltb_ge|assumption..].
    destruct (Z.eqb_spec functionCode 3); [done|].
    destruct (Z.eqb_spec functionCode 4); [done|].
    destruct (Z.eqb_spec functionCode 6); [done|].
    destruct (Z.eqb_spec functionCode 16); [done|].
    unfold Slave.sendException. by rewrite slave_sendResponse_is_frame.
  - intros Hsz. unfold Slave.processRequest.
    destruct (Z.ltb_spec (size request) 6); [reflexivity|lia].
Qed.

Lemma slave_illegal_function_witness :
  Slave.processRequest (Slave.create 1)
    (bytes [0x01; 0x07; 0x00; 0x00; 0x00; 0x08; 0xB5; 0xCC]) =
    Some (Slave.write (Slave.create 1) (bytes [0x01; 0x87; 0x01; 0x82; 0x30])) ∧
  Slave.processRequest (Slave.create 1) (bytes [0x01; 0x07; 0x41; 0xE2]) =
    Some (Slave.create 1).
Proof.
  split.
  - apply (slave_illegal_function (Slave.create 1)
             (bytes [0x01; 0x07; 0x00; 0x00; 0x00; 0x08; 0xB5; 0xCC]) 0x07);
      try (vm_compute; reflexivity); discriminate.
  - apply (slave_illegal_function (Slave.create 1)
             (bytes [0x01; 0x07; 0x41; 0xE2]) 0x07);
      try (vm_compute; reflexivity); discriminate.
Defined.

(** X5.  A read request addressed to the slave whose count is 0, above 125,
    or reaches past register 255 is answered by the exception frame with
    code 0x02; the banks are not read, nothing is emitted. *)
Theorem slave_read_out_of_range
    (s : Slave.t) (start count : Z) (rest : QByteArray) :
  0 <= Slave.m_slaveAddress s < 256 →
  0 <= start < 65536 →
  0 <= count < 65536 →
  count = 0 ∨ 125 < count ∨ Slave.MAX_REGISTERS < start + count →
  let request fc :=
    Crc.frame (to_char (Slave.m_slaveAddress s) :: to_char fc ::
               Rtu.twoWords start count ++ rest) in
  let exception fc :=
    Crc.frame [to_char (Slave.m_slaveAddress s); to_char (Z.lor fc 0x80);
               to_char 0x02] in
  Slave.processRequest s (request 0x03) = Some (Slave.write s (exception 0x03)) ∧
  Slave.processRequest s (request 0x04) = Some (Slave.write s (exception 0x04)).
Proof.
  intros Haddr Hstart Hcount Hbad request exception.
  unfold Slave.MAX_REGISTERS in *.
  assert (Hguard : (count =? 0) || (count >? 125) || (start + count >? 256)
                   = true).
  { rewrite !Z.gtb_ltb.
    destruct (Z.eqb_spec count 0); [done|].
    destruct (Z.ltb_spec 125 count); [done|].
    destruct (Z.ltb_spec 256 (start + count)); [done|lia]. }
  split.
  - destruct (slave_request_fields s (Slave.m_slaveAddress s) 3 start count rest)
      as (Hsz & Hcrc & H0 & H1 & a1 & a0 & b1 & b0 & H2 & H3 & H4 & H5 & Ha & Hb & _);
      try lia.
    fold (request 3) in *.
    rewrite (slave_processRequest_dispatch s (request 3) 3 Hsz Hcrc H0 H1).
    cbn [Z.eqb Pos.eqb]. unfold Slave.handleReadHoldingRegisters.
    rewrite H2, H3, H4, H5. cbn [mbind option_bind]. rewrite Ha, Hb.
    unfold Slave.MAX_REGISTERS. rewrite Hguard.
    unfold Slave.sendException. by rewrite slave_sendResponse_is_frame.
  - destruct (slave_request_fields s (Slave.m_slaveAddress s) 4 start count rest)
      as (Hsz & Hcrc & H0 & H1 & a1 & a0 & b1 & b0 & H2 & H3 & H4 & H5 & Ha & Hb & _);
      try lia.
    fold (request 4) in *.
    rewrite (slave_processRequest_dispatch s (request 4) 4 Hsz Hcrc H0 H1).
    cbn [Z.eqb Pos.eqb]. unfold Slave.handleReadInputRegisters.
    rewrite H2, H3, H4, H5. cbn [mbind option_bind]. rewrite Ha, Hb.
    unfold Slave.MAX_REGISTERS. rewrite Hguard.
    unfold Slave.sendException. by rewrite slave_sendResponse_is_frame.
Qed.

Lemma slave_read_out_of_range_witness :
  let s := Slave.create 1 in
  Slave.processRequest s
    (Crc.frame (to_char 1 :: to_char 3 :: Rtu.twoWords 250 10 ++ [])) =
    Some (Slave.write s
            (Crc.frame [to_char 1; to_char (Z.lor 3 0x80); to_char 0x02])).
Proof.
  intros s.
  refine (proj1 (slave_read_out_of_range s 250 10 [] _ _ _ _)).
  - cbn. lia.
  - lia.
  - lia.
  - right. right. unfold Slave.MAX_REGISTERS. lia.
Defined.

(** ** Master and slave together *)

(** Decoding the bytes of 16-bit values followed by more bytes. *)
Lemma parseRegisters_app (values : list Z) (tail : QByteArray) :
  Forall (λ v, 0 <= v < 65536) values →
  parseRegisters (appendRegisters values ++ tail) =
    values ++ parseRegisters tail.
Proof.
  induction 1 as [|v values Hv _ IH]; [reflexivity|].
  rewrite appendRegisters_cons. cbn [app parseRegisters].
  rewrite IH, u16_split by exact Hv. reflexivity.
Qed.

(** X6.  Decoding undoes encoding: [parseRegisters] applied to the bytes
    [appendRegisters] produces for 16-bit values gives the values back. *)
Theorem parseRegisters_appendRegisters (values : list Z) :
  Forall (λ v, 0 <= v < 65536) values →
  parseRegisters (appendRegisters values) = values.
Proof.
  intros H16. rewrite <- (app_nil_r (appendRegisters values)).
  rewrite parseRegisters_app by exact H16. apply app_nil_r.
Qed.

Lemma parseRegisters_appendRegisters_witness :
  parseRegisters (appendRegisters [0x1234; 0; 0xFFFF]) = [0x1234; 0; 0xFFFF].
Proof.
  apply (parseRegisters_appendRegisters [0x1234; 0; 0xFFFF]).
  repeat constructor; lia.
Defined.

(** The master accepts a frame whose first byte is its slave address and
    whose function code has the high bit clear. *)
Lemma rtu_validateResponse_frame (m : Rtu.t) (body : QByteArray) (functionCode : Z) :
  3 <= size body →
  at_ body 0 = Some (Rtu.m_slaveAddress m) →
  at_ body 1 = Some functionCode →
  Z.land functionCode 0x80 = 0 →
  Rtu.validateResponse m (Crc.frame body) = Some (true, m).
Proof.
  intros Hsz H0 H1 Hfc. unfold Rtu.validateResponse.
  rewrite size_frame. destruct (Z.ltb_spec (size body + 2) 5); [lia|].
  rewrite (at_frame body 0), (at_frame body 1) by lia.
  rewrite H0. cbn [mbind option_bind]. rewrite Z.eqb_refl. cbn [negb].
  assert (Hlo : at_ (Crc.frame body) (size body + 2 - 2)
                = Some (u8 (Crc.lo (Crc.calculateCRC16 body)))).
  { unfold Crc.frame. rewrite at_app_r by lia.
    replace (size body + 2 - 2 - size body) with 0 by lia. reflexivity. }
  assert (Hhi : at_ (Crc.frame body) (size body + 2 - 1)
                = Some (u8 (Crc.hi (Crc.calculateCRC16 body)))).
  { unfold Crc.frame. rewrite at_app_r by lia.
    replace (size body + 2 - 1 - size body) with 1 by lia. reflexivity. }
  rewrite Hlo, Hhi. cbn [mbind option_bind].
  replace (size body + 2 - 2) with (size body) by lia.
  unfold Crc.frame at 1. rewrite left_app_exact by done.
  rewrite crc_bytes_decode by apply calculateCRC16_range.
  unfold Rtu.calculateCRC16. rewrite Z.eqb_refl. cbn [negb].
  rewrite H1. cbn [mbind option_bind]. rewrite Hfc. reflexivity.
Qed.

(** Passes of the wait loop in which no event is delivered leave a waiting
    master as it is. *)
Lemma rtu_idle_passes (m : Rtu.t) (n : nat) (sched : Schedule) :
  Rtu.m_waitingForResponse m = true →
  Rtu.timerActive m = true →
  size (Rtu.m_receiveBuffer m) < 5 →
  Rtu.waitLoop m (replicate n [] ++ sched) = Rtu.waitLoop m sched.
Proof.
  intros Hw Ha Hsz. induction n as [|n IH]; [reflexivity|].
  cbn [replicate app Rtu.waitLoop]. rewrite Hw, Ha. cbn [andb].
  unfold Rtu.waitPass, Rtu.processEvents. cbn [fold_left].
  destruct (Z.geb_spec (size (Rtu.m_receiveBuffer m)) 5); [lia|].
  cbn [mbind option_bind]. exact IH.
Qed.

(** A response that validates and arrives whole in one read, after any
    number of passes in which nothing is delivered, ends the wait at once:
    [sendRequest] returns it and records no error. *)
Lemma rtu_sendRequest_accepts
    (m : Rtu.t) (request body : QByteArray) (functionCode : Z) (n : nat)
    (sched : Schedule) :
  Rtu.isConnected m = true →
  3 <= size body →
  at_ body 0 = Some (Rtu.m_slaveAddress m) →
  at_ body 1 = Some functionCode →
  Z.land functionCode 0x80 = 0 →
  Rtu.sendRequest m request
    (replicate n [] ++ [readyRead (Crc.frame body)] :: sched) =
    Some (Rtu.mk true (Rtu.m_slaveAddress m) (Rtu.m_timeout m) false
            (Crc.frame body) false (Rtu.written m ++ [request])
            (Rtu.errors m) (Rtu.exceptions m),
          Crc.frame body).
Proof.
  intros Hc Hsz H0 H1 Hfc. unfold Rtu.sendRequest. rewrite Hc. cbn [negb].
  unfold Rtu.isConnected in Hc.
  rewrite rtu_idle_passes by (destruct m; cbn; unfold size; cbn; lia || reflexivity).
  cbn [Rtu.waitLoop]. cbn [Rtu.m_waitingForResponse Rtu.timerActive
    Rtu.set_timerActive Rtu.write Rtu.set_waiting andb].
  unfold Rtu.waitPass, Rtu.processEvents. cbn [fold_left Rtu.deliver].
  unfold Rtu.onSerialDataReceived.
  cbn [Rtu.m_waitingForResponse Rtu.set_timerActive Rtu.write Rtu.set_waiting
       Rtu.set_receiveBuffer Rtu.m_receiveBuffer negb app].
  rewrite size_frame. destruct (Z.geb_spec (size body + 2) 5); [|lia].
  rewrite rtu_validateResponse_frame with (functionCode := functionCode)
    by assumption.
  cbn [mbind option_bind].
  destruct m as [o a t w b ta wr er ex]. cbn in Hc. subst o. reflexivity.
Qed.

Lemma mid_payload (head payload tail : QByteArray) :
  mid (head ++ payload ++ tail) (size head) (size payload) = payload.
Proof.
  unfold mid, size. rewrite !Nat2Z.id.
  rewrite drop_app_length, take_app_length. reflexivity.
Qed.

(** X7.  End to end: a connected master configured for the slave's address
    asks for [count] holding registers from [start] (in range); the slave
    serves the frame the master wrote, and when the slave's answer arrives
    whole in one read, as the first bytes to arrive (after any number [n] of
    passes of the wait loop in which nothing is delivered), the master
    returns exactly the slave's holding registers
    [start .. start + count - 1], with no error recorded.  (An answer that
    arrives in pieces is validated piece by piece and is not covered.) *)
Theorem master_reads_slave_holding_registers
    (m : Rtu.t) (s : Slave.t) (start count : Z) (n : nat) (sched : Schedule) :
  Rtu.isConnected m = true →
  Rtu.m_slaveAddress m = Slave.m_slaveAddress s →
  0 <= Slave.m_slaveAddress s < 256 →
  Slave.banks_sized s →
  Forall (λ v, 0 <= v < 65536) (Slave.m_holdingRegisters s) →
  0 <= start →
  1 <= count <= 125 →
  start + count <= Slave.MAX_REGISTERS →
  let request := Rtu.buildRequest m 0x03 (Rtu.twoWords start count) in
  ∃ response s' m',
    Slave.processRequest s request = Some s' ∧
    Slave.written s' = Slave.written s ++ [response] ∧
    Slave.m_holdingRegisters s' = Slave.m_holdingRegisters s ∧
    Rtu.readHoldingRegisters m start count
      (replicate n [] ++ [readyRead response] :: sched) =
      Some (m', take (Z.to_nat count)
                  (drop (Z.to_nat start) (Slave.m_holdingRegisters s))) ∧
    Rtu.written m' = Rtu.written m ++ [request] ∧
    Rtu.errors m' = Rtu.errors m.
Proof.
  intros Hc Haddr Hrange Hsized Hregs Hstart Hcount Hfit request.
  pose proof (slave_serves_holding_read s start count [] Hsized Hrange
                Hstart Hcount Hfit) as Hserve.
  rewrite app_nil_r in Hserve.
  assert (Hlen : size (appendRegisters
                         (take (Z.to_nat count)
                            (drop (Z.to_nat start)
                               (Slave.m_holdingRegisters s)))) = count * 2).
  { destruct Hsized as [Hh _]. unfold Slave.MAX_REGISTERS in *.
    rewrite size_appendRegisters, length_take, length_drop. lia. }
  set (values := take (Z.to_nat count)
                   (drop (Z.to_nat start) (Slave.m_holdingRegisters s))) in *.
  set (head := [to_char (Slave.m_slaveAddress s); to_char 3;
                to_char (count * 2)]) in *.
  eexists (Crc.frame (head ++ appendRegisters values)), _, _.
  split.
  { unfold request. rewrite rtu_buildRequest_is_frame, Haddr. exact Hserve. }
  split; [reflexivity|]. split; [reflexivity|].
  unfold Rtu.readHoldingRegisters. rewrite Hc. cbn [negb orb].
  destruct (Z.eqb_spec count 0); [lia|]. rewrite Z.gtb_ltb.
  destruct (Z.ltb_spec 125 count); [lia|]. cbn [orb].
  fold request.
  assert (Hbody : 3 <= size (head ++ appendRegisters values)).
  { rewrite size_app. change (size head) with 3.
    pose proof (size_nonneg (appendRegisters values)). lia. }
  rewrite rtu_sendRequest_accepts with (functionCode := 3); try assumption;
    try reflexivity.
  2:{ rewrite at_app_l by (change (size head) with 3; lia).
      unfold head. rewrite at_cons_0, u8_to_char_small, Haddr by lia. done. }
  cbn [mbind option_bind]. rewrite size_frame.
  destruct (Z.eqb_spec (size (head ++ appendRegisters values) + 2) 0); [lia|].
  destruct (Z.ltb_spec (size (head ++ appendRegisters values) + 2) 3); [lia|].
  cbn [orb].
  assert (Hbc : at_ (Crc.frame (head ++ appendRegisters values)) 2
                = Some (count * 2)).
  { rewrite at_frame by lia.
    rewrite at_app_l by (change (size head) with 3; lia).
    unfold head. rewrite !at_cons_pos by lia. cbn [Z.sub Z.add Z.pos_sub Z.opp].
    rewrite at_cons_0, u8_to_char_small by lia. reflexivity. }
  rewrite Hbc. cbn [mbind option_bind].
  unfold Crc.frame. rewrite <- app_assoc.
  change 3 with (size head) at 1. rewrite <- Hlen.
  rewrite mid_payload.
  assert (Hparse : parseRegisters (appendRegisters values) = values).
  { rewrite <- (app_nil_r (appendRegisters values)), parseRegisters_app;
      [apply app_nil_r|].
    unfold values. apply Forall_take, Forall_drop. exact Hregs. }
  rewrite Hparse. split; [reflexivity|]. split; reflexivity.
Qed.

Lemma master_reads_slave_holding_registers_witness :
  let m := Rtu.connected 1 in
  let s := Slave.create 1 in
  let request := Rtu.buildRequest m 0x03 (Rtu.twoWords 0 2) in
  ∃ response s' m',
    Slave.processRequest s request = Some s' ∧
    Slave.written s' = Slave.written s ++ [response] ∧
    Slave.m_holdingRegisters s' = Slave.m_holdingRegisters s ∧
    Rtu.readHoldingRegisters m 0 2 [[]; []; [readyRead response]] =
      Some (m', take (Z.to_nat 2)
                  (drop (Z.to_nat 0) (Slave.m_holdingRegisters s))) ∧
    Rtu.written m' = Rtu.written m ++ [request] ∧
    Rtu.errors m' = Rtu.errors m.
Proof.
  intros m s.
  apply (master_reads_slave_holding_registers m s 0 2 2 []).
  - reflexivity.
  - reflexivity.
  - cbn. lia.
  - split; reflexivity.
  - apply Forall_replicate. lia.
  - lia.
  - lia.
  - unfold Slave.MAX_REGISTERS. lia.
Defined.

(** X8.  End to end: a connected master configured for the slave's address
    writes [value] to the holding register [address] (below 256); the slave
    stores it, leaves every other holding register alone and echoes the
    request byte for byte; when the echo arrives whole in one read, as the
    first bytes to arrive (after any number [n] of passes of the wait loop
    in which nothing is delivered), the master returns true with no error
    recorded.  (An echo that arrives in pieces is validated piece by piece
    and is not covered.) *)
Theorem master_writes_slave_register
    (m : Rtu.t) (s : Slave.t) (address value : Z) (n : nat)
    (sched : Schedule) :
  Rtu.isConnected m = true →
  Rtu.m_slaveAddress m = Slave.m_slaveAddress s →
  0 <= Slave.m_slaveAddress s < 256 →
  Slave.banks_sized s →
  0 <= address < Slave.MAX_REGISTERS →
  0 <= value < 65536 →
  let request := Rtu.buildRequest m 0x06 (Rtu.twoWords address value) in
  ∃ s' m',
    Slave.processRequest s request = Some s' ∧
    Slave.written s' = Slave.written s ++ [request] ∧
    Slave.getHoldingRegister s' address = Some value ∧
    (∀ a, a ≠ address →
       Slave.getHoldingRegister s' a = Slave.getHoldingRegister s a) ∧
    Rtu.writeSingleRegister m address value
      (replicate n [] ++ [readyRead request] :: sched) =
      Some (m', true) ∧
    Rtu.written m' = Rtu.written m ++ [request] ∧
    Rtu.errors m' = Rtu.errors m.
Proof.
  intros Hc Haddr Hrange Hsized Ha Hv request.
  pose proof Hsized as [Hh _]. unfold Slave.MAX_REGISTERS in *.
  pose proof (slave_serves_write_single s address value [] Hsized Hrange Ha Hv)
    as Hserve.
  rewrite app_nil_r in Hserve.
  assert (Hreq : request =
                 Crc.frame (to_char (Slave.m_slaveAddress s) :: to_char 6 ::
                            Rtu.twoWords address value)).
  { unfold request. by rewrite rtu_buildRequest_is_frame, Haddr. }
  rewrite <- Hreq in Hserve.
  eexists _, _. split; [exact Hserve|]. split; [reflexivity|].
  split; [|split].
  - unfold Slave.getHoldingRegister. cbn.
    destruct (Z.geb_spec address Slave.MAX_REGISTERS) as [?|_];
      [unfold Slave.MAX_REGISTERS in *; lia|].
    apply vec_get_insert_eq. lia.
  - intros a Hne. unfold Slave.getHoldingRegister. cbn.
    destruct (a >=? Slave.MAX_REGISTERS); [done|].
    apply vec_get_insert_ne; lia.
  - unfold Rtu.writeSingleRegister. rewrite Hc. cbn [negb]. fold request.
    rewrite Hreq at 2.
    rewrite rtu_sendRequest_accepts with (functionCode := 6); try assumption;
      try reflexivity.
    + cbn [mbind option_bind]. rewrite size_frame.
      pose proof (size_nonneg (to_char (Slave.m_slaveAddress s) :: to_char 6 ::
                               Rtu.twoWords address value)).
      destruct (Z.eqb_spec (size (to_char (Slave.m_slaveAddress s) :: to_char 6 ::
                               Rtu.twoWords address value) + 2) 0); [lia|].
      split; [reflexivity|]. split; reflexivity.
    + rewrite !size_cons. pose proof (size_nonneg (Rtu.twoWords address value)).
      unfold Rtu.twoWords. rewrite !size_cons. change (size []) with 0. lia.
    + by rewrite at_cons_0, u8_to_char_small, Haddr by lia.
Qed.

Lemma master_writes_slave_register_witness :
  let m := Rtu.connected 1 in
  let s := Slave.create 1 in
  let request := Rtu.buildRequest m 0x06 (Rtu.twoWords 0 1234) in
  ∃ s' m',
    Slave.processRequest s request = Some s' ∧
    Slave.written s' = Slave.written s ++ [request] ∧
    Slave.getHoldingRegister s' 0 = Some 1234 ∧
    (∀ a, a ≠ 0 →
       Slave.getHoldingRegister s' a = Slave.getHoldingRegister s a) ∧
    Rtu.writeSingleRegister m 0 1234 [[]; [readyRead request]] =
      Some (m', true) ∧
    Rtu.written m' = Rtu.written m ++ [request] ∧
    Rtu.errors m' = Rtu.errors m.
Proof.
  intros m s.
  apply (master_writes_slave_register m s 0 1234 1 []).
  - reflexivity.
  - reflexivity.
  - cbn. lia.
  - split; reflexivity.
  - unfold Slave.MAX_REGISTERS. lia.
  - lia.
Defined.

(** The two bytes of the [k]-th value inside a frame that carries
    [appendRegisters values] after [pre]. *)
Lemma at_appendRegisters (values : list Z) :
  ∀ (pre post : QByteArray) (k : nat) (v : Z),
    values !! k = Some v →
    at_ (pre ++ appendRegisters values ++ post) (size pre + 2 * Z.of_nat k)
      = Some (u8 (to_char (Z.land (Z.shiftr v 8) 0xFF))) ∧
    at_ (pre ++ appendRegisters values ++ post) (size pre + 2 * Z.of_nat k + 1)
      = Some (u8 (to_char (Z.land v 0xFF))).
Proof.
  induction values as [|v0 values IH]; intros pre post k v Hk; [done|].
  pose proof (size_nonneg pre) as Hpre.
  rewrite appendRegisters_cons. destruct k as [|k].
  - injection Hk as ->. split.
    + rewrite at_app_r by lia.
      replace (size pre + 2 * Z.of_nat 0 - size pre) with 0 by lia.
      cbn [app]. by rewrite at_cons_0.
    + rewrite at_app_r by lia.
      replace (size pre + 2 * Z.of_nat 0 + 1 - size pre) with 1 by lia.
      cbn [app]. by rewrite at_cons_pos, at_cons_0 by lia.
  - cbn [lookup list_lookup] in Hk.
    rewrite <- (app_assoc [_; _]), (app_assoc pre).
    destruct (IH (pre ++ [to_char (Z.land (Z.shiftr v0 8) 255);
                          to_char (Z.land v0 255)]) post k v Hk) as [H1 H2].
    rewrite size_app in H1, H2. change (size [_; _]) with 2 in H1, H2.
    replace (size pre + 2 * Z.of_nat (S k)) with (size pre + 2 + 2 * Z.of_nat k)
      by lia.
    split; [exact H1|exact H2].
Qed.

(** The write loop stores the values carried by the request at
    [startAddr + i ..] and leaves the other registers alone. *)
Lemma storeRegister_loop (request : QByteArray) (startAddr : Z) (values : list Z) :
  (∀ i v, 0 <= i → values !! Z.to_nat i = Some v →
          at_ request (7 + i * 2)
            = Some (u8 (to_char (Z.land (Z.shiftr v 8) 0xFF))) ∧
          at_ request (7 + i * 2 + 1)
            = Some (u8 (to_char (Z.land v 0xFF)))) →
  Forall (λ v, 0 <= v < 65536) values →
  0 <= startAddr →
  ∀ (n : nat) (i : Z) (regs : list Z),
    0 <= i →
    i + Z.of_nat n <= Z.of_nat (length values) →
    startAddr + i + Z.of_nat n <= Z.of_nat (length regs) →
    ∃ regs',
      for_loop n i (Slave.storeRegister request startAddr) regs = Some regs' ∧
      length regs' = length regs ∧
      ∀ j, vec_get regs' j =
           if (startAddr + i <=? j) && (j <? startAddr + i + Z.of_nat n)
           then values !! Z.to_nat (j - startAddr)
           else vec_get regs j.
Proof.
  intros Hat H16 Hstart. induction n as [|n IH]; intros i regs Hi Hvals Hregs.
  - exists regs. cbn [for_loop]. split; [done|]. split; [done|].
    intros j. destruct (Z.leb_spec (startAddr + i) j); [|done].
    destruct (Z.ltb_spec j (startAddr + i + Z.of_nat 0)); [lia|done].
  - destruct (lookup_lt_is_Some_2 values (Z.to_nat i)) as [v Hv]; [lia|].
    destruct (Hat i v Hi Hv) as [Hhi Hlo].
    assert (Hv16 : 0 <= v < 65536)
      by (eapply Forall_lookup_1 in H16; [exact H16|exact Hv]).
    assert (Hstep : Slave.storeRegister request startAddr i regs
                    = Some (<[Z.to_nat (startAddr + i) := v]> regs)).
    { unfold Slave.storeRegister. rewrite Hhi, Hlo. cbn [mbind option_bind].
      rewrite u16_split by exact Hv16. apply vec_set_Some. lia. }
    cbn [for_loop]. rewrite Hstep. cbn [mbind option_bind].
    destruct (IH (i + 1) (<[Z.to_nat (startAddr + i) := v]> regs))
      as (regs' & Hloop & Hlen & Hget); [lia|lia|rewrite length_insert; lia|].
    exists regs'. split; [exact Hloop|].
    split; [by rewrite Hlen, length_insert|].
    intros j. rewrite Hget.
    destruct (Z.eq_dec j (startAddr + i)) as [->|Hne].
    + destruct (Z.leb_spec (startAddr + (i + 1)) (startAddr + i)); [lia|].
      destruct (Z.leb_spec (startAddr + i) (startAddr + i)); [|lia].
      destruct (Z.ltb_spec (startAddr + i)
                  (startAddr + i + Z.of_nat (S n))); [|lia].
      cbn [andb]. rewrite vec_get_insert_eq by lia.
      replace (startAddr + i - startAddr) with i by lia. by rewrite Hv.
    + rewrite vec_get_insert_ne by lia.
      destruct (Z.leb_spec (startAddr + (i + 1)) j),
        (Z.leb_spec (startAddr + i) j),
        (Z.ltb_spec j (startAddr + (i + 1) + Z.of_nat n)),
        (Z.ltb_spec j (startAddr + i + Z.of_nat (S n)));
        cbn [andb]; try reflexivity; lia.
Qed.

(** X9.  End to end: a connected master configured for the slave's address
    writes 1 to 123 16-bit values to the holding registers from [start]
    (all below 256); the slave stores [values[k]] in register [start + k],
    leaves every other holding register alone, emits [writeRequest] and
    answers with address, 0x10, start and count; when that answer arrives
    whole in one read, as the first bytes to arrive (after any number [n] of
    passes of the wait loop in which nothing is delivered), the master
    returns true with no error recorded.  (An answer that arrives in pieces
    is validated piece by piece and is not covered.) *)
Theorem master_writes_slave_registers
    (m : Rtu.t) (s : Slave.t) (start : Z) (values : list Z) (n : nat)
    (sched : Schedule) :
  Rtu.isConnected m = true →
  Rtu.m_slaveAddress m = Slave.m_slaveAddress s →
  0 <= Slave.m_slaveAddress s < 256 →
  Slave.banks_sized s →
  0 <= start →
  1 <= Z.of_nat (length values) <= 123 →
  start + Z.of_nat (length values) <= Slave.MAX_REGISTERS →
  Forall (λ v, 0 <= v < 65536) values →
  let count := Z.of_nat (length values) in
  let request := Rtu.buildRequest m 0x10 (Rtu.multipleRegistersData start values) in
  let response :=
    Crc.frame (to_char (Slave.m_slaveAddress s) :: to_char 0x10 ::
               Rtu.twoWords start count) in
  ∃ s' m',
    Slave.processRequest s request = Some s' ∧
    Slave.written s' = Slave.written s ++ [response] ∧
    Slave.emitted s' = Slave.emitted s ++ [Slave.writeRequest 0x10 start count] ∧
    Slave.m_inputRegisters s' = Slave.m_inputRegisters s ∧
    (∀ j, Slave.getHoldingRegister s' j =
          if (start <=? j) && (j <? start + count)
          then values !! Z.to_nat (j - start)
          else Slave.getHoldingRegister s j) ∧
    Rtu.writeMultipleRegisters m start values
      (replicate n [] ++ [readyRead response] :: sched) =
      Some (m', true) ∧
    Rtu.written m' = Rtu.written m ++ [request] ∧
    Rtu.errors m' = Rtu.errors m.
Proof.
  intros Hc Haddr Hrange Hsized Hstart Hlen Hfit H16 count request response.
  pose proof Hsized as [Hh _]. unfold Slave.MAX_REGISTERS in *.
  set (address := Slave.m_slaveAddress s) in *.
  assert (Hcount : wrap16 (Z.of_nat (length values)) = count)
    by (apply wrap16_small; unfold count; lia).
  assert (Hbc : wrap8 (count * 2) = count * 2)
    by (unfold wrap8; apply Z.mod_small; unfold count; lia).
  assert (Hreq : request =
            Crc.frame (to_char address :: to_char 16 ::
                       Rtu.twoWords start count ++
                       ([to_char (count * 2)] ++ appendRegisters values))).
  { unfold request, Rtu.multipleRegistersData.
    rewrite rtu_buildRequest_is_frame, Haddr, Hcount, Hbc. reflexivity. }
  destruct (slave_request_fields s address 16 start count
              ([to_char (count * 2)] ++ appendRegisters values))
    as (Hsz & Hcrc & H0 & H1 & a1 & a0 & b1 & b0 & H2 & H3 & H4 & H5 & Hau & Hbu & _);
    try (unfold count; lia).
  rewrite <- Hreq in Hsz, Hcrc, H0, H1, H2, H3, H4, H5.
  destruct (twoWords_fields start count) as (c1 & c0 & d1 & d0 & Htw & _ & _);
    try (unfold count; lia).
  set (pre := [to_char address; to_char 16; c1; c0; d1; d0; to_char (count * 2)]).
  assert (Hshape : request =
            pre ++ appendRegisters values ++
            [Crc.lo (Crc.calculateCRC16 (pre ++ appendRegisters values));
             Crc.hi (Crc.calculateCRC16 (pre ++ appendRegisters values))]).
  { rewrite Hreq, Htw. reflexivity. }
  assert (H6 : at_ request 6 = Some (count * 2)).
  { rewrite Hshape, at_app_l by (change (size pre) with 7; lia).
    unfold pre. rewrite !at_cons_pos by lia.
    cbn [Z.sub Z.add Z.pos_sub Z.opp].
    by rewrite at_cons_0, u8_to_char_small by (unfold count; lia). }
  assert (Hat : ∀ i v, 0 <= i → values !! Z.to_nat i = Some v →
            at_ request (7 + i * 2)
              = Some (u8 (to_char (Z.land (Z.shiftr v 8) 0xFF))) ∧
            at_ request (7 + i * 2 + 1)
              = Some (u8 (to_char (Z.land v 0xFF)))).
  { intros i v Hi Hv. rewrite Hshape.
    destruct (at_appendRegisters values pre
                [Crc.lo (Crc.calculateCRC16 (pre ++ appendRegisters values));
                 Crc.hi (Crc.calculateCRC16 (pre ++ appendRegisters values))]
                (Z.to_nat i) v Hv) as [Ha Hb].
    change (size pre) with 7 in Ha, Hb.
    replace (7 + 2 * Z.of_nat (Z.to_nat i)) with (7 + i * 2) in Ha, Hb by lia.
    split; [exact Ha|exact Hb]. }
  destruct (storeRegister_loop request start values Hat H16 Hstart
              (Z.to_nat count) 0 (Slave.m_holdingRegisters s))
    as (regs' & Hloop & Hlen' & Hget); try (unfold count; lia).
  exists (Slave.emit
            (Slave.write (Slave.set_holdingRegisters s regs') response)
            (Slave.writeRequest 16 start count)).
  assert (Hserve : Slave.processRequest s request =
            Some (Slave.emit
                    (Slave.write (Slave.set_holdingRegisters s regs') response)
                    (Slave.writeRequest 16 start count))).
  { rewrite (slave_processRequest_dispatch s request 16 Hsz Hcrc H0 H1).
    cbn [Z.eqb Pos.eqb]. unfold Slave.handleWriteMultipleRegisters.
    rewrite H2, H3, H4, H5, H6. cbn [mbind option_bind]. rewrite Hau, Hbu.
    unfold Slave.MAX_REGISTERS.
    destruct (Z.eqb_spec count 0); [unfold count in *; lia|].
    rewrite !Z.gtb_ltb.
    destruct (Z.ltb_spec 123 count); [unfold count in *; lia|].
    destruct (Z.ltb_spec 256 (start + count)); [unfold count in *; lia|].
    rewrite Z.eqb_refl. cbn [orb negb].
    rewrite Hloop. cbn [mbind option_bind].
    rewrite slave_sendResponse_is_frame. reflexivity. }
  eexists. split; [exact Hserve|].
  split; [reflexivity|]. split; [reflexivity|]. split; [reflexivity|].
  split.
  { intros j. unfold Slave.getHoldingRegister. cbn.
    rewrite Hget, Z.add_0_r, Z2Nat.id by (unfold count; lia).
    destruct (Z.geb_spec j Slave.MAX_REGISTERS) as [Hbig|_]; [|reflexivity].
    unfold Slave.MAX_REGISTERS in Hbig.
    destruct (Z.leb_spec start j); [|reflexivity].
    destruct (Z.ltb_spec j (start + count)); [unfold count in *; lia|].
    reflexivity. }
  unfold Rtu.writeMultipleRegisters. rewrite Hc. cbn [negb orb].
  destruct (Z.eqb_spec (Z.of_nat (length values)) 0); [lia|].
  rewrite Z.gtb_ltb.
  destruct (Z.ltb_spec 123 (Z.of_nat (length values))); [lia|]. cbn [orb].
  fold request. unfold response. fold address.
  rewrite rtu_sendRequest_accepts with (functionCode := 16); try assumption;
    try reflexivity.
  - cbn [mbind option_bind]. rewrite size_frame.
    pose proof (size_nonneg (to_char address :: to_char 16 ::
                             Rtu.twoWords start count)).
    destruct (Z.eqb_spec (size (to_char address :: to_char 16 ::
                             Rtu.twoWords start count) + 2) 0); [lia|].
    split; [reflexivity|]. split; reflexivity.
  - rewrite Htw, !size_cons. change (size []) with 0. lia.
  - by rewrite at_cons_0, u8_to_char_small, Haddr by lia.
Qed.

Lemma master_writes_slave_registers_witness :
  let m := Rtu.connected 1 in
  let s := Slave.create 1 in
  let request := Rtu.buildRequest m 0x10 (Rtu.multipleRegistersData 4 [7; 8]) in
  let response := Crc.frame (to_char 1 :: to_char 0x10 :: Rtu.twoWords 4 2) in
  ∃ s' m',
    Slave.processRequest s request = Some s' ∧
    Slave.written s' = Slave.written s ++ [response] ∧
    Slave.emitted s' = Slave.emitted s ++ [Slave.writeRequest 0x10 4 2] ∧
    Slave.m_inputRegisters s' = Slave.m_inputRegisters s ∧
    (∀ j, Slave.getHoldingRegister s' j =
          if (4 <=? j) && (j <? 4 + 2)
          then [7; 8] !! Z.to_nat (j - 4)
          else Slave.getHoldingRegister s j) ∧
    Rtu.writeMultipleRegisters m 4 [7; 8] [[]; []; []; [readyRead response]] =
      Some (m', true) ∧
    Rtu.written m' = Rtu.written m ++ [request] ∧
    Rtu.errors m' = Rtu.errors m.
Proof.
  intros m s.
  apply (master_writes_slave_registers m s 4 [7; 8] 3 []).
  - reflexivity.
  - reflexivity.
  - cbn. lia.
  - split; reflexivity.
  - lia.
  - cbn. lia.
  - unfold Slave.MAX_REGISTERS. cbn. lia.
  - repeat constructor; lia.
Defined.

(** ** A master that gets no answer *)

Section RtuSilence.

Variables (address timeout : Z) (sent : list QByteArray)
          (errs : list Rtu.Error) (excs : list Z).

(** The master while it waits with an empty buffer, and after the response
    timer has fired. *)
Let waiting : Rtu.t :=
  Rtu.mk true address timeout true [] true sent errs excs.
Let timedOut : Rtu.t :=
  Rtu.mk true address timeout false [] false sent
         (errs ++ [Rtu.ResponseTimeout]) excs.

Lemma rtu_silent_batch (batch : list Event) :
  Forall silent batch →
  (Rtu.processEvents waiting batch = waiting ∨
   Rtu.processEvents waiting batch = timedOut) ∧
  Rtu.processEvents timedOut batch = timedOut.
Proof.
  unfold Rtu.processEvents.
  induction 1 as [|e batch [-> | ->] _ [IHw IHt]]; cbn [fold_left].
  - by split; [left|].
  - change (Rtu.deliver waiting timerExpired) with timedOut.
    change (Rtu.deliver timedOut timerExpired) with timedOut.
    by split; [right|].
  - change (Rtu.deliver waiting (readyRead [])) with waiting.
    change (Rtu.deliver timedOut (readyRead [])) with timedOut.
    by split.
Qed.

Lemma rtu_silent_waitLoop (sched : Schedule) :
  Forall (Forall silent) sched →
  Rtu.waitLoop waiting sched = Some timedOut.
Proof.
  induction 1 as [|batch sched Hbatch _ IH]; [reflexivity|].
  destruct (rtu_silent_batch batch Hbatch) as [[Hw | Hw] _].
  - cbn [Rtu.waitLoop]. change (Rtu.m_waitingForResponse waiting) with true.
    change (Rtu.timerActive waiting) with true. cbn [andb].
    unfold Rtu.waitPass. rewrite Hw. cbn. exact IH.
  - cbn [Rtu.waitLoop]. change (Rtu.m_waitingForResponse waiting) with true.
    change (Rtu.timerActive waiting) with true. cbn [andb].
    unfold Rtu.waitPass. rewrite Hw. cbn. by destruct sched.
Qed.

End RtuSilence.

Lemma rtu_sendRequest_silence (m : Rtu.t) (request : QByteArray) (sched : Schedule) :
  Rtu.isConnected m = true →
  Forall (Forall silent) sched →
  Rtu.sendRequest m request sched =
    Some (Rtu.mk true (Rtu.m_slaveAddress m) (Rtu.m_timeout m) false [] false
            (Rtu.written m ++ [request])
            (Rtu.errors m ++ [Rtu.ResponseTimeout]) (Rtu.exceptions m),
          []).
Proof.
  intros Hc Hs. unfold Rtu.sendRequest. rewrite Hc. cbn [negb].
  unfold Rtu.isConnected in Hc.
  unfold Rtu.set_timerActive, Rtu.write, Rtu.set_waiting, Rtu.set_receiveBuffer.
  cbn. rewrite Hc.
  rewrite (rtu_silent_waitLoop (Rtu.m_slaveAddress m) (Rtu.m_timeout m)
             (Rtu.written m ++ [request]) (Rtu.errors m) (Rtu.exceptions m)
             sched Hs).
  reflexivity.
Qed.

(** X10.  When no byte arrives before the response timer expires, every
    operation of a connected master returns its failure value (no
    registers, no coils, false), has sent its request exactly once and has
    recorded exactly one "Response timeout" error. *)
Theorem rtu_no_answer_fails
    (m : Rtu.t) (sched : Schedule) (start count value : Z) (coil : bool)
    (coils : list bool) (values : list Z) :
  Rtu.isConnected m = true →
  Forall (Forall silent) sched →
  let after request :=
    Rtu.mk true (Rtu.m_slaveAddress m) (Rtu.m_timeout m) false [] false
      (Rtu.written m ++ [request])
      (Rtu.errors m ++ [Rtu.ResponseTimeout]) (Rtu.exceptions m) in
  (1 <= count <= 2000 →
   Rtu.readCoils m start count sched =
     Some (after (Rtu.buildRequest m 0x01 (Rtu.twoWords start count)), []) ∧
   Rtu.readDiscreteInputs m start count sched =
     Some (after (Rtu.buildRequest m 0x02 (Rtu.twoWords start count)), [])) ∧
  (1 <= count <= 125 →
   Rtu.readHoldingRegisters m start count sched =
     Some (after (Rtu.buildRequest m 0x03 (Rtu.twoWords start count)), []) ∧
   Rtu.readInputRegisters m start count sched =
     Some (after (Rtu.buildRequest m 0x04 (Rtu.twoWords start count)), [])) ∧
  (∃ request, Rtu.writeSingleCoil m start coil sched =
                Some (after request, false)) ∧
  Rtu.writeSingleRegister m start value sched =
    Some (after (Rtu.buildRequest m 0x06 (Rtu.twoWords start value)), false) ∧
  (1 <= Z.of_nat (length coils) <= 1968 →
   Rtu.writeMultipleCoils m start coils sched =
     Some (after (Rtu.buildRequest m 0x0F (Rtu.multipleCoilsData start coils)),
           false)) ∧
  (1 <= Z.of_nat (length values) <= 123 →
   Rtu.writeMultipleRegisters m start values sched =
     Some (after (Rtu.buildRequest m 0x10
                    (Rtu.multipleRegistersData start values)), false)).
Proof.
  intros Hc Hs after.
  assert (Hguard : ∀ n lim, 1 <= n <= lim →
            negb (Rtu.isConnected m) || (n =? 0) || (n >? lim) = false).
  { intros n lim Hn. rewrite Hc, Z.gtb_ltb. cbn [negb orb].
    destruct (Z.eqb_spec n 0); [lia|].
    destruct (Z.ltb_spec lim n); [lia|]. reflexivity. }
  split.
  { intros Hn. split.
    - unfold Rtu.readCoils. rewrite Hguard by exact Hn.
      by rewrite rtu_sendRequest_silence.
    - unfold Rtu.readDiscreteInputs. rewrite Hguard by exact Hn.
      by rewrite rtu_sendRequest_silence. }
  split.
  { intros Hn. split.
    - unfold Rtu.readHoldingRegisters. rewrite Hguard by exact Hn.
      by rewrite rtu_sendRequest_silence.
    - unfold Rtu.readInputRegisters. rewrite Hguard by exact Hn.
      by rewrite rtu_sendRequest_silence. }
  split.
  { eexists. unfold Rtu.writeSingleCoil. rewrite Hc. cbn [negb].
    by rewrite rtu_sendRequest_silence. }
  split.
  { unfold Rtu.writeSingleRegister. rewrite Hc. cbn [negb].
    by rewrite rtu_sendRequest_silence. }
  split.
  - intros Hn. unfold Rtu.writeMultipleCoils. rewrite Hguard by exact Hn.
    by rewrite rtu_sendRequest_silence.
  - intros Hn. unfold Rtu.writeMultipleRegisters. rewrite Hguard by exact Hn.
    by rewrite rtu_sendRequest_silence.
Qed.

Lemma rtu_no_answer_fails_witness :
  let m := Rtu.connected 1 in
  Rtu.writeSingleRegister m 0 1 [[readyRead []]; [timerExpired]] =
    Some (Rtu.mk true 1 1000 false [] false
            [Rtu.buildRequest m 0x06 (Rtu.twoWords 0 1)]
            [Rtu.ResponseTimeout] [], false).
Proof.
  intros m.
  refine (proj1 (proj2 (proj2 (proj2
    (rtu_no_answer_fails m [[readyRead []]; [timerExpired]] 0 1 1 true [] []
       _ _))))).
  - reflexivity.
  - repeat first [apply List.Forall_nil | apply List.Forall_cons
                 | by left | by right].
Defined.

(** ** Coils: packing and unpacking *)

Lemma lor_pow2_disjoint (byte k : Z) :
  0 <= k → 0 <= byte < 2 ^ k → Z.lor byte (2 ^ k) = byte + 2 ^ k.
Proof.
  intros Hk Hb.
  assert (Hdisj : Z.land byte (2 ^ k) = 0).
  { apply Z.bits_inj'. intros n Hn. rewrite Z.land_spec, Z.bits_0.
    rewrite Z.pow2_bits_eqb by lia.
    destruct (Z.eqb_spec k n) as [<-|]; [|apply andb_false_r].
    rewrite <- (Z.mod_small byte (2 ^ k)) by lia.
    rewrite Z.mod_pow2_bits_high by lia. reflexivity. }
  by rewrite <- Z.lxor_lor, <- Z.add_nocarry_lxor.
Qed.

Lemma testbit_above (byte k n : Z) :
  0 <= byte < 2 ^ k → 0 <= k <= n → Z.testbit byte n = false.
Proof.
  intros Hb Hk. rewrite <- (Z.mod_small byte (2 ^ k)) by lia.
  apply Z.mod_pow2_bits_high. lia.
Qed.

(** [(byte & (1 << bit)) != 0] tests the bit. *)
Lemma land_shiftl_testbit (byte bit : Z) :
  0 <= bit → negb (Z.land byte (Z.shiftl 1 bit) =? 0) = Z.testbit byte bit.
Proof.
  intros Hbit. rewrite Z.shiftl_1_l.
  assert (H : Z.land byte (2 ^ bit) = if Z.testbit byte bit then 2 ^ bit else 0).
  { apply Z.bits_inj'. intros n Hn. rewrite Z.land_spec, Z.pow2_bits_eqb by lia.
    destruct (Z.eqb_spec bit n) as [<-|Hne].
    - destruct (Z.testbit byte bit) eqn:E.
      + rewrite Z.pow2_bits_eqb, Z.eqb_refl by lia. reflexivity.
      + by rewrite Z.bits_0.
    - rewrite andb_false_r. destruct (Z.testbit byte bit).
      + rewrite Z.pow2_bits_eqb by lia. symmetry. by apply Z.eqb_neq.
      + by rewrite Z.bits_0. }
  rewrite H. destruct (Z.testbit byte bit); [|reflexivity].
  assert (0 < 2 ^ bit) by (apply Z.pow_pos_nonneg; lia).
  destruct (Z.eqb_spec (2 ^ bit) 0); [lia|reflexivity].
Qed.

(** The bit [n] of a byte packed by [packBits] from position [k] on. *)
Lemma packBits_spec (values : list bool) (count i : Z) (d : nat) :
  ∀ (k : nat) (byte : Z),
    (k + d = 8)%nat →
    0 <= byte < 2 ^ Z.of_nat k →
    let r := packBits values count i (map Z.of_nat (seq k d)) byte in
    0 <= r < 256 ∧
    ∀ n, 0 <= n < 8 →
         Z.testbit r n =
           if n <? Z.of_nat k then Z.testbit byte n
           else (i * 8 + n <? count) &&
                default false (values !! Z.to_nat (i * 8 + n)).
Proof.
  induction d as [|d IH]; intros k byte Hk Hb r.
  - assert (k = 8%nat) as -> by lia. subst r. cbn [seq map packBits].
    change (2 ^ Z.of_nat 8) with 256 in Hb. split; [lia|].
    intros n Hn. destruct (Z.ltb_spec n (Z.of_nat 8)); [done|lia].
  - assert (Hpow : 2 ^ Z.of_nat (S k) = 2 * 2 ^ Z.of_nat k)
      by (rewrite Nat2Z.inj_succ, Z.pow_succ_r by lia; reflexivity).
    assert (Hle : 2 ^ Z.of_nat (S k) <= 256).
    { change 256 with (2 ^ 8). apply Z.pow_le_mono_r; lia. }
    subst r. cbn [seq map packBits].
    destruct (Z.ltb_spec (i * 8 + Z.of_nat k) count) as [Hin|Hout].
    + set (v := default false (values !! Z.to_nat (i * 8 + Z.of_nat k))).
      set (byte' := if v then wrap8 (Z.lor byte (Z.shiftl 1 (Z.of_nat k)))
                    else byte).
      assert (Hval : byte' = if v then byte + 2 ^ Z.of_nat k else byte).
      { unfold byte'. destruct v; [|done].
        rewrite Z.shiftl_1_l, lor_pow2_disjoint by lia.
        unfold wrap8. apply Z.mod_small. change (2 ^ 8) with 256. lia. }
      assert (Hbits : ∀ n, 0 <= n →
                Z.testbit byte' n =
                  Z.testbit byte n || (v && (Z.of_nat k =? n))).
      { intros n Hn. unfold byte'. destruct v.
        - rewrite Z.shiftl_1_l. unfold wrap8. rewrite Z.mod_small.
          + by rewrite Z.lor_spec, Z.pow2_bits_eqb by lia.
          + rewrite lor_pow2_disjoint by lia. change (2 ^ 8) with 256. lia.
        - by rewrite orb_false_r. }
      destruct (IH (S k) byte') as [Hr Hn]; [lia| |].
      { rewrite Hval, Hpow. destruct v; lia. }
      split; [exact Hr|]. intros n Hn8. rewrite Hn by exact Hn8.
      destruct (Z.ltb_spec n (Z.of_nat (S k))) as [Hlt|Hge].
      * rewrite Hbits by lia.
        destruct (Z.ltb_spec n (Z.of_nat k)) as [Hlt'|Hge'].
        -- destruct (Z.eqb_spec (Z.of_nat k) n); [lia|].
           by rewrite andb_false_r, orb_false_r.
        -- assert (n = Z.of_nat k) as -> by lia.
           rewrite (testbit_above byte (Z.of_nat k)) by lia.
           rewrite Z.eqb_refl, andb_true_r.
           destruct (Z.ltb_spec (i * 8 + Z.of_nat k) count); [|lia].
           reflexivity.
      * destruct (Z.ltb_spec n (Z.of_nat k)); [lia|]. reflexivity.
    + split; [lia|]. intros n Hn.
      destruct (Z.ltb_spec n (Z.of_nat k)); [reflexivity|].
      rewrite (testbit_above byte (Z.of_nat k)) by lia.
      destruct (Z.ltb_spec (i * 8 + n) count); [lia|reflexivity].
Qed.

Lemma omap_seq_lookup {A : Type} (f : nat → option A) (l : list A) :
  ∀ k, (∀ i x, l !! i = Some x → f (k + i)%nat = Some x) →
       omap f (seq k (length l)) = l.
Proof.
  induction l as [|x l IH]; intros k Hf; [reflexivity|].
  assert (Hk : f k = Some x)
    by (rewrite <- (Nat.add_0_r k); by apply Hf).
  cbn [length seq omap list_omap]. rewrite Hk. f_equal. apply IH.
  intros i y Hy. replace (S k + i)%nat with (k + S i)%nat by lia.
  by apply Hf.
Qed.

Lemma at_map_seq (g : nat → byte) (n : nat) (j : Z) :
  0 <= j < Z.of_nat n → at_ (map g (seq 0 n)) j = Some (u8 (g (Z.to_nat j))).
Proof.
  intros Hj. unfold at_. destruct (Z.ltb_spec j 0); [lia|].
  change (map g (seq 0 n)) with (g <$> seq 0 n).
  rewrite list_lookup_fmap, lookup_seq_lt by lia. reflexivity.
Qed.

(** X11.  The payload [writeMultipleCoils] builds for 1 to 1968 coils is
    start, count, the byte count [(count + 7) / 8] and that many packed
    bytes; and [parseBooleans], the decoder of the coil reads, recovers
    exactly the coils from the packed bytes. *)
Theorem coils_pack_parse (start : Z) (values : list bool) :
  1 <= Z.of_nat (length values) <= 1968 →
  let count := Z.of_nat (length values) in
  let byteCount := (count + 7) / 8 in
  let packed := packCoils values count byteCount in
  Rtu.multipleCoilsData start values =
    Rtu.twoWords start count ++ [to_char byteCount] ++ packed ∧
  size packed = byteCount ∧
  parseBooleans packed count = values.
Proof.
  intros Hlen count byteCount packed.
  assert (Hcount : wrap16 (Z.of_nat (length values)) = count)
    by (apply wrap16_small; unfold count; lia).
  assert (Hbc : wrap8 ((count + 7) / 8) = byteCount).
  { unfold wrap8. apply Z.mod_small. change (2 ^ 8) with 256.
    unfold byteCount, count in *. lia. }
  assert (Hsize : size packed = byteCount).
  { unfold packed, packCoils, size. rewrite length_map, length_seq.
    unfold byteCount, count in *. lia. }
  split; [|split; [exact Hsize|]].
  { unfold Rtu.multipleCoilsData. rewrite Hcount, Hbc. reflexivity. }
  unfold parseBooleans.
  replace (Z.to_nat count) with (length values) by (unfold count; lia).
  apply omap_seq_lookup. intros i x Hx. cbn [Nat.add].
  assert (Hi : Z.of_nat i < count)
    by (apply lookup_lt_Some in Hx; unfold count; lia).
  rewrite Hsize.
  destruct (Z.ltb_spec (Z.of_nat i / 8) byteCount) as [_|Hbad];
    [|unfold byteCount in *; lia].
  unfold packed, packCoils.
  rewrite at_map_seq by (unfold byteCount in *; lia).
  cbn [mbind option_bind]. f_equal.
  destruct (packBits_spec values count (Z.of_nat (Z.to_nat (Z.of_nat i / 8)))
              8 0 0 eq_refl) as [Hr Hbits]; [cbn; lia|].
  cbv zeta in Hr, Hbits. change (map Z.of_nat (seq 0 8))
    with [0; 1; 2; 3; 4; 5; 6; 7] in Hr, Hbits.
  rewrite u8_to_char_small by exact Hr.
  rewrite land_shiftl_testbit by lia.
  rewrite Hbits by lia.
  destruct (Z.ltb_spec (Z.of_nat i mod 8) (Z.of_nat 0)); [lia|].
  replace (Z.of_nat (Z.to_nat (Z.of_nat i / 8)) * 8 + Z.of_nat i mod 8)
    with (Z.of_nat i) by lia.
  destruct (Z.ltb_spec (Z.of_nat i) count); [|lia].
  rewrite Nat2Z.id, Hx. reflexivity.
Qed.

Lemma coils_pack_parse_witness :
  let values := [true; false; true; true; false; false; false; false; true] in
  Rtu.multipleCoilsData 0 values =
    Rtu.twoWords 0 9 ++ [to_char 2] ++ bytes [0x0D; 0x01] ∧
  parseBooleans (bytes [0x0D; 0x01]) 9 = values.
Proof.
  intros values.
  destruct (coils_pack_parse 0 values) as (H1 & _ & H3); [cbn; lia|].
  split; [exact H1|exact H3].
Defined.

(** ** What the slave never does *)

(** X12.  Whatever frame the slave is given, if [processRequest] is defined
    it writes nothing or exactly one frame, and a frame it writes is at
    least three bytes followed by their CRC16: it passes [verifyCRC]. *)
Theorem slave_answers_at_most_once (s s' : Slave.t) (request : QByteArray) :
  Slave.processRequest s request = Some s' →
  Slave.written s' = Slave.written s ∨
  ∃ body, 3 <= size body ∧
          Slave.written s' = Slave.written s ++ [Crc.frame body] ∧
          Slave.verifyCRC (Crc.frame body) = Some true.
Proof.
  assert (Hframe : ∀ s0 body, 3 <= size body →
            ∃ body0, 3 <= size body0 ∧
              Slave.written (Slave.sendResponse s0 body) =
                Slave.written s0 ++ [Crc.frame body0] ∧
              Slave.verifyCRC (Crc.frame body0) = Some true).
  { intros s0 body Hsz. exists body. split; [exact Hsz|].
    rewrite slave_sendResponse_is_frame. split; [reflexivity|].
    apply verifyCRC_trailer. lia. }
  assert (Hexc : ∀ fc ec,
            ∃ body0, 3 <= size body0 ∧
              Slave.written (Slave.sendException s fc ec) =
                Slave.written s ++ [Crc.frame body0] ∧
              Slave.verifyCRC (Crc.frame body0) = Some true).
  { intros fc ec. unfold Slave.sendException. apply Hframe.
    rewrite !size_cons. change (size []) with 0. lia. }
  unfold Slave.processRequest. intros Hp.
  destruct (Z.ltb_spec (size request) 6) as [?|Hsz];
    [left; by injection Hp as <-|].
  destruct (Slave.verifyCRC request) as [[|]|]; cbn in Hp;
    [|left; by injection Hp as <-|done].
  destruct (at_ request 0) as [address|]; [|done]. cbn in Hp.
  destruct (negb (address =? _)); [left; by injection Hp as <-|].
  destruct (at_ request 1) as [functionCode|]; [|done]. cbn in Hp.
  right.
  destruct (functionCode =? 3).
  { unfold Slave.handleReadHoldingRegisters in Hp. read_bytes Hp.
    destruct (_ || _); [injection Hp as <-; apply Hexc|].
    destruct (for_loop _ _ _ _) as [response|] eqn:Hloop; [|done].
    injection Hp as <-. cbn [Slave.written Slave.emit]. apply Hframe.
    apply (for_loop_invariant (λ r : list byte, 3 <= size r)) in Hloop;
      [exact Hloop| |rewrite !size_cons; change (size []) with 0; lia].
    intros i r r' Hr Hsz'. unfold Slave.appendRegister in Hr.
    destruct (vec_get _ _); [|done]. injection Hr as <-.
    rewrite size_app. change (size [_; _]) with 2. lia. }
  destruct (functionCode =? 4).
  { unfold Slave.handleReadInputRegisters in Hp. read_bytes Hp.
    destruct (_ || _); [injection Hp as <-; apply Hexc|].
    destruct (for_loop _ _ _ _) as [response|] eqn:Hloop; [|done].
    injection Hp as <-. cbn [Slave.written Slave.emit]. apply Hframe.
    apply (for_loop_invariant (λ r : list byte, 3 <= size r)) in Hloop;
      [exact Hloop| |rewrite !size_cons; change (size []) with 0; lia].
    intros i r r' Hr Hsz'. unfold Slave.appendRegister in Hr.
    destruct (vec_get _ _); [|done]. injection Hr as <-.
    rewrite size_app. change (size [_; _]) with 2. lia. }
  destruct (functionCode =? 6).
  { unfold Slave.handleWriteSingleRegister in Hp. read_bytes Hp.
    destruct (_ >=? _); [injection Hp as <-; apply Hexc|].
    destruct (vec_set _ _ _) as [regs|]; [|done].
    injection Hp as <-. cbn [Slave.written Slave.emit].
    destruct (Hframe (Slave.set_holdingRegisters s regs) (left request 6))
      as (body & ? & ? & ?); [|by exists body].
    unfold left. destruct (Z.geb_spec 6 (size request)); [lia|].
    change (6 <? 0) with false. cbv iota.
    unfold size in *. rewrite length_take. lia. }
  destruct (functionCode =? 16); [|injection Hp as <-; apply Hexc].
  unfold Slave.handleWriteMultipleRegisters in Hp. read_bytes Hp.
  destruct (_ || _); [injection Hp as <-; apply Hexc|].
  destruct (for_loop _ _ _ _) as [regs|]; [|done].
  injection Hp as <-. cbn [Slave.written Slave.emit].
  destruct (Hframe (Slave.set_holdingRegisters s regs)
              [to_char (Slave.m_slaveAddress s); to_char 16;
               to_char (Z.land (Z.shiftr (u16 z z0) 8) 255);
               to_char (Z.land (u16 z z0) 255);
               to_char (Z.land (Z.shiftr (u16 z1 z2) 8) 255);
               to_char (Z.land (u16 z1 z2) 255)])
    as (body & ? & ? & ?); [|by exists body].
  rewrite !size_cons. change (size []) with 0. lia.
Qed.

Lemma slave_answers_at_most_once_witness :
  let s := Slave.create 1 in
  let request := bytes [0x01; 0x06; 0x00; 0x00; 0x04; 0xD2; 0x0B; 0x57] in
  ∃ s', Slave.processRequest s request = Some s' ∧
        (Slave.written s' = Slave.written s ∨
         ∃ body, 3 <= size body ∧
                 Slave.written s' = Slave.written s ++ [Crc.frame body] ∧
                 Slave.verifyCRC (Crc.frame body) = Some true).
Proof.
  intros s request. eexists. split; [vm_compute; reflexivity|].
  apply (slave_answers_at_most_once s _ request).
  vm_compute. reflexivity.
Defined.

(** ** Modbus TCP: header, answers, exceptions *)

(** X13.  The frame [buildRequest] produces is the MBAP header followed by
    the function code and the data: the transaction id in force (big-endian),
    protocol id 0, a length field that counts exactly the bytes after it,
    the unit id; the transaction id then advances by one modulo 65536, and
    the id [sendRequest] will expect is the one just sent. *)
Theorem tcp_request_header (m : Tcp.t) (functionCode : Z) (data : QByteArray) :
  0 <= Tcp.m_transactionId m < 65536 →
  size data + 2 < 65536 →
  let '(m', request) := Tcp.buildRequest m functionCode data in
  ∃ t1 t0 l1 l0,
    request = [t1; t0; x00; x00; l1; l0; to_char (Tcp.m_unitId m);
               to_char functionCode] ++ data ∧
    u16 (u8 t1) (u8 t0) = Tcp.m_transactionId m ∧
    u16 (u8 l1) (u8 l0) = size data + 2 ∧
    size request = 6 + (size data + 2) ∧
    Tcp.m_transactionId m' = (Tcp.m_transactionId m + 1) mod 65536 ∧
    wrap16 (Tcp.m_transactionId m' - 1) = Tcp.m_transactionId m.
Proof.
  intros Ht Hd. unfold Tcp.buildRequest.
  pose proof (size_nonneg data) as Hdata.
  rewrite (wrap16_small (size data + 2)) by lia.
  eexists _, _, _, _. split; [reflexivity|].
  split; [by apply u16_split|]. split; [apply u16_split; lia|].
  split; [cbn [app]; rewrite !size_cons; lia|].
  cbn [Tcp.m_transactionId Tcp.set_transactionId]. unfold wrap16.
  split; [reflexivity|]. lia.
Qed.

Lemma tcp_request_header_witness :
  ∃ t1 t0 l1 l0,
    snd (Tcp.buildRequest (Tcp.set_transactionId Tcp.connected 0xFFFF) 0x03
           (Tcp.twoWords 0 10)) =
      [t1; t0; x00; x00; l1; l0; to_char 1; to_char 0x03] ++ Tcp.twoWords 0 10 ∧
    u16 (u8 t1) (u8 t0) = 0xFFFF ∧
    u16 (u8 l1) (u8 l0) = 6 ∧
    Tcp.m_transactionId
      (fst (Tcp.buildRequest (Tcp.set_transactionId Tcp.connected 0xFFFF) 0x03
              (Tcp.twoWords 0 10))) = 0.
Proof.
  pose proof (tcp_request_header (Tcp.set_transactionId Tcp.connected 0xFFFF)
                0x03 (Tcp.twoWords 0 10)) as H.
  destruct (Tcp.buildRequest _ _ _) as [m' request] eqn:E.
  destruct H as (t1 & t0 & l1 & l0 & H1 & H2 & H3 & _ & H5 & _);
    [cbn; lia|unfold size; cbn; lia|].
  exists t1, t0, l1, l0. cbn [fst snd].
  split; [exact H1|]. split; [exact H2|]. split; [exact H3|exact H5].
Defined.

(** A complete, matching response arriving in the first pass ends the
    wait: [sendRequest] returns it and records no error. *)
Lemma tcp_sendRequest_accepts
    (m : Tcp.t) (request : QByteArray) (sched : Schedule)
    (t_hi t_lo p_hi p_lo l_hi l_lo unit fc : byte) (payload : QByteArray) :
  let response :=
    t_hi :: t_lo :: p_hi :: p_lo :: l_hi :: l_lo :: unit :: fc :: payload in
  Tcp.isConnected m = true →
  u16 (u8 t_hi) (u8 t_lo) = wrap16 (Tcp.m_transactionId m - 1) →
  u8 p_hi = 0 → u8 p_lo = 0 →
  u8 unit = Tcp.m_unitId m →
  Z.land (u8 fc) 0x80 = 0 →
  size response >= 6 + u16 (u8 l_hi) (u8 l_lo) →
  Tcp.sendRequest m request ([readyRead response] :: sched) =
    Some (Tcp.mk true (Tcp.m_unitId m) (Tcp.m_timeout m) false
            (Tcp.m_transactionId m) response false
            (Tcp.written m ++ [request]) (Tcp.errors m) (Tcp.exceptions m),
          response).
Proof.
  intros response Hc Ht Hp2 Hp3 Hu Hfc Hlen.
  destruct m as [sock unitId timeout w txid buffer ta sent errs excs].
  cbn [Tcp.isConnected Tcp.socketConnected Tcp.m_transactionId Tcp.m_unitId
       Tcp.m_timeout Tcp.written Tcp.errors Tcp.exceptions] in *.
  subst sock. unfold Tcp.sendRequest.
  cbv [Tcp.isConnected Tcp.socketConnected negb Tcp.set_receiveBuffer
       Tcp.set_waiting Tcp.write Tcp.set_timerActive Tcp.m_unitId Tcp.m_timeout
       Tcp.m_waitingForResponse Tcp.m_transactionId Tcp.m_receiveBuffer
       Tcp.timerActive Tcp.written Tcp.errors Tcp.exceptions].
  cbn [Tcp.waitLoop Tcp.m_waitingForResponse Tcp.timerActive andb].
  pose proof (tcp_waitPass_accepts
                (Tcp.mk true unitId timeout true txid [] true
                        (sent ++ [request]) errs excs)
                (wrap16 (txid - 1))
                t_hi t_lo p_hi p_lo l_hi l_lo unit fc payload) as Hpass.
  cbv zeta in Hpass. fold response in Hpass.
  rewrite Hpass by (try assumption; reflexivity).
  reflexivity.
Qed.

(** X14.  A connected TCP master asking for holding registers returns the
    registers decoded from the data bytes of the response when that response
    arrives complete in one piece, carries the transaction id of the
    request, protocol id 0, the master's unit id, a function code below
    0x80 and a byte count equal to the number of its data bytes (at least
    one); no error is recorded and the transaction id has advanced. *)
Theorem tcp_read_returns_response_registers
    (m : Tcp.t) (start count : Z) (sched : Schedule)
    (t_hi t_lo l_hi l_lo unit fc bc : byte) (data : QByteArray) :
  let response :=
    [t_hi; t_lo; x00; x00; l_hi; l_lo; unit; fc; bc] ++ data in
  Tcp.isConnected m = true →
  0 <= Tcp.m_transactionId m < 65536 →
  1 <= count <= 125 →
  u16 (u8 t_hi) (u8 t_lo) = Tcp.m_transactionId m →
  u8 unit = Tcp.m_unitId m →
  Z.land (u8 fc) 0x80 = 0 →
  u16 (u8 l_hi) (u8 l_lo) <= 3 + size data →
  u8 bc = size data →
  data ≠ [] →
  ∃ m', Tcp.readHoldingRegisters m start count ([readyRead response] :: sched)
          = Some (m', parseRegisters data) ∧
        Tcp.errors m' = Tcp.errors m ∧
        Tcp.m_transactionId m' = wrap16 (Tcp.m_transactionId m + 1) ∧
        Tcp.m_receiveBuffer m' = response.
Proof.
  intros response Hc Ht Hcount Hid Hu Hfc Hlen Hbc Hdata.
  unfold Tcp.readHoldingRegisters. rewrite Hc. cbn [negb orb].
  destruct (Z.eqb_spec count 0); [lia|]. rewrite Z.gtb_ltb.
  destruct (Z.ltb_spec 125 count); [lia|]. cbn [orb].
  unfold Tcp.buildRequest.
  set (request := _ ++ Tcp.twoWords start count).
  set (m1 := Tcp.set_transactionId m _).
  assert (Hsize : size response = 9 + size data).
  { unfold response. rewrite size_app, !size_cons. change (size []) with 0. lia. }
  assert (Hpos : 0 < size data).
  { destruct data; [done|]. rewrite size_cons. pose proof (size_nonneg data). lia. }
  pose proof (tcp_sendRequest_accepts m1 request sched
                t_hi t_lo x00 x00 l_hi l_lo unit fc (bc :: data)) as Hsend.
  cbv zeta in Hsend. change (t_hi :: t_lo :: x00 :: x00 :: l_hi :: l_lo ::
                             unit :: fc :: bc :: data) with response in Hsend.
  rewrite Hsend; try assumption; try reflexivity.
  - cbn [mbind option_bind]. rewrite Hsize.
    destruct (Z.eqb_spec (9 + size data) 0); [lia|].
    destruct (Z.ltb_spec (9 + size data) 10); [lia|]. cbn [orb].
    assert (H8 : at_ response 8 = Some (u8 bc)).
    { unfold response. cbn [app]. rewrite !at_cons_pos by lia.
      cbn [Z.sub Z.add Z.pos_sub Z.opp]. apply at_cons_0. }
    assert (Hmid : mid response 9 (size data) = data).
    { pose proof (mid_payload [t_hi; t_lo; x00; x00; l_hi; l_lo; unit; fc; bc]
                    data []) as Hp.
      rewrite app_nil_r in Hp. exact Hp. }
    rewrite H8. cbn [mbind option_bind]. rewrite Hbc, Hmid.
    eexists. split; [reflexivity|]. split; [reflexivity|].
    split; reflexivity.
  - cbn [Tcp.m_transactionId m1 Tcp.set_transactionId]. rewrite Hid.
    unfold wrap16. lia.
  - lia.
Qed.

Lemma tcp_read_returns_response_registers_witness :
  let response := [x00; x00; x00; x00; x00; x05; x01; x03; x02] ++ [x12; x34] in
  ∃ m', Tcp.readHoldingRegisters Tcp.connected 0 1 [[readyRead response]]
          = Some (m', parseRegisters [x12; x34]) ∧
        Tcp.errors m' = Tcp.errors Tcp.connected ∧
        Tcp.m_transactionId m' = wrap16 (Tcp.m_transactionId Tcp.connected + 1) ∧
        Tcp.m_receiveBuffer m' = response.
Proof.
  intros response.
  apply (tcp_read_returns_response_registers Tcp.connected 0 1 []
           x00 x00 x00 x05 x01 x03 x02 [x12; x34]);
    try reflexivity; try (cbn; lia); try (vm_compute; discriminate).
Defined.

Lemma tcp_validateResponse_exception
    (m : Tcp.t) (expected : Z)
    (t_hi t_lo l_hi l_lo unit fc ec : byte) (rest : QByteArray) :
  u16 (u8 t_hi) (u8 t_lo) = expected →
  u8 unit = Tcp.m_unitId m →
  Z.land (u8 fc) 0x80 ≠ 0 →
  Tcp.validateResponse m
    (t_hi :: t_lo :: x00 :: x00 :: l_hi :: l_lo :: unit :: fc :: ec :: rest)
    expected =
    Some (false,
          Tcp.setError (Tcp.emit_modbusException m (u8 ec))
                       (Tcp.ModbusException (u8 ec))).
Proof.
  intros Ht Hu Hfc. unfold Tcp.validateResponse.
  destruct (tcp_header_fields t_hi t_lo x00 x00 l_hi l_lo unit fc (ec :: rest))
    as (H0 & H1 & H2 & H3 & _ & _ & H6 & H7 & Hsz).
  cbv zeta in *. rewrite Hsz, H0, H1. cbn [mbind option_bind].
  rewrite Ht, Z.eqb_refl. cbn [negb].
  rewrite H2. cbn [mbind option_bind]. change (u8 x00 =? 0) with true.
  cbn [negb]. rewrite H3. cbn [mbind option_bind].
  change (u8 x00 =? 0) with true. cbn [negb].
  rewrite H6. cbn [mbind option_bind]. rewrite Hu, Z.eqb_refl. cbn [negb].
  rewrite H7. cbn [mbind option_bind].
  destruct (Z.eqb_spec (Z.land (u8 fc) 128) 0); [done|]. cbn [negb].
  assert (H8 : at_ (t_hi :: t_lo :: x00 :: x00 :: l_hi :: l_lo :: unit :: fc
                      :: ec :: rest) 8 = Some (u8 ec)).
  { rewrite !at_cons_pos by lia. cbn [Z.sub Z.add Z.pos_sub Z.opp].
    apply at_cons_0. }
  rewrite H8. reflexivity.
Qed.

(** A pass that ends with an exception response in the buffer validates it,
    records the exception and goes on waiting. *)
Lemma tcp_waitPass_exception
    (m m1 : Tcp.t) (expected : Z) (batch : list Event)
    (t_hi t_lo l_hi l_lo unit fc ec : byte) :
  Tcp.processEvents m batch = m1 →
  Tcp.m_receiveBuffer m1 = [t_hi; t_lo; x00; x00; l_hi; l_lo; unit; fc; ec] →
  u16 (u8 t_hi) (u8 t_lo) = expected →
  u8 unit = Tcp.m_unitId m1 →
  Z.land (u8 fc) 0x80 ≠ 0 →
  u16 (u8 l_hi) (u8 l_lo) <= 3 →
  Tcp.waitPass m expected batch =
    Some (Tcp.setError (Tcp.emit_modbusException m1 (u8 ec))
                       (Tcp.ModbusException (u8 ec)), false).
Proof.
  intros Hev Hbuf Hid Hu Hfc Hlen. unfold Tcp.waitPass. rewrite Hev, Hbuf.
  change (size [t_hi; t_lo; x00; x00; l_hi; l_lo; unit; fc; ec]) with 9.
  change (9 >=? 8) with true. cbv iota.
  change (at_ [t_hi; t_lo; x00; x00; l_hi; l_lo; unit; fc; ec] 4)
    with (Some (u8 l_hi)).
  change (at_ [t_hi; t_lo; x00; x00; l_hi; l_lo; unit; fc; ec] 5)
    with (Some (u8 l_lo)).
  cbn [mbind option_bind].
  destruct (Z.geb_spec 9 (6 + u16 (u8 l_hi) (u8 l_lo))); [|lia].
  rewrite tcp_validateResponse_exception by done.
  reflexivity.
Qed.

Section TcpException.

Variables (unitId timeout txid : Z) (sent : list QByteArray)
          (errs : list Tcp.Error) (excs : list Z).
Variables (t_hi t_lo l_hi l_lo unit fc ec : byte).

Let response : QByteArray := [t_hi; t_lo; x00; x00; l_hi; l_lo; unit; fc; ec].

Hypothesis Hid : u16 (u8 t_hi) (u8 t_lo) = wrap16 (txid - 1).
Hypothesis Hunit : u8 unit = unitId.
Hypothesis Hfc : Z.land (u8 fc) 0x80 ≠ 0.
Hypothesis Hlen : u16 (u8 l_hi) (u8 l_lo) <= 3.

(** The master holding the exception response after [k] passes, and after
    the response timer has fired following [k] passes. *)
Let holding (k : nat) : Tcp.t :=
  Tcp.mk true unitId timeout true txid response true sent
         (errs ++ replicate k (Tcp.ModbusException (u8 ec)))
         (excs ++ replicate k (u8 ec)).
Let expired (k : nat) : Tcp.t :=
  Tcp.mk true unitId timeout false txid response false sent
         (errs ++ replicate k (Tcp.ModbusException (u8 ec)) ++
            [Tcp.ResponseTimeout; Tcp.ModbusException (u8 ec)])
         (excs ++ replicate (S k) (u8 ec)).

Lemma tcp_exception_first_pass :
  Tcp.waitPass
    (Tcp.mk true unitId timeout true txid [] true sent errs excs)
    (wrap16 (txid - 1)) [readyRead response] = Some (holding 1, false).
Proof.
  rewrite (tcp_waitPass_exception _
             (Tcp.mk true unitId timeout true txid response true sent errs excs)
             _ _ t_hi t_lo l_hi l_lo unit fc ec) by done.
  reflexivity.
Qed.

Lemma tcp_exception_idle_pass (k : nat) :
  Tcp.waitPass (holding k) (wrap16 (txid - 1)) [] = Some (holding (S k), false).
Proof.
  rewrite (tcp_waitPass_exception _ (holding k) _ _
             t_hi t_lo l_hi l_lo unit fc ec) by done.
  unfold holding, Tcp.setError, Tcp.emit_modbusException.
  cbn [Tcp.socketConnected Tcp.m_unitId Tcp.m_timeout Tcp.m_waitingForResponse
       Tcp.m_transactionId Tcp.m_receiveBuffer Tcp.timerActive Tcp.written
       Tcp.errors Tcp.exceptions].
  rewrite <- !(assoc_L (++)), <- !replicate_cons_app. reflexivity.
Qed.

Lemma tcp_exception_timer_pass (k : nat) :
  Tcp.waitPass (holding k) (wrap16 (txid - 1)) [timerExpired] =
    Some (expired k, false).
Proof.
  rewrite (tcp_waitPass_exception _
             (Tcp.mk true unitId timeout false txid response false sent
                (errs ++ replicate k (Tcp.ModbusException (u8 ec)) ++
                   [Tcp.ResponseTimeout])
                (excs ++ replicate k (u8 ec)))
             _ _ t_hi t_lo l_hi l_lo unit fc ec); try done.
  - unfold expired, Tcp.setError, Tcp.emit_modbusException.
    cbn [Tcp.socketConnected Tcp.m_unitId Tcp.m_timeout
         Tcp.m_waitingForResponse Tcp.m_transactionId Tcp.m_receiveBuffer
         Tcp.timerActive Tcp.written Tcp.errors Tcp.exceptions].
    rewrite <- !(assoc_L (++)), <- replicate_cons_app. reflexivity.
  - unfold Tcp.processEvents, holding. cbn [fold_left Tcp.deliver].
    cbv [Tcp.timerActive Tcp.onResponseTimeout Tcp.set_timerActive
         Tcp.m_waitingForResponse Tcp.setError Tcp.set_waiting
         Tcp.m_receiveBuffer Tcp.socketConnected Tcp.m_unitId Tcp.m_timeout
         Tcp.m_transactionId Tcp.written Tcp.errors Tcp.exceptions].
    by rewrite <- (assoc_L (++)).
Qed.

Lemma tcp_exception_waitLoop (n k : nat) :
  Tcp.waitLoop (holding k) (wrap16 (txid - 1)) (replicate n []) =
    Some (expired (k + n)).
Proof.
  revert k. induction n as [|n IH]; intros k.
  - cbn [replicate Tcp.waitLoop]. cbn [holding Tcp.m_waitingForResponse
                                       Tcp.timerActive andb].
    fold (holding k). rewrite tcp_exception_timer_pass.
    cbn [mbind option_bind]. by rewrite Nat.add_0_r.
  - cbn [replicate Tcp.waitLoop]. cbn [holding Tcp.m_waitingForResponse
                                       Tcp.timerActive andb].
    fold (holding k). rewrite tcp_exception_idle_pass.
    cbn [mbind option_bind]. rewrite IH. f_equal. f_equal. lia.
Qed.

End TcpException.

Lemma tcp_sendRequest_exception
    (m : Tcp.t) (request : QByteArray) (n : nat)
    (t_hi t_lo l_hi l_lo unit fc ec : byte) :
  let response := [t_hi; t_lo; x00; x00; l_hi; l_lo; unit; fc; ec] in
  Tcp.isConnected m = true →
  u16 (u8 t_hi) (u8 t_lo) = wrap16 (Tcp.m_transactionId m - 1) →
  u8 unit = Tcp.m_unitId m →
  Z.land (u8 fc) 0x80 ≠ 0 →
  u16 (u8 l_hi) (u8 l_lo) <= 3 →
  Tcp.sendRequest m request ([readyRead response] :: replicate n []) =
    Some (Tcp.mk true (Tcp.m_unitId m) (Tcp.m_timeout m) false
            (Tcp.m_transactionId m) response false
            (Tcp.written m ++ [request])
            (Tcp.errors m ++ replicate (S n) (Tcp.ModbusException (u8 ec)) ++
               [Tcp.ResponseTimeout; Tcp.ModbusException (u8 ec)])
            (Tcp.exceptions m ++ replicate (S (S n)) (u8 ec)),
          response).
Proof.
  intros response Hc Hid Hu Hfc Hlen. subst response.
  destruct m as [sock unitId timeout w txid buffer ta sent errs excs].
  cbn [Tcp.isConnected Tcp.socketConnected Tcp.m_transactionId Tcp.m_unitId
       Tcp.m_timeout Tcp.written Tcp.errors Tcp.exceptions] in *.
  subst sock. unfold Tcp.sendRequest.
  cbv [Tcp.isConnected Tcp.socketConnected negb Tcp.set_receiveBuffer
       Tcp.set_waiting Tcp.write Tcp.set_timerActive Tcp.m_unitId Tcp.m_timeout
       Tcp.m_waitingForResponse Tcp.m_transactionId Tcp.m_receiveBuffer
       Tcp.timerActive Tcp.written Tcp.errors Tcp.exceptions].
  cbn [Tcp.waitLoop Tcp.m_waitingForResponse Tcp.timerActive andb].
  pose proof (tcp_exception_first_pass unitId timeout txid (sent ++ [request])
                errs excs t_hi t_lo l_hi l_lo unit fc ec Hid Hu Hfc Hlen) as H1.
  cbv zeta in H1. rewrite H1. cbn [mbind option_bind].
  pose proof (tcp_exception_waitLoop unitId timeout txid (sent ++ [request])
                errs excs t_hi t_lo l_hi l_lo unit fc ec Hid Hu Hfc Hlen n 1) as H2.
  cbv zeta in H2. rewrite H2. cbn [mbind option_bind]. reflexivity.
Qed.

(** X15.  A Modbus exception response (function code with the high bit set,
    matching transaction and unit id) never ends the wait of the TCP master:
    it is validated again in every pass of the loop, each time emitting
    [modbusException] and recording the exception, until the response timer
    fires.  [sendRequest] then still returns the buffered response, so
    [writeSingleRegister] reports success, while [readHoldingRegisters]
    (nine bytes are fewer than ten) returns no registers. *)
Theorem tcp_exception_response
    (m : Tcp.t) (address value start count : Z) (n : nat)
    (t_hi t_lo l_hi l_lo unit fc ec : byte) :
  let response := [t_hi; t_lo; x00; x00; l_hi; l_lo; unit; fc; ec] in
  let sched := [readyRead response] :: replicate n [] in
  Tcp.isConnected m = true →
  0 <= Tcp.m_transactionId m < 65536 →
  u16 (u8 t_hi) (u8 t_lo) = Tcp.m_transactionId m →
  u8 unit = Tcp.m_unitId m →
  Z.land (u8 fc) 0x80 ≠ 0 →
  u16 (u8 l_hi) (u8 l_lo) <= 3 →
  1 <= count <= 125 →
  (∃ m', Tcp.writeSingleRegister m address value sched = Some (m', true) ∧
         Tcp.exceptions m' =
           Tcp.exceptions m ++ replicate (S (S n)) (u8 ec) ∧
         Tcp.errors m' =
           Tcp.errors m ++ replicate (S n) (Tcp.ModbusException (u8 ec)) ++
             [Tcp.ResponseTimeout; Tcp.ModbusException (u8 ec)]) ∧
  (∃ m', Tcp.readHoldingRegisters m start count sched = Some (m', []) ∧
         Tcp.exceptions m' =
           Tcp.exceptions m ++ replicate (S (S n)) (u8 ec)).
Proof.
  intros response sched Hc Ht Hid Hu Hfc Hlen Hcount.
  assert (Hexp : ∀ fn data,
             u16 (u8 t_hi) (u8 t_lo) =
               wrap16 (Tcp.m_transactionId (fst (Tcp.buildRequest m fn data)) - 1)).
  { intros fn data. cbn. rewrite Hid. unfold wrap16. lia. }
  split.
  - unfold Tcp.writeSingleRegister. rewrite Hc. cbn [negb].
    specialize (Hexp 0x06 (Tcp.twoWords address value)).
    destruct (Tcp.buildRequest m 6 (Tcp.twoWords address value))
      as [m1 request] eqn:E.
    assert (Hm1 : m1 = Tcp.set_transactionId m
                         (wrap16 (Tcp.m_transactionId m + 1)))
      by (unfold Tcp.buildRequest in E; congruence).
    cbn [fst] in Hexp. unfold sched, response.
    rewrite (tcp_sendRequest_exception m1 request n) by (subst m1; done).
    cbn [mbind option_bind]. eexists. split; [reflexivity|].
    subst m1. by cbn.
  - unfold Tcp.readHoldingRegisters. rewrite Hc. cbn [negb orb].
    destruct (Z.eqb_spec count 0); [lia|]. rewrite Z.gtb_ltb.
    destruct (Z.ltb_spec 125 count); [lia|]. cbn [orb].
    specialize (Hexp 0x03 (Tcp.twoWords start count)).
    destruct (Tcp.buildRequest m 3 (Tcp.twoWords start count))
      as [m1 request] eqn:E.
    assert (Hm1 : m1 = Tcp.set_transactionId m
                         (wrap16 (Tcp.m_transactionId m + 1)))
      by (unfold Tcp.buildRequest in E; congruence).
    cbn [fst] in Hexp. unfold sched, response.
    rewrite (tcp_sendRequest_exception m1 request n) by (subst m1; done).
    cbn [mbind option_bind]. eexists. split; [reflexivity|].
    subst m1. by cbn.
Qed.

Lemma tcp_exception_response_witness :
  let response := [x00; x00; x00; x00; x00; x03; x01; x86; x02] in
  let sched := [readyRead response] :: replicate 1 [] in
  (∃ m', Tcp.writeSingleRegister Tcp.connected 0 7 sched = Some (m', true) ∧
         Tcp.exceptions m' =
           Tcp.exceptions Tcp.connected ++ replicate 3 (u8 x02) ∧
         Tcp.errors m' =
           Tcp.errors Tcp.connected ++
             replicate 2 (Tcp.ModbusException (u8 x02)) ++
             [Tcp.ResponseTimeout; Tcp.ModbusException (u8 x02)]) ∧
  (∃ m', Tcp.readHoldingRegisters Tcp.connected 0 1 sched = Some (m', []) ∧
         Tcp.exceptions m' =
           Tcp.exceptions Tcp.connected ++ replicate 3 (u8 x02)).
Proof.
  intros response sched.
  apply (tcp_exception_response Tcp.connected 0 7 0 1 1
           x00 x00 x00 x03 x01 x86 x02);
    try reflexivity; try (cbn; lia); try (vm_compute; discriminate).
Defined.

(** ** CAN receive thread: any stream of frames *)

Section CanStream.

Context {QCanBusFrame : Type} (isValid : QCanBusFrame → bool).

(** Frames that are not valid leave the queue as it is. *)
Lemma can_onFrames_filter (frames : list QCanBusFrame) :
  ∀ s : @CanRx.t QCanBusFrame,
    CanRx.onFrames isValid s frames =
    CanRx.onFrames isValid s (List.filter isValid frames).
Proof.
  induction frames as [|f rest IH]; intros s; [reflexivity|].
  cbn [CanRx.onFrames List.filter].
  destruct (isValid f) eqn:Hv.
  - cbn [CanRx.onFrames]. destruct (CanRx.onFrame isValid s f); [|reflexivity].
    cbn [mbind option_bind]. apply IH.
  - unfold CanRx.onFrame. rewrite Hv. cbn [mbind option_bind]. apply IH.
Qed.

(** Every valid frame is signalled once, in arrival order, whether or not
    an older frame had to be dropped for it. *)
Lemma can_onFrames_emitted (frames : list QCanBusFrame) :
  ∀ s s' : @CanRx.t QCanBusFrame,
    CanRx.onFrames isValid s frames = Some s' →
    omap (λ sig, match sig with
                 | CanRx.frameReceived f => Some f
                 | CanRx.bufferOverflow _ => None
                 end) (CanRx.emitted s') =
    omap (λ sig, match sig with
                 | CanRx.frameReceived f => Some f
                 | CanRx.bufferOverflow _ => None
                 end) (CanRx.emitted s) ++ List.filter isValid frames.
Proof.
  induction frames as [|f rest IH]; intros s s' Hrun.
  - injection Hrun as <-. by rewrite app_nil_r.
  - cbn [CanRx.onFrames] in Hrun.
    destruct (CanRx.onFrame isValid s f) as [s1|] eqn:Hstep; [|done].
    cbn [mbind option_bind] in Hrun. rewrite (IH s1 s' Hrun).
    unfold CanRx.onFrame in Hstep. cbn [List.filter].
    destruct (isValid f); [|by injection Hstep as <-].
    cbn [CanRx.m_buffer CanRx.m_maxBufferSize] in Hstep.
    destruct (_ >=? _).
    + unfold CanRx.dropOldest in Hstep.
      cbn [CanRx.m_buffer CanRx.m_maxBufferSize CanRx.m_receivedCount
           CanRx.m_droppedCount CanRx.emitted] in Hstep.
      destruct (CanRx.dequeue (CanRx.m_buffer s)) as [[? q]|]; [|done].
      cbn [mbind option_bind] in Hstep.
      destruct (_ =? 0); injection Hstep as <-; cbn [CanRx.emitted CanRx.emit
        CanRx.set_buffer]; rewrite ?omap_app; cbn [omap list_omap];
        rewrite ?app_nil_r, <- ?app_assoc; reflexivity.
    + injection Hstep as <-. cbn [CanRx.emitted CanRx.emit CanRx.set_buffer].
      rewrite omap_app. cbn [omap list_omap]. by rewrite <- app_assoc.
Qed.

(** X16.  The receive thread fed any stream of frames, valid or not, into an
    empty queue of positive capacity [C]: frames that are not valid change
    nothing; the queue ends with the newest [C] valid frames in arrival
    order; the received counter counts the valid frames and the dropped
    counter those that were cut off, so that below 2^64 frames received =
    dropped + buffered; and [frameReceived] was emitted for every valid
    frame, dropped or not, in arrival order. *)
Theorem can_stream_accounting (C : Z) (frames : list QCanBusFrame) :
  0 < C →
  let valid := List.filter isValid frames in
  let cut := (length valid - Z.to_nat C)%nat in
  ∃ s, CanRx.onFrames isValid (CanRx.setMaxBufferSize CanRx.create C) frames
         = Some s ∧
       CanRx.m_buffer s = drop cut valid ∧
       CanRx.getReceivedCount s = wrap64 (Z.of_nat (length valid)) ∧
       CanRx.getDroppedCount s = wrap64 (Z.of_nat cut) ∧
       (Z.of_nat (length valid) < 2 ^ 64 →
        CanRx.getReceivedCount s =
          CanRx.getDroppedCount s + CanRx.getBufferedFrameCount s) ∧
       omap (λ sig, match sig with
                    | CanRx.frameReceived f => Some f
                    | CanRx.bufferOverflow _ => None
                    end) (CanRx.emitted s) = valid.
Proof.
  intros HC valid cut.
  destruct (can_onFrames_spec isValid valid
              (CanRx.setMaxBufferSize CanRx.create C))
    as (s & Hrun & Hbuf & Hdc & Hrc & _); cbn; try lia.
  { unfold valid. apply List.Forall_forall. intros f Hf.
    by apply List.filter_In in Hf as [_ Hf]. }
  cbn in Hbuf, Hdc, Hrc. fold cut in Hbuf, Hdc.
  unfold valid in Hrun. rewrite <- can_onFrames_filter in Hrun.
  exists s. split; [exact Hrun|]. split; [exact Hbuf|].
  unfold CanRx.getReceivedCount, CanRx.getDroppedCount,
    CanRx.getBufferedFrameCount.
  split; [exact Hrc|]. split; [exact Hdc|]. split.
  - intros Hn. rewrite Hrc, Hdc, Hbuf, length_drop.
    rewrite !wrap64_small by (unfold cut; lia). unfold cut. lia.
  - by rewrite (can_onFrames_emitted frames _ s Hrun).
Qed.

End CanStream.

Lemma can_stream_accounting_witness :
  ∃ s, CanRx.onFrames Nat.even (CanRx.setMaxBufferSize CanRx.create 2)
         [2; 3; 4; 5; 6]%nat = Some s ∧
       CanRx.m_buffer s = [4; 6]%nat ∧
       CanRx.getReceivedCount s = 3 ∧
       CanRx.getDroppedCount s = 1 ∧
       CanRx.getReceivedCount s =
         CanRx.getDroppedCount s + CanRx.getBufferedFrameCount s ∧
       omap (λ sig, match sig with
                    | CanRx.frameReceived f => Some f
                    | CanRx.bufferOverflow _ => None
                    end) (CanRx.emitted s) = [2; 4; 6]%nat.
Proof.
  destruct (can_stream_accounting Nat.even 2 [2; 3; 4; 5; 6]%nat)
    as (s & H1 & H2 & H3 & H4 & H5 & H6); [lia|].
  exists s. split; [exact H1|]. split; [exact H2|]. split; [exact H3|].
  split; [exact H4|]. split; [apply H5; cbn; lia|exact H6].
Defined.

(** ** CAN driver: the event-driven receive buffer *)

(** Appending one element to a list kept to its last [M] and cutting again
    is cutting once. *)
Lemma keep_last_step {A : Type} (M : nat) (b rest : list A) (f : A) :
  let b' := drop (length (b ++ [f]) - M) (b ++ [f]) in
  drop (length (b' ++ rest) - M) (b' ++ rest) =
  drop (length (b ++ f :: rest) - M) (b ++ f :: rest).
Proof.
  intros b'. subst b'.
  rewrite <- drop_app_le by lia. rewrite <- app_assoc. cbn [app].
  rewrite drop_drop. f_equal. rewrite length_drop, !length_app.
  cbn [length]. lia.
Qed.

Section CanBuffer.

Context {QCanBusFrame : Type} (isValid : QCanBusFrame → bool).

(** One valid frame with a capacity that is not negative. *)
Lemma canbuf_onFrame_valid (s : @CanBuf.t QCanBusFrame) (f : QCanBusFrame) :
  isValid f = true →
  0 <= CanBuf.m_receiveBufferMaxSize s →
  let buffer := CanBuf.m_receiveBuffer s ++ [f] in
  CanBuf.onFrame isValid s f =
    Some (CanBuf.mk
            (drop (length buffer - Z.to_nat (CanBuf.m_receiveBufferMaxSize s))
                  buffer)
            (CanBuf.m_receiveBufferMaxSize s)
            (wrap64 (CanBuf.m_receivedFrameCount s + 1))
            (CanBuf.emitted s ++ [f])).
Proof.
  intros Hv Hmax buffer. unfold CanBuf.onFrame. rewrite Hv. fold buffer.
  destruct (Z.gtb_spec (Z.of_nat (length buffer))
              (CanBuf.m_receiveBufferMaxSize s)) as [Hover|Hfits].
  - unfold CanBuf.removeFirst.
    destruct (Z.leb_spec 0 (Z.of_nat (length buffer) -
                            CanBuf.m_receiveBufferMaxSize s)); [|lia].
    destruct (Z.leb_spec (Z.of_nat (length buffer) -
                          CanBuf.m_receiveBufferMaxSize s)
                         (Z.of_nat (length buffer))); [|lia].
    cbn [andb mbind option_bind]. do 3 f_equal. lia.
  - replace (length buffer - Z.to_nat (CanBuf.m_receiveBufferMaxSize s))%nat
      with 0%nat by lia.
    reflexivity.
Qed.

(** X17.  [DriverCAN::onFramesReceived] with a capacity that is not
    negative: frames that are not valid are skipped; every valid frame is
    counted and signalled with [frameReceived], in arrival order; and the
    buffer ends as the newest [max] frames of what it held followed by the
    valid frames.  With capacity 0 the buffer stays empty while the frames
    are still counted and signalled. *)
Theorem canbuf_keeps_newest (frames : list QCanBusFrame) :
  ∀ s : @CanBuf.t QCanBusFrame,
    0 <= CanBuf.m_receiveBufferMaxSize s →
    Z.of_nat (length (CanBuf.m_receiveBuffer s)) <=
      CanBuf.m_receiveBufferMaxSize s →
    0 <= CanBuf.m_receivedFrameCount s < 2 ^ 64 →
    let valid := List.filter isValid frames in
    let all := CanBuf.m_receiveBuffer s ++ valid in
    ∃ s', CanBuf.onFramesReceived isValid s frames = Some s' ∧
          CanBuf.m_receiveBuffer s' =
            drop (length all - Z.to_nat (CanBuf.m_receiveBufferMaxSize s)) all ∧
          CanBuf.m_receivedFrameCount s' =
            wrap64 (CanBuf.m_receivedFrameCount s + Z.of_nat (length valid)) ∧
          CanBuf.emitted s' = CanBuf.emitted s ++ valid ∧
          CanBuf.m_receiveBufferMaxSize s' = CanBuf.m_receiveBufferMaxSize s.
Proof.
  induction frames as [|f rest IH]; intros s Hmax Hlen Hcount valid all.
  - subst valid all. cbn [List.filter CanBuf.onFramesReceived length].
    exists s. rewrite !app_nil_r, Z.add_0_r, wrap64_small by exact Hcount.
    replace (length (CanBuf.m_receiveBuffer s) -
             Z.to_nat (CanBuf.m_receiveBufferMaxSize s))%nat with 0%nat by lia.
    done.
  - subst valid all. cbn [List.filter CanBuf.onFramesReceived].
    destruct (isValid f) eqn:Hv.
    + rewrite (canbuf_onFrame_valid s f Hv Hmax). cbn [mbind option_bind].
      set (s1 := CanBuf.mk _ _ _ _).
      destruct (IH s1) as (s' & Hrun & Hbuf & Hcnt & Hem & Hmax').
      { exact Hmax. }
      { cbn [s1 CanBuf.m_receiveBuffer CanBuf.m_receiveBufferMaxSize].
        rewrite length_drop, length_app. cbn [length]. lia. }
      { apply wrap64_range. }
      exists s'. split; [exact Hrun|].
      cbn [s1 CanBuf.m_receiveBuffer CanBuf.m_receiveBufferMaxSize
           CanBuf.m_receivedFrameCount CanBuf.emitted] in Hbuf, Hcnt, Hem, Hmax'.
      split; [rewrite Hbuf; apply keep_last_step|].
      split; [rewrite Hcnt, wrap64_add_l; f_equal; cbn [length]; lia|].
      split; [by rewrite Hem, <- app_assoc|exact Hmax'].
    + unfold CanBuf.onFrame at 1. rewrite Hv. cbn [mbind option_bind].
      apply IH; assumption.
Qed.

End CanBuffer.

Lemma canbuf_keeps_newest_witness :
  ∃ s', CanBuf.onFramesReceived Nat.even
          (CanBuf.setReceiveBufferMaxSize CanBuf.create 0) [2; 3; 4]%nat
          = Some s' ∧
        CanBuf.m_receiveBuffer s' = [] ∧
        CanBuf.m_receivedFrameCount s' = 2 ∧
        CanBuf.emitted s' = [2; 4]%nat.
Proof.
  destruct (canbuf_keeps_newest Nat.even [2; 3; 4]%nat
              (CanBuf.setReceiveBufferMaxSize CanBuf.create 0))
    as (s' & H1 & H2 & H3 & H4 & _); [cbn; lia|cbn; lia|cbn; lia|].
  exists s'. split; [exact H1|]. split; [exact H2|]. split; [exact H3|exact H4].
Defined.

(** ** Serial driver: the write queue *)

Lemma left_nonneg (a : QByteArray) (n : Z) :
  0 <= n → left a n = take (Z.to_nat n) a.
Proof.
  intros Hn. unfold left, size.
  destruct (Z.geb_spec n (Z.of_nat (length a))); [by rewrite take_ge by lia|].
  destruct (Z.ltb_spec n 0); [lia|reflexivity].
Qed.

Lemma remove0_pos (a : QByteArray) (n : Z) :
  0 < n → Serial.remove0 a n = drop (Z.to_nat n) a.
Proof.
  intros Hn. unfold Serial.remove0, size.
  destruct (Z.leb_spec n 0); [lia|]. cbn [orb].
  destruct (Z.leb_spec (Z.of_nat (length a)) 0).
  { destruct a; [by rewrite drop_nil|cbn [length] in *; lia]. }
  destruct (Z.geb_spec n (Z.of_nat (length a))); [|reflexivity].
  by rewrite drop_ge by lia.
Qed.

(** What the port took followed by what stays queued is the queue. *)
Lemma left_remove0 (a : QByteArray) (n : Z) :
  0 < n <= INT_MAX → left a n ++ Serial.remove0 a (to_int n) = a.
Proof.
  intros Hn. rewrite to_int_small, left_nonneg, remove0_pos by lia.
  apply take_drop.
Qed.

Lemma size_remove0_le (a : QByteArray) (n : Z) :
  size (Serial.remove0 a n) <= size a.
Proof.
  unfold Serial.remove0, size.
  destruct (_ || _); [lia|]. destruct (_ >=? _); cbn [length]; [lia|].
  rewrite length_drop. lia.
Qed.

Ltac queue_unchanged :=
  cbn [SerialTx.sent SerialTx.m_writeBuffer SerialTx.portOpen];
  rewrite ?app_nil_r;
  split; [reflexivity|split; [reflexivity|lia]].

Lemma serialtx_processWriteBuffer_keeps (s : SerialTx.t) (room : Z) :
  let s' := SerialTx.processWriteBuffer s room in
  SerialTx.sent s' ++ SerialTx.m_writeBuffer s' =
    SerialTx.sent s ++ SerialTx.m_writeBuffer s ∧
  SerialTx.portOpen s' = SerialTx.portOpen s ∧
  size (SerialTx.m_writeBuffer s') <= size (SerialTx.m_writeBuffer s).
Proof.
  destruct s as [o buffer w sent]. unfold SerialTx.processWriteBuffer.
  cbn [SerialTx.sent SerialTx.m_writeBuffer SerialTx.portOpen].
  destruct o; cbn [negb]; [|queue_unchanged].
  destruct (Z.eqb_spec (size buffer) 0); [queue_unchanged|].
  pose proof (size_nonneg buffer) as Hsz.
  assert (Hss : to_int (Z.min (size buffer) 4096) = Z.min (size buffer) 4096)
    by (apply to_int_small; unfold INT_MAX; lia).
  cbv zeta. rewrite Hss.
  set (chunk := left buffer (Z.min (size buffer) 4096)).
  assert (Hchunk : size chunk = Z.min (size buffer) 4096).
  { unfold chunk. rewrite left_nonneg by lia. unfold size.
    rewrite length_take. unfold size in *. lia. }
  unfold SerialTx.portWrite.
  destruct (Z.ltb_spec room 0); [change (-1 >? 0) with false; queue_unchanged|].
  destruct (Z.gtb_spec (Z.min room (size chunk)) 0); [|queue_unchanged].
  cbn [SerialTx.sent SerialTx.m_writeBuffer SerialTx.portOpen].
  split; [|split; [reflexivity|apply size_remove0_le]].
  rewrite <- app_assoc. f_equal.
  assert (Hleft : left chunk (Z.min room (size chunk)) =
                  left buffer (Z.min room (size chunk))).
  { rewrite Hchunk. unfold chunk. rewrite !left_nonneg by lia.
    rewrite take_take. f_equal. lia. }
  rewrite Hleft. apply left_remove0. unfold INT_MAX. lia.
Qed.

Lemma serialtx_flush_keeps (rooms : list Z) :
  ∀ s : SerialTx.t,
    size (SerialTx.m_writeBuffer s) <= INT_MAX →
    let s' := SerialTx.flush s rooms in
    SerialTx.sent s' ++ SerialTx.m_writeBuffer s' =
      SerialTx.sent s ++ SerialTx.m_writeBuffer s ∧
    SerialTx.portOpen s' = SerialTx.portOpen s ∧
    size (SerialTx.m_writeBuffer s') <= size (SerialTx.m_writeBuffer s).
Proof.
  induction rooms as [|room rooms IH]; intros [o buffer w sent] Hmax;
    cbn [SerialTx.flush SerialTx.sent SerialTx.m_writeBuffer SerialTx.portOpen
         SerialTx.m_isWriting] in *.
  - destruct (_ && _); queue_unchanged.
  - destruct (_ && _); [|queue_unchanged].
    unfold SerialTx.portWrite.
    destruct (Z.ltb_spec room 0);
      [change (-1 >? 0) with false; queue_unchanged|].
    destruct (Z.gtb_spec (Z.min room (size buffer)) 0); [|queue_unchanged].
    pose proof (size_remove0_le buffer (to_int (Z.min room (size buffer))))
      as Hle.
    match goal with
    | |- context [SerialTx.flush ?s1 rooms] =>
        destruct (IH s1) as (H1 & H2 & H3);
          [cbn [SerialTx.m_writeBuffer]; lia|]
    end.
    cbn [SerialTx.sent SerialTx.m_writeBuffer SerialTx.portOpen] in H1, H2, H3.
    cbv zeta in *. rewrite H1, H2. split; [|split; [reflexivity|lia]].
    rewrite <- app_assoc. f_equal. apply left_remove0. lia.
Qed.

Lemma serialtx_write_keeps (s : SerialTx.t) (data : QByteArray) (room : Z) :
  let s' := fst (SerialTx.write s data room) in
  SerialTx.sent s' ++ SerialTx.m_writeBuffer s' =
    SerialTx.sent s ++ SerialTx.m_writeBuffer s ++
      (if SerialTx.portOpen s then data else []) ∧
  SerialTx.portOpen s' = SerialTx.portOpen s ∧
  size (SerialTx.m_writeBuffer s') <=
    size (SerialTx.m_writeBuffer s) +
    size (if SerialTx.portOpen s then data else []).
Proof.
  pose proof (size_nonneg data) as Hd.
  destruct s as [o buffer w sent]. unfold SerialTx.write.
  cbn [SerialTx.sent SerialTx.m_writeBuffer SerialTx.portOpen
       SerialTx.m_isWriting].
  destruct o; cbn [negb fst];
    [|change (size []) with 0; queue_unchanged].
  destruct (Z.eqb_spec (size data) 0) as [Hz|Hnz]; cbn [fst].
  { destruct data; [|unfold size in Hz; cbn [length] in Hz; lia].
    queue_unchanged. }
  destruct w; cbn [negb].
  - cbn [SerialTx.sent SerialTx.m_writeBuffer SerialTx.portOpen].
    rewrite size_app. split; [reflexivity|split; [reflexivity|lia]].
  - match goal with
    | |- context [SerialTx.processWriteBuffer ?s1 room] =>
        destruct (serialtx_processWriteBuffer_keeps s1 room) as (H1 & H2 & H3)
    end.
    cbn [SerialTx.sent SerialTx.m_writeBuffer SerialTx.portOpen] in H1, H2, H3.
    cbv zeta in H1, H2, H3. rewrite H1, H2. rewrite size_app in H3.
    split; [reflexivity|split; [reflexivity|lia]].
Qed.

(** X18.  The write queue loses, duplicates and reorders nothing: after any
    history of [write] calls, [bytesWritten] notifications and [flush]
    calls, with the port taking whatever amounts it takes (or failing), the
    bytes the port has been given followed by the bytes still queued are the
    bytes that were there before followed by the data of the [write] calls
    in call order; a closed port accepts nothing.  (A [QByteArray] holds at
    most [INT_MAX] bytes.) *)
Theorem serial_write_queue_keeps_order (ops : list SerialTx.Op) :
  ∀ s : SerialTx.t,
    size (SerialTx.m_writeBuffer s ++ SerialTx.queued s ops) <= INT_MAX →
    let s' := fold_left SerialTx.step ops s in
    SerialTx.sent s' ++ SerialTx.m_writeBuffer s' =
      SerialTx.sent s ++ SerialTx.m_writeBuffer s ++ SerialTx.queued s ops ∧
    SerialTx.portOpen s' = SerialTx.portOpen s.
Proof.
  induction ops as [|op ops IH]; intros s Hmax.
  - cbn. by rewrite app_nil_r.
  - cbn [fold_left SerialTx.queued] in *.
    rewrite !size_app in Hmax.
    pose proof (size_nonneg (SerialTx.queued (SerialTx.step s op) ops)) as Hq.
    assert (Hstep :
      SerialTx.sent (SerialTx.step s op) ++
        SerialTx.m_writeBuffer (SerialTx.step s op) =
        SerialTx.sent s ++ SerialTx.m_writeBuffer s ++
          match op with
          | SerialTx.opWrite data _ => if SerialTx.portOpen s then data else []
          | _ => []
          end ∧
      SerialTx.portOpen (SerialTx.step s op) = SerialTx.portOpen s ∧
      size (SerialTx.m_writeBuffer (SerialTx.step s op)) <=
        size (SerialTx.m_writeBuffer s) +
        size match op with
             | SerialTx.opWrite data _ =>
                 if SerialTx.portOpen s then data else []
             | _ => []
             end).
    { destruct op as [data room|room|rooms]; cbn [SerialTx.step].
      - exact (serialtx_write_keeps s data room).
      - destruct (serialtx_processWriteBuffer_keeps s room) as (H1 & H2 & H3).
        cbv zeta in H1, H2, H3. rewrite app_nil_r. change (size []) with 0.
        split; [exact H1|]. split; [exact H2|lia].
      - pose proof (size_nonneg (SerialTx.m_writeBuffer s)).
        change (size []) with 0 in Hmax.
        destruct (serialtx_flush_keeps rooms s) as (H1 & H2 & H3); [lia|].
        cbv zeta in H1, H2, H3. rewrite app_nil_r. change (size []) with 0.
        split; [exact H1|]. split; [exact H2|lia]. }
    destruct Hstep as (H1 & H2 & H3).
    destruct (IH (SerialTx.step s op)) as [IH1 IH2];
      [rewrite size_app; lia|].
    cbv zeta in IH1, IH2. rewrite IH1, IH2.
    split; [|exact H2].
    rewrite (app_assoc (SerialTx.sent (SerialTx.step s op))), H1.
    by rewrite <- !app_assoc.
Qed.

Lemma serial_write_queue_keeps_order_witness :
  let ops := [SerialTx.opWrite (bytes [1; 2; 3]) 2;
              SerialTx.opWrite (bytes [4]) 5;
              SerialTx.opBytesWritten (-1);
              SerialTx.opFlush [1; 7]] in
  let s' := fold_left SerialTx.step ops SerialTx.opened in
  SerialTx.sent s' ++ SerialTx.m_writeBuffer s' = bytes [1; 2; 3; 4] ∧
  SerialTx.portOpen s' = true.
Proof.
  intros ops.
  apply (serial_write_queue_keeps_order ops SerialTx.opened).
  vm_compute. discriminate.
Defined.

(** ** Serial driver: reading from the read buffer *)

Lemma indexOf_absent (a : QByteArray) (c : byte) :
  c ∉ a → Serial.indexOf a c = -1.
Proof.
  induction a as [|b a IH]; intros Hc; [reflexivity|].
  apply not_elem_of_cons in Hc as [Hne Hc]. cbn [Serial.indexOf].
  destruct (Byte.eqb b c) eqn:E; [by apply Byte.byte_dec_bl in E|].
  by rewrite IH.
Qed.

Lemma indexOf_first (pre rest : QByteArray) (c : byte) :
  c ∉ pre → Serial.indexOf (pre ++ c :: rest) c = size pre.
Proof.
  induction pre as [|b pre IH]; intros Hc; cbn [app Serial.indexOf].
  - by rewrite (Byte.byte_dec_lb (eq_refl c)).
  - apply not_elem_of_cons in Hc as [Hne Hc].
    destruct (Byte.eqb b c) eqn:E; [by apply Byte.byte_dec_bl in E|].
    rewrite IH by exact Hc. pose proof (size_nonneg pre).
    destruct (Z.ltb_spec (size pre) 0); [lia|]. rewrite size_cons. lia.
Qed.

(** X19.  [readLine] hands out the buffer up to and including its first
    line feed and keeps the rest; while the buffer holds no line feed it
    returns an empty array and leaves the buffer alone, however much data
    is waiting. *)
Theorem serial_readLine_first_line (s : Serial.t) :
  (∀ pre rest,
     Serial.m_readBuffer s = pre ++ x0a :: rest → x0a ∉ pre →
     Serial.readLine s = (Serial.set_readBuffer s rest, pre ++ [x0a])) ∧
  (x0a ∉ Serial.m_readBuffer s → Serial.readLine s = (s, [])).
Proof.
  split.
  - intros pre rest Hbuf Hpre. unfold Serial.readLine.
    rewrite Hbuf, indexOf_first by exact Hpre.
    pose proof (size_nonneg pre) as Hsz.
    destruct (Z.ltb_spec (size pre) 0); [lia|].
    rewrite left_nonneg, remove0_pos by lia.
    replace (Z.to_nat (size pre + 1)) with (length (pre ++ [x0a]))
      by (rewrite length_app; unfold size; cbn [length]; lia).
    replace (pre ++ x0a :: rest) with ((pre ++ [x0a]) ++ rest)
      by (by rewrite <- app_assoc).
    by rewrite take_app_length, drop_app_length.
  - intros Hno. unfold Serial.readLine. by rewrite indexOf_absent.
Qed.

Lemma serial_readLine_first_line_witness :
  let s := Serial.set_readBuffer Serial.create (bytes [0x61; 0x0A; 0x62]) in
  Serial.readLine s =
    (Serial.set_readBuffer s (bytes [0x62]), bytes [0x61; 0x0A]).
Proof.
  intros s.
  apply (proj1 (serial_readLine_first_line s) (bytes [0x61]) (bytes [0x62])).
  - vm_compute. reflexivity.
  - intros Hin. apply elem_of_cons in Hin as [Hin|Hin].
    + vm_compute in Hin. discriminate.
    + by apply elem_of_nil in Hin.
Defined.

(** X20.  [read(maxSize)] hands out the first [min(maxSize, size)] bytes of
    the buffer and keeps the rest, so that what it returns followed by what
    stays is what was buffered; for [maxSize <= 0] or an empty buffer it
    returns an empty array and changes nothing.  (A [QByteArray] holds at
    most [INT_MAX] bytes.) *)
Theorem serial_read_prefix (s : Serial.t) (maxSize : Z) :
  size (Serial.m_readBuffer s) <= INT_MAX →
  let s' := fst (Serial.read s maxSize) in
  let data := snd (Serial.read s maxSize) in
  data ++ Serial.m_readBuffer s' = Serial.m_readBuffer s ∧
  size data = Z.max 0 (Z.min maxSize (size (Serial.m_readBuffer s))) ∧
  (Z.min maxSize (size (Serial.m_readBuffer s)) <= 0 → s' = s ∧ data = []).
Proof.
  intros Hmax. unfold Serial.read.
  pose proof (size_nonneg (Serial.m_readBuffer s)) as Hsz.
  destruct (Z.leb_spec (Z.min maxSize (size (Serial.m_readBuffer s))) 0)
    as [Hle|Hpos]; cbn [fst snd].
  - split; [reflexivity|]. split; [change (size []) with 0; lia|done].
  - rewrite to_int_small by lia.
    rewrite left_nonneg, remove0_pos by lia.
    cbn [Serial.m_readBuffer Serial.set_readBuffer].
    split; [apply take_drop|]. split; [|lia].
    unfold size in *. rewrite length_take. lia.
Qed.

Lemma serial_read_prefix_witness :
  let s := Serial.set_readBuffer Serial.create (bytes [1; 2; 3; 4; 5]) in
  snd (Serial.read s 2) = bytes [1; 2] ∧
  Serial.m_readBuffer (fst (Serial.read s 2)) = bytes [3; 4; 5] ∧
  snd (Serial.read s 2) ++ Serial.m_readBuffer (fst (Serial.read s 2)) =
    Serial.m_readBuffer s.
Proof.
  intros s. split; [vm_compute; reflexivity|].
  split; [vm_compute; reflexivity|].
  apply (serial_read_prefix s 2). vm_compute. discriminate.
Defined.

(** ** Requests that run together *)

Lemma xorb_cancel_r (a b m : bool) : xorb a m = xorb b m → a = b.
Proof. destruct a, b, m; cbn; congruence. Qed.

(** The bits of the CRC register after one round. *)
Lemma crc_round_bits (c n : Z) :
  0 <= c < 65536 → 0 <= n < 16 →
  Z.testbit (Crc.round c) n =
    xorb (Z.testbit c (n + 1)) (Z.testbit c 0 && Z.testbit 0xA001 n).
Proof.
  intros Hc Hn. unfold Crc.round, wrap16.
  change 1 with (Z.ones 1) at 1. rewrite Z.land_ones by lia.
  change (2 ^ 1) with 2. pose proof (Z.bit0_mod c) as Hb.
  destruct (Z.testbit c 0); cbn [Z.b2z] in Hb; rewrite <- Hb;
    cbn [Z.eqb negb andb].
  - rewrite Z.mod_pow2_bits_low, Z.lxor_spec, Z.shiftr_spec by lia.
    reflexivity.
  - rewrite Z.mod_pow2_bits_low, Z.shiftr_spec by lia.
    by rewrite xorb_false_r.
Qed.

(** A round loses nothing: the register before it can be read off the
    register after it. *)
Lemma crc_round_inj (c1 c2 : Z) :
  0 <= c1 < 65536 → 0 <= c2 < 65536 →
  Crc.round c1 = Crc.round c2 → c1 = c2.
Proof.
  intros H1 H2 Hr.
  assert (Hbit : ∀ n, 0 <= n < 16 →
            xorb (Z.testbit c1 (n + 1)) (Z.testbit c1 0 && Z.testbit 0xA001 n) =
            xorb (Z.testbit c2 (n + 1)) (Z.testbit c2 0 && Z.testbit 0xA001 n)).
  { intros n Hn. rewrite <- !crc_round_bits by assumption. by rewrite Hr. }
  assert (H0 : Z.testbit c1 0 = Z.testbit c2 0).
  { specialize (Hbit 15 ltac:(lia)).
    rewrite (testbit_above c1 16 (15 + 1)) in Hbit by (change (2 ^ 16) with 65536; lia).
    rewrite (testbit_above c2 16 (15 + 1)) in Hbit by (change (2 ^ 16) with 65536; lia).
    change (Z.testbit 0xA001 15) with true in Hbit.
    by rewrite !andb_true_r in Hbit. }
  apply Z.bits_inj'. intros n Hn.
  destruct (Z.eq_dec n 0) as [->|Hne]; [exact H0|].
  destruct (Z.ltb_spec n 16) as [Hlt|Hge].
  - specialize (Hbit (n - 1) ltac:(lia)).
    replace (n - 1 + 1) with n in Hbit by lia. rewrite H0 in Hbit.
    exact (xorb_cancel_r _ _ _ Hbit).
  - rewrite (testbit_above c1 16 n), (testbit_above c2 16 n)
      by (change (2 ^ 16) with 65536; lia).
    reflexivity.
Qed.

(** One byte: different registers before give different registers after. *)
Lemma crc_step_inj (c1 c2 : Z) (b : byte) :
  0 <= c1 < 65536 → 0 <= c2 < 65536 →
  Crc.step c1 b = Crc.step c2 b → c1 = c2.
Proof.
  intros H1 H2. unfold Crc.step, Nat.iter. cbn [nat_rect]. intros Hs.
  do 8 (apply crc_round_inj in Hs;
        [|repeat first [apply crc_round_range | apply wrap16_range]..]).
  apply Z.bits_inj'. intros n Hn.
  destruct (Z.ltb_spec n 16) as [Hlt|Hge].
  - apply (f_equal (λ z, Z.testbit z n)) in Hs. unfold wrap16 in Hs.
    rewrite !Z.mod_pow2_bits_low, !Z.lxor_spec in Hs by lia.
    exact (xorb_cancel_r _ _ _ Hs).
  - rewrite (testbit_above c1 16 n), (testbit_above c2 16 n)
      by (change (2 ^ 16) with 65536; lia).
    reflexivity.
Qed.

Lemma crc_fold_inj (data : QByteArray) :
  ∀ c1 c2, 0 <= c1 < 65536 → 0 <= c2 < 65536 →
           fold_left Crc.step data c1 = fold_left Crc.step data c2 → c1 = c2.
Proof.
  induction data as [|b data IH]; intros c1 c2 H1 H2 Hf; [exact Hf|].
  cbn [fold_left] in Hf. apply IH in Hf; try apply crc_step_range.
  by apply crc_step_inj in Hf.
Qed.

(** The register is 0 after a frame. *)
Lemma crc_frame_residue (body : QByteArray) :
  Crc.calculateCRC16 (Crc.frame body) = 0.
Proof.
  pose proof (calculateCRC16_range body) as Hr.
  unfold Crc.frame, Crc.calculateCRC16. rewrite fold_left_app.
  cbn [fold_left]. fold (Crc.calculateCRC16 body).
  rewrite crc_step_lo by exact Hr. apply crc_step_hi. exact Hr.
Qed.

(** [verifyCRC] compares the trailer with the CRC of what precedes it. *)
Lemma verifyCRC_with_trailer (body : QByteArray) (c : Z) :
  2 <= size body → 0 <= c < 65536 →
  Slave.verifyCRC (body ++ [Crc.lo c; Crc.hi c]) =
    Some (c =? Crc.calculateCRC16 body).
Proof.
  intros Hsz Hc. unfold Slave.verifyCRC.
  rewrite size_app. change (size [Crc.lo c; Crc.hi c]) with 2.
  destruct (Z.ltb_spec (size body + 2) 4); [lia|].
  rewrite !at_app_r by lia.
  replace (size body + 2 - 2 - size body) with 0 by lia.
  replace (size body + 2 - 1 - size body) with 1 by lia.
  change (at_ [Crc.lo c; Crc.hi c] 0) with (Some (u8 (Crc.lo c))).
  change (at_ [Crc.lo c; Crc.hi c] 1) with (Some (u8 (Crc.hi c))).
  cbn [mbind option_bind].
  replace (size body + 2 - 2) with (size body) by lia.
  rewrite left_app_exact by done.
  rewrite crc_bytes_decode by exact Hc. reflexivity.
Qed.

(** Two frames one after the other never pass the CRC check. *)
Lemma verifyCRC_two_frames (body1 body2 : QByteArray) :
  Slave.verifyCRC (Crc.frame body1 ++ Crc.frame body2) = Some false.
Proof.
  unfold Crc.frame at 2. rewrite app_assoc.
  rewrite verifyCRC_with_trailer.
  - f_equal. apply Z.eqb_neq. intros Heq.
    unfold Crc.calculateCRC16 at 2 in Heq. rewrite fold_left_app in Heq.
    fold (Crc.calculateCRC16 (Crc.frame body1)) in Heq.
    rewrite crc_frame_residue in Heq. unfold Crc.calculateCRC16 in Heq.
    by apply crc_fold_inj in Heq.
  - rewrite size_app, size_frame.
    pose proof (size_nonneg body1). pose proof (size_nonneg body2). lia.
  - apply calculateCRC16_range.
Qed.

(** X21.  The slave frames requests by the gap timer alone: two complete
    request frames that arrive before the timer fires, whatever they are,
    are checked as one frame, and that frame never passes the CRC check
    (the CRC register is 0 after the first frame, not the initial 0xFFFF).
    The slave answers neither request, changes no register and clears its
    buffer. *)
Theorem slave_back_to_back_requests_lost
    (s : Slave.t) (body1 body2 : QByteArray) :
  Slave.m_receiveBuffer s = [] →
  Slave.onFrameTimeout
    (Slave.onSerialDataReceived
       (Slave.onSerialDataReceived s (Crc.frame body1)) (Crc.frame body2)) =
    Some s.
Proof.
  intros Hbuf. destruct s as [a b h i w e]. cbn in Hbuf. subst b.
  unfold Slave.onFrameTimeout, Slave.onSerialDataReceived.
  cbn [Slave.m_receiveBuffer Slave.set_receiveBuffer app].
  pose proof (size_nonneg body1). pose proof (size_nonneg body2).
  rewrite size_app, !size_frame.
  destruct (Z.geb_spec (size body1 + 2 + (size body2 + 2)) 4); [|lia].
  unfold Slave.processRequest. rewrite size_app, !size_frame.
  destruct (Z.ltb_spec (size body1 + 2 + (size body2 + 2)) 6); [reflexivity|].
  rewrite verifyCRC_two_frames. reflexivity.
Qed.

Lemma slave_back_to_back_requests_lost_witness :
  let s := Slave.create 1 in
  let read := Crc.frame (to_char 1 :: to_char 0x03 :: Rtu.twoWords 0 2) in
  let write := Crc.frame (to_char 1 :: to_char 0x06 :: Rtu.twoWords 0 7) in
  Slave.onFrameTimeout
    (Slave.onSerialDataReceived (Slave.onSerialDataReceived s read) write) =
    Some s.
Proof.
  intros s read write.
  apply (slave_back_to_back_requests_lost s). reflexivity.
Defined.
